(** * The QUIC listener of py-libp2p: packet parser, version negotiation,
      routing table and session supervisor

    A shallow embedding of [libp2p/transport/quic/listener.py], and what
    holds of it.

    - Python [bytes] are lists of [Byte.byte]; a byte read by index is the
      integer [byte_val b] in 0..255, and the arithmetic on it is on [Z]
      with the bit operations of the source.
    - The four dictionaries of the listener are finite maps ([gmap]);
      [dict.pop(k, None)] is a lookup followed by [delete], [dict.get] is
      a lookup. [_quic_configs] is iterated in order: an association list.
    - Code that can raise lives in an error monad over the listener's
      fields; [try ... except Exception] is [try_except], and what a
      [try] block changed before it raised stays changed.
    - The QUIC engine, the connection wrapper, the security manager and
      the random source are not part of the listener. Each call to them
      is logged in [calls]; whether it raises and what it answers is
      given to the operation as a script. The diagnostic prints and
      [_debug_quic_connection_state] change nothing and are left out.
    - [_process_packet] holds [_connection_lock] from the parse to the
      end: one datagram is one step of the listener. *)

From Stdlib Require Import ZArith Lia.
From Stdlib.Strings Require Import Byte.
From stdpp Require Import gmap strings list sorting.

Local Open Scope Z_scope.

(** ** Bytes *)

Abbreviation bytes := (list byte).

#[global] Instance byte_eq_dec : EqDecision byte := Byte.byte_eq_dec.
#[global] Instance byte_countable : Countable byte :=
  inj_countable Byte.to_N Byte.of_N Byte.of_to_N.

Definition byte_val (b : byte) : Z := Z.of_N (Byte.to_N b).

(** [len(data)] *)
Definition len {A} (data : list A) : Z := Z.of_nat (length data).

(** [data[a:b]] for [0 <= a]: Python clamps a slice to the buffer. *)
Definition slice (data : bytes) (a b : Z) : bytes :=
  take (Z.to_nat (b - a)) (drop (Z.to_nat a) data).

(** ** Exceptions *)

Inductive exn :=
  | IndexError
  | StructError
  | ValueError
  | StopIteration
  | QUICListenError
  | ExternalError.

Inductive result (A : Type) :=
  | Return (a : A)
  | Raise (e : exn).
Arguments Return {A} a.
Arguments Raise {A} e.

#[global] Instance result_ret : MRet result := @Return.
#[global] Instance result_bind : MBind result := fun A B f m =>
  match m with
  | Return a => f a
  | Raise e => Raise e
  end.

(** [data[i]] for [0 <= i]: raises [IndexError] out of range. *)
Definition index (data : bytes) (i : Z) : result Z :=
  match data !! Z.to_nat i with
  | Some b => Return (byte_val b)
  | None => Raise IndexError
  end.

(** [struct.unpack("!I", bs)[0]]: exactly four bytes, big-endian. *)
Definition unpack_I (bs : bytes) : result Z :=
  match bs with
  | [b0; b1; b2; b3] =>
      Return (Z.lor (Z.shiftl (byte_val b0) 24)
             (Z.lor (Z.shiftl (byte_val b1) 16)
             (Z.lor (Z.shiftl (byte_val b2) 8) (byte_val b3))))
  | _ => Raise StructError
  end.

(** The byte whose value is [z], for [0 <= z < 256]. *)
Definition byte_of_Z (z : Z) : option byte := Byte.of_N (Z.to_N z).

(** [struct.pack("!I", v)]: raises outside of [0, 2^32). *)
Definition pack_I (v : Z) : result bytes :=
  if (0 <=? v) && (v <? 2 ^ 32) then
    match byte_of_Z (Z.land (Z.shiftr v 24) 0xFF),
          byte_of_Z (Z.land (Z.shiftr v 16) 0xFF),
          byte_of_Z (Z.land (Z.shiftr v 8) 0xFF),
          byte_of_Z (Z.land v 0xFF) with
    | Some b0, Some b1, Some b2, Some b3 => Return [b0; b1; b2; b3]
    | _, _, _, _ => Raise StructError
    end
  else Raise StructError.

(** ** Packet parser *)

Record QUICPacketInfo := {
  version : Z;
  destination_cid : bytes;
  source_cid : bytes;
  packet_type : Z;
  token : bytes
}.

(** [_decode_varint]: the decoded value and the number of bytes it took;
    [(0, 0)] when the buffer is shorter than the selected width. *)
Definition _decode_varint (data : bytes) : result (Z * Z) :=
  if len data <? 1 then Return (0, 0) else
  first_byte ← index data 0;
  let length_bits := Z.shiftr (Z.land first_byte 0xC0) 6 in
  if length_bits =? 0 then
    Return (Z.land first_byte 0x3F, 1)
  else if length_bits =? 1 then
    if len data <? 2 then Return (0, 0) else
    d1 ← index data 1;
    Return (Z.lor (Z.shiftl (Z.land first_byte 0x3F) 8) d1, 2)
  else if length_bits =? 2 then
    if len data <? 4 then Return (0, 0) else
    d1 ← index data 1;
    d2 ← index data 2;
    d3 ← index data 3;
    Return (Z.lor (Z.lor (Z.lor (Z.shiftl (Z.land first_byte 0x3F) 24)
                                (Z.shiftl d1 16))
                         (Z.shiftl d2 8))
                  d3, 4)
  else
    if len data <? 8 then Return (0, 0) else
    value ← foldl (fun (acc : result Z) (i : Z) =>
                     value ← acc;
                     di ← index data i;
                     Return (Z.lor value (Z.shiftl di (8 * (7 - i)))))
                  (Return (Z.shiftl (Z.land first_byte 0x3F) 56))
                  [1; 2; 3; 4; 5; 6; 7];
    Return (value, 8).

(** The body of [parse_quic_packet], inside its [try]. *)
Definition parse_quic_packet_body (data : bytes)
  : result (option QUICPacketInfo) :=
  if len data <? 1 then Return None else
  first_byte ← index data 0;
  let is_long_header := negb (Z.land first_byte 0x80 =? 0) in
  if negb is_long_header then Return None else
  let offset := 1 in
  if len data <? offset + 4 then Return None else
  version ← unpack_I (slice data offset (offset + 4));
  let offset := offset + 4 in
  if len data <? offset + 1 then Return None else
  dest_cid_len ← index data offset;
  let offset := offset + 1 in
  if len data <? offset + dest_cid_len then Return None else
  let dest_cid := slice data offset (offset + dest_cid_len) in
  let offset := offset + dest_cid_len in
  if len data <? offset + 1 then Return None else
  src_cid_len ← index data offset;
  let offset := offset + 1 in
  if len data <? offset + src_cid_len then Return None else
  let src_cid := slice data offset (offset + src_cid_len) in
  let offset := offset + src_cid_len in
  let packet_type := Z.shiftr (Z.land first_byte 0x30) 4 in
  if packet_type =? 0 then
    if len data <? offset + 1 then Return None else
    '(token_len, token_len_bytes) ← _decode_varint (drop (Z.to_nat offset) data);
    let offset := offset + token_len_bytes in
    if len data <? offset + token_len then Return None else
    let token := slice data offset (offset + token_len) in
    Return (Some {| version := version; destination_cid := dest_cid;
                    source_cid := src_cid; packet_type := packet_type;
                    token := token |})
  else
    Return (Some {| version := version; destination_cid := dest_cid;
                    source_cid := src_cid; packet_type := packet_type;
                    token := [] |}).

(** [parse_quic_packet]: any exception of the body becomes [None]. *)
Definition parse_quic_packet (data : bytes) : option QUICPacketInfo :=
  match parse_quic_packet_body data with
  | Return r => r
  | Raise _ => None
  end.

(** ** Data model of the listener *)

(** A peer address [(host, port)]. *)
Abbreviation Addr := (string * Z)%type.

Abbreviation TProtocol := string.

(** What [create_quic_multiaddr(host, port, version)] is built from. *)
Abbreviation Multiaddr := (string * Z * string)%type.

(** aioquic's [QuicConfiguration]: only [supported_versions] is read. *)
Record QuicConfiguration := {
  supported_versions : list Z
}.

(** aioquic's [QuicConnection], the QUIC engine. The engine is opaque:
    the model keeps what it was constructed from. *)
Record QuicConnection := {
  configuration : QuicConfiguration;
  original_destination_connection_id : bytes
}.

(** The established wrapper [QUICConnection] built at promotion. *)
Record QUICConnection := {
  _quic : QuicConnection;
  _remote_addr : Addr;
  is_initiator : bool;
  _maddr : Multiaddr
}.

(** Calls made to the collaborators, in the order they are made. *)
Inductive Call :=
  | SendTo (datagram : bytes) (addr : Addr)
  | ReceiveDatagram (q : QuicConnection) (data : bytes) (addr : Addr)
  | ConnProcessEvents (c : QUICConnection)
  | ConnTransmit (c : QUICConnection)
  | ConnClose (c : QUICConnection)
  | StartConnectionTasks (c : QUICConnection)
  | VerifyPeerIdentity (c : QUICConnection)
  | StartHandler (c : QUICConnection)
  | HandleStreamData (c : QUICConnection)
  | HandleStreamReset (c : QUICConnection)
  | StartPacketLoop
  | SocketClose.

Record Stats := {
  connections_accepted : Z;
  connections_rejected : Z;
  version_negotiations : Z;
  bytes_received : Z;
  packets_processed : Z;
  invalid_packets : Z
}.

(** The fields of [QUICListener]. [_security_manager] and [_nursery]
    record whether the object is set; [_socket] holds the bound endpoint;
    [calls] is the log of the calls made to the collaborators. *)
Record QUICListener := {
  _quic_configs : list (TProtocol * QuicConfiguration);
  _security_manager : bool;
  _socket : option Addr;
  _bound_addresses : list Multiaddr;
  _connections : gmap bytes QUICConnection;
  _pending_connections : gmap bytes QuicConnection;
  _addr_to_cid : gmap Addr bytes;
  _cid_to_addr : gmap bytes Addr;
  _supported_versions : gset Z;
  _closed : bool;
  _listening : bool;
  _nursery : bool;
  _stats : Stats;
  calls : list Call
}.

(** *** Field updates *)

Definition set_socket (v : option Addr) (l : QUICListener) : QUICListener :=
  {| _quic_configs := _quic_configs l; _security_manager := _security_manager l;
     _socket := v; _bound_addresses := _bound_addresses l;
     _connections := _connections l;
     _pending_connections := _pending_connections l;
     _addr_to_cid := _addr_to_cid l; _cid_to_addr := _cid_to_addr l;
     _supported_versions := _supported_versions l; _closed := _closed l;
     _listening := _listening l; _nursery := _nursery l; _stats := _stats l;
     calls := calls l |}.

Definition set_bound_addresses (v : list Multiaddr) (l : QUICListener)
  : QUICListener :=
  {| _quic_configs := _quic_configs l; _security_manager := _security_manager l;
     _socket := _socket l; _bound_addresses := v;
     _connections := _connections l;
     _pending_connections := _pending_connections l;
     _addr_to_cid := _addr_to_cid l; _cid_to_addr := _cid_to_addr l;
     _supported_versions := _supported_versions l; _closed := _closed l;
     _listening := _listening l; _nursery := _nursery l; _stats := _stats l;
     calls := calls l |}.

Definition set_connections (v : gmap bytes QUICConnection) (l : QUICListener)
  : QUICListener :=
  {| _quic_configs := _quic_configs l; _security_manager := _security_manager l;
     _socket := _socket l; _bound_addresses := _bound_addresses l;
     _connections := v;
     _pending_connections := _pending_connections l;
     _addr_to_cid := _addr_to_cid l; _cid_to_addr := _cid_to_addr l;
     _supported_versions := _supported_versions l; _closed := _closed l;
     _listening := _listening l; _nursery := _nursery l; _stats := _stats l;
     calls := calls l |}.

Definition set_pending_connections (v : gmap bytes QuicConnection)
  (l : QUICListener) : QUICListener :=
  {| _quic_configs := _quic_configs l; _security_manager := _security_manager l;
     _socket := _socket l; _bound_addresses := _bound_addresses l;
     _connections := _connections l;
     _pending_connections := v;
     _addr_to_cid := _addr_to_cid l; _cid_to_addr := _cid_to_addr l;
     _supported_versions := _supported_versions l; _closed := _closed l;
     _listening := _listening l; _nursery := _nursery l; _stats := _stats l;
     calls := calls l |}.

Definition set_addr_to_cid (v : gmap Addr bytes) (l : QUICListener)
  : QUICListener :=
  {| _quic_configs := _quic_configs l; _security_manager := _security_manager l;
     _socket := _socket l; _bound_addresses := _bound_addresses l;
     _connections := _connections l;
     _pending_connections := _pending_connections l;
     _addr_to_cid := v; _cid_to_addr := _cid_to_addr l;
     _supported_versions := _supported_versions l; _closed := _closed l;
     _listening := _listening l; _nursery := _nursery l; _stats := _stats l;
     calls := calls l |}.

Definition set_cid_to_addr (v : gmap bytes Addr) (l : QUICListener)
  : QUICListener :=
  {| _quic_configs := _quic_configs l; _security_manager := _security_manager l;
     _socket := _socket l; _bound_addresses := _bound_addresses l;
     _connections := _connections l;
     _pending_connections := _pending_connections l;
     _addr_to_cid := _addr_to_cid l; _cid_to_addr := v;
     _supported_versions := _supported_versions l; _closed := _closed l;
     _listening := _listening l; _nursery := _nursery l; _stats := _stats l;
     calls := calls l |}.

Definition set_closed (v : bool) (l : QUICListener) : QUICListener :=
  {| _quic_configs := _quic_configs l; _security_manager := _security_manager l;
     _socket := _socket l; _bound_addresses := _bound_addresses l;
     _connections := _connections l;
     _pending_connections := _pending_connections l;
     _addr_to_cid := _addr_to_cid l; _cid_to_addr := _cid_to_addr l;
     _supported_versions := _supported_versions l; _closed := v;
     _listening := _listening l; _nursery := _nursery l; _stats := _stats l;
     calls := calls l |}.

Definition set_listening (v : bool) (l : QUICListener) : QUICListener :=
  {| _quic_configs := _quic_configs l; _security_manager := _security_manager l;
     _socket := _socket l; _bound_addresses := _bound_addresses l;
     _connections := _connections l;
     _pending_connections := _pending_connections l;
     _addr_to_cid := _addr_to_cid l; _cid_to_addr := _cid_to_addr l;
     _supported_versions := _supported_versions l; _closed := _closed l;
     _listening := v; _nursery := _nursery l; _stats := _stats l;
     calls := calls l |}.

Definition set_nursery (v : bool) (l : QUICListener) : QUICListener :=
  {| _quic_configs := _quic_configs l; _security_manager := _security_manager l;
     _socket := _socket l; _bound_addresses := _bound_addresses l;
     _connections := _connections l;
     _pending_connections := _pending_connections l;
     _addr_to_cid := _addr_to_cid l; _cid_to_addr := _cid_to_addr l;
     _supported_versions := _supported_versions l; _closed := _closed l;
     _listening := _listening l; _nursery := v; _stats := _stats l;
     calls := calls l |}.

Definition set_stats (v : Stats) (l : QUICListener) : QUICListener :=
  {| _quic_configs := _quic_configs l; _security_manager := _security_manager l;
     _socket := _socket l; _bound_addresses := _bound_addresses l;
     _connections := _connections l;
     _pending_connections := _pending_connections l;
     _addr_to_cid := _addr_to_cid l; _cid_to_addr := _cid_to_addr l;
     _supported_versions := _supported_versions l; _closed := _closed l;
     _listening := _listening l; _nursery := _nursery l; _stats := v;
     calls := calls l |}.

Definition log_call (c : Call) (l : QUICListener) : QUICListener :=
  {| _quic_configs := _quic_configs l; _security_manager := _security_manager l;
     _socket := _socket l; _bound_addresses := _bound_addresses l;
     _connections := _connections l;
     _pending_connections := _pending_connections l;
     _addr_to_cid := _addr_to_cid l; _cid_to_addr := _cid_to_addr l;
     _supported_versions := _supported_versions l; _closed := _closed l;
     _listening := _listening l; _nursery := _nursery l; _stats := _stats l;
     calls := calls l ++ [c] |}.

(** [self._stats[k] += n], one function per key. *)
Definition add_connections_accepted (n : Z) (s : Stats) : Stats :=
  {| connections_accepted := connections_accepted s + n;
     connections_rejected := connections_rejected s;
     version_negotiations := version_negotiations s;
     bytes_received := bytes_received s;
     packets_processed := packets_processed s;
     invalid_packets := invalid_packets s |}.

Definition add_connections_rejected (n : Z) (s : Stats) : Stats :=
  {| connections_accepted := connections_accepted s;
     connections_rejected := connections_rejected s + n;
     version_negotiations := version_negotiations s;
     bytes_received := bytes_received s;
     packets_processed := packets_processed s;
     invalid_packets := invalid_packets s |}.

Definition add_version_negotiations (n : Z) (s : Stats) : Stats :=
  {| connections_accepted := connections_accepted s;
     connections_rejected := connections_rejected s;
     version_negotiations := version_negotiations s + n;
     bytes_received := bytes_received s;
     packets_processed := packets_processed s;
     invalid_packets := invalid_packets s |}.

Definition add_bytes_received (n : Z) (s : Stats) : Stats :=
  {| connections_accepted := connections_accepted s;
     connections_rejected := connections_rejected s;
     version_negotiations := version_negotiations s;
     bytes_received := bytes_received s + n;
     packets_processed := packets_processed s;
     invalid_packets := invalid_packets s |}.

Definition add_packets_processed (n : Z) (s : Stats) : Stats :=
  {| connections_accepted := connections_accepted s;
     connections_rejected := connections_rejected s;
     version_negotiations := version_negotiations s;
     bytes_received := bytes_received s;
     packets_processed := packets_processed s + n;
     invalid_packets := invalid_packets s |}.

Definition add_invalid_packets (n : Z) (s : Stats) : Stats :=
  {| connections_accepted := connections_accepted s;
     connections_rejected := connections_rejected s;
     version_negotiations := version_negotiations s;
     bytes_received := bytes_received s;
     packets_processed := packets_processed s;
     invalid_packets := invalid_packets s + n |}.

(** ** The listener monad: the listener's fields and exceptions *)

Definition M (A : Type) : Type := QUICListener → result A * QUICListener.

#[global] Instance M_ret : MRet M := fun A a l => (Return a, l).
#[global] Instance M_bind : MBind M := fun A B f m l =>
  match m l with
  | (Return a, l') => f a l'
  | (Raise e, l') => (Raise e, l')
  end.

Definition bind {A B} (m : M A) (k : A → M B) : M B := m ≫= k.

Notation "x <- m ;; k" := (bind m (fun x => k))
  (at level 100, m at next level, k at level 200, right associativity,
   only parsing).

Definition raise {A} (e : exn) : M A := fun l => (Raise e, l).

Definition gets {A} (f : QUICListener → A) : M A := fun l => (Return (f l), l).

Definition modify (f : QUICListener → QUICListener) : M unit :=
  fun l => (Return (), f l).

Definition lift {A} (r : result A) : M A := fun l => (r, l).

(** [try: body except Exception as e: handler]. The mutations made by
    the body before it raised stay. *)
Definition try_except {A} (body : M A) (handler : exn → M A) : M A := fun l =>
  match body l with
  | (Return a, l') => (Return a, l')
  | (Raise e, l') => handler e l'
  end.

(** A call to a collaborator: logged, then it returns or raises as the
    environment decides. *)
Definition call (c : Call) (raises : bool) : M unit := fun l =>
  (if raises then Raise ExternalError else Return (), log_call c l).

(** Python's [pass], and the end of a function that returns nothing. *)
Definition pass : M unit := mret ().

(** A collaborator's pure helper (a constructor, an address helper). *)
Definition external (raises : bool) : M unit :=
  if raises then raise ExternalError else pass.

Fixpoint for_each {A} (xs : list A) (body : A → M unit) : M unit :=
  match xs with
  | [] => pass
  | x :: xs' => body x;; for_each xs' body
  end.

Definition update_stats (f : Stats → Stats) : M unit :=
  modify (fun l => set_stats (f (_stats l)) l).

(** [self._connections.pop(k, None)] and its three siblings. *)
Definition pop_connections (k : bytes) : M (option QUICConnection) := fun l =>
  (Return (_connections l !! k), set_connections (delete k (_connections l)) l).

Definition pop_pending_connections (k : bytes) : M (option QuicConnection) :=
  fun l => (Return (_pending_connections l !! k),
            set_pending_connections (delete k (_pending_connections l)) l).

Definition pop_cid_to_addr (k : bytes) : M (option Addr) := fun l =>
  (Return (_cid_to_addr l !! k), set_cid_to_addr (delete k (_cid_to_addr l)) l).

Definition pop_addr_to_cid (k : Addr) : M (option bytes) := fun l =>
  (Return (_addr_to_cid l !! k), set_addr_to_cid (delete k (_addr_to_cid l)) l).

(** Truth value of a [bytes] object: empty is false. *)
Definition truthy (b : bytes) : bool :=
  match b with [] => false | _ => true end.

(** ** What the environment does

    The QUIC engine, the connection wrapper, the security manager and the
    random source are collaborators. Their answers during one operation
    are given to it as a script. *)

(** The collaborators' answers during one promotion. *)
Record PromoteScript := {
  (** [create_quic_multiaddr] or [QUICConnection(...)] raises *)
  wrapper_raises : bool;
  (** starting the two connection tasks raises *)
  tasks_raise : bool;
  (** [_verify_peer_identity_with_security] raises *)
  verify_raises : bool;
  (** [connection.close()] raises after a failed verification *)
  verify_close_raises : bool;
  (** starting the handler task raises *)
  handler_start_raises : bool;
  (** [connection.close()] raises inside [_remove_connection] *)
  cleanup_close_raises : bool
}.

(** One answer of [next_event()], with the answers of the collaborators
    called while it is handled. *)
Inductive Event :=
  | ConnectionTerminated (close_raises : bool)
  | HandshakeCompleted (s : PromoteScript)
  | StreamDataReceived (handler_raises : bool)
  | StreamReset (handler_raises : bool)
  | OtherEvent.

(** The collaborators' answers while one datagram is processed. *)
Record Reaction := {
  (** [secrets.token_bytes(8)] *)
  new_cid : bytes;
  (** [create_server_config_from_base] or [QuicConnection(...)] raises *)
  engine_setup_raises : bool;
  (** [receive_datagram] raises *)
  receive_raises : bool;
  (** the events [next_event()] yields, in order *)
  events : list Event;
  (** after them [next_event()] raises instead of returning [None] *)
  next_event_raises : bool;
  (** [datagrams_to_send(now)] of a pending engine: the answer it gives
      before the sends, and the answer it gives when asked again after
      them *)
  datagrams_to_send :
    result (list (bytes * Addr)) * result (list (bytes * Addr));
  (** established session: [connection._process_quic_events()] raises *)
  conn_events_raise : bool;
  (** established session: [connection._transmit()] raises *)
  conn_transmit_raises : bool;
  (** [connection.close()] raises while the session is removed after an
      error of an established session *)
  removal_close_raises : bool
}.

(** ** Routing table: removal *)

Definition _remove_connection (close_raises : bool) (dest_cid : bytes)
  : M unit :=
  try_except
    (connection <- pop_connections dest_cid;;
     match connection with
     | Some c => call (ConnClose c) close_raises
     | None => pass
     end;;
     addr <- pop_cid_to_addr dest_cid;;
     match addr with
     | Some a => pop_addr_to_cid a;; pass
     | None => pass
     end)
    (fun _ => pass).

Definition _remove_pending_connection (dest_cid : bytes) : M unit :=
  try_except
    (pop_pending_connections dest_cid;;
     addr <- pop_cid_to_addr dest_cid;;
     match addr with
     | Some a => pop_addr_to_cid a;; pass
     | None => pass
     end)
    (fun _ => pass).

Definition _remove_connection_by_addr (close_raises : bool) (addr : Addr)
  : M unit :=
  dest_cid <- gets (fun l => _addr_to_cid l !! addr);;
  match dest_cid with
  | Some c => if truthy c then _remove_connection close_raises c else pass
  | None => pass
  end.

(** The cleanup of the address mappings that [_remove_connection] and
    [_remove_pending_connection] share: the [_cid_to_addr] entry of the
    connection id is popped, then the [_addr_to_cid] entry of the address
    it held. *)
Definition pop_address_mappings (dest_cid : bytes) : M unit :=
  addr <- pop_cid_to_addr dest_cid;;
  match addr with
  | Some a => pop_addr_to_cid a;; pass
  | None => pass
  end.

(** ** Version negotiation *)

(** [bytearray.append(z)]: [ValueError] outside of [range(256)]. *)
Definition append (packet : bytes) (z : Z) : result bytes :=
  if (0 <=? z) && (z <? 256) then
    match byte_of_Z z with
    | Some b => Return (packet ++ [b])
    | None => Raise ValueError
    end
  else Raise ValueError.

(** [sorted(s)] on a set of integers. *)
Definition sorted (s : gset Z) : list Z := merge_sort Z.le (elements s).

Definition _send_version_negotiation (addr : Addr) (source_cid : bytes)
  : M unit :=
  try_except
    (update_stats (add_version_negotiations 1);;
     let packet := [] in
     packet <- lift (append packet (Z.lor 0x80 0x70));;
     v0 <- lift (pack_I 0);;
     let packet := packet ++ v0 in
     packet <- lift (append packet (len source_cid));;
     let packet := packet ++ source_cid in
     packet <- lift (append packet 0);;
     versions <- gets (fun l => sorted (_supported_versions l));;
     packet <- lift (foldl (fun (acc : result bytes) (version : Z) =>
                             packet ← acc;
                             v ← pack_I version;
                             Return (packet ++ v))
                          (Return packet) versions);;
     sock <- gets _socket;;
     match sock with
     | Some _ => call (SendTo packet addr) false
     | None => pass
     end)
    (fun _ => pass).

(** [_get_supported_versions] *)
Definition _get_supported_versions
  (quic_configs : list (TProtocol * QuicConfiguration)) : gset Z :=
  foldl (fun (versions : gset Z) (pc : TProtocol * QuicConfiguration) =>
           foldl (fun (vs : gset Z) (version : Z) => vs ∪ {[version]})
                 versions (supported_versions pc.2))
        ∅ quic_configs.

(** ** Session supervisor *)

(** The [try] block of [_promote_pending_connection]. *)
Definition promote_steps (s : PromoteScript)
  (quic_conn : QuicConnection) (addr : Addr) (dest_cid : bytes) : M unit :=
  pop_pending_connections dest_cid;;
  let '(host, port) := addr in
  configs <- gets _quic_configs;;
  quic_version <- match configs with
                  | [] => raise StopIteration
                  | (protocol, _) :: _ => mret protocol
                  end;;
  external (wrapper_raises s);;
  let remote_maddr := (host, port, String.append "/" quic_version) in
  let connection := {| _quic := quic_conn; _remote_addr := addr;
                       is_initiator := false; _maddr := remote_maddr |} in
  modify (fun l => set_connections (<[dest_cid := connection]> (_connections l)) l);;
  nursery <- gets _nursery;;
  (if nursery
   then call (StartConnectionTasks connection) (tasks_raise s)
   else pass);;
  security_manager <- gets _security_manager;;
  verified <-
    (if security_manager then
       try_except
         (call (VerifyPeerIdentity connection) (verify_raises s);;
          mret true)
         (fun _ =>
            call (ConnClose connection) (verify_close_raises s);;
            mret false)
     else mret true);;
  if negb verified then pass else
  nursery <- gets _nursery;;
  (if nursery
   then call (StartHandler connection) (handler_start_raises s)
   else pass);;
  update_stats (add_connections_accepted 1).

Definition _promote_pending_connection (s : PromoteScript)
  (quic_conn : QuicConnection) (addr : Addr) (dest_cid : bytes) : M unit :=
  try_except
    (promote_steps s quic_conn addr dest_cid)
    (fun _ =>
       _remove_connection (cleanup_close_raises s) dest_cid;;
       update_stats (add_connections_rejected 1)).

(** [_process_quic_events]: the loop ends when [next_event()] has
    nothing left, or at a [ConnectionTerminated]. *)
Fixpoint _process_quic_events (evs : list Event) (end_raises : bool)
  (quic_conn : QuicConnection) (addr : Addr) (dest_cid : bytes) : M unit :=
  match evs with
  | [] => external end_raises
  | ConnectionTerminated close_raises :: _ =>
      _remove_connection close_raises dest_cid
  | HandshakeCompleted s :: rest =>
      _promote_pending_connection s quic_conn addr dest_cid;;
      _process_quic_events rest end_raises quic_conn addr dest_cid
  | StreamDataReceived handler_raises :: rest =>
      connection <- gets (fun l => _connections l !! dest_cid);;
      match connection with
      | Some c => call (HandleStreamData c) handler_raises
      | None => pass
      end;;
      _process_quic_events rest end_raises quic_conn addr dest_cid
  | StreamReset handler_raises :: rest =>
      connection <- gets (fun l => _connections l !! dest_cid);;
      match connection with
      | Some c => call (HandleStreamReset c) handler_raises
      | None => pass
      end;;
      _process_quic_events rest end_raises quic_conn addr dest_cid
  | OtherEvent :: rest =>
      _process_quic_events rest end_raises quic_conn addr dest_cid
  end.

(** [_transmit_for_connection]: [out] holds the two answers of
    [quic_conn.datagrams_to_send]. Every datagram of the first goes to
    [addr]; a failed send is caught per datagram, anything else by the
    outer handler. The engine is asked again after the sends, and of that
    answer only the length is printed. *)
Definition _transmit_for_connection
  (out : result (list (bytes * Addr)) * result (list (bytes * Addr)))
  (quic_conn : QuicConnection) (addr : Addr) : M unit :=
  try_except
    (datagrams <- lift out.1;;
     match datagrams with
     | [] => pass
     | _ :: _ =>
         for_each datagrams (fun d : bytes * Addr =>
           sock <- gets _socket;;
           match sock with
           | Some _ => call (SendTo d.1 addr) false
           | None => pass
           end);;
         remaining_datagrams <- lift out.2;;
         pass
     end)
    (fun _ => pass).

Definition _handle_pending_connection (r : Reaction)
  (quic_conn : QuicConnection) (data : bytes) (addr : Addr)
  (dest_cid : bytes) : M unit :=
  try_except
    (call (ReceiveDatagram quic_conn data addr) (receive_raises r);;
     _process_quic_events (events r) (next_event_raises r)
       quic_conn addr dest_cid;;
     _transmit_for_connection (datagrams_to_send r) quic_conn addr)
    (fun _ => _remove_pending_connection dest_cid).

Definition _route_to_connection (r : Reaction) (connection : QUICConnection)
  (data : bytes) (addr : Addr) : M unit :=
  try_except
    (call (ReceiveDatagram (_quic connection) data addr) (receive_raises r);;
     call (ConnProcessEvents connection) (conn_events_raise r);;
     call (ConnTransmit connection) (conn_transmit_raises r))
    (fun _ => _remove_connection_by_addr (removal_close_raises r) addr).

(** ** Dispatch of one datagram *)

Section Dispatch.

(** [utils.custom_quic_version_to_wire_format]: the wire version of a
    protocol tag, or an exception for a tag it does not know. *)
Variable custom_quic_version_to_wire_format : TProtocol → result Z.

(** The loop of [_handle_new_connection] that picks the configuration
    whose wire version is the packet's. *)
Fixpoint find_quic_config (items : list (TProtocol * QuicConfiguration))
  (packet_version : Z) : result (option QuicConfiguration) :=
  match items with
  | [] => Return None
  | (protocol, config) :: rest =>
      wire_versions ← custom_quic_version_to_wire_format protocol;
      if wire_versions =? packet_version then Return (Some config)
      else find_quic_config rest packet_version
  end.

Definition _handle_new_connection (r : Reaction) (data : bytes)
  (addr : Addr) (packet_info : QUICPacketInfo) : M unit :=
  try_except
    (items <- gets _quic_configs;;
     quic_config <- lift (find_quic_config items (version packet_info));;
     match quic_config with
     | None =>
         _send_version_negotiation addr (source_cid packet_info)
     | Some quic_config =>
         external (engine_setup_raises r);;
         let destination_cid' := new_cid r in
         let quic_conn :=
           {| configuration := quic_config;
              original_destination_connection_id :=
                destination_cid packet_info |} in
         modify (fun l => set_pending_connections
                   (<[destination_cid' := quic_conn]> (_pending_connections l)) l);;
         modify (fun l => set_addr_to_cid
                   (<[addr := destination_cid']> (_addr_to_cid l)) l);;
         modify (fun l => set_cid_to_addr
                   (<[destination_cid' := addr]> (_cid_to_addr l)) l);;
         call (ReceiveDatagram quic_conn data addr) (receive_raises r);;
         _process_quic_events (events r) (next_event_raises r)
           quic_conn addr destination_cid';;
         _transmit_for_connection (datagrams_to_send r) quic_conn addr
     end)
    (fun _ => update_stats (add_connections_rejected 1)).

Definition _handle_short_header_packet (r : Reaction) (data : bytes)
  (addr : Addr) : M unit :=
  try_except
    (dest_cid <- gets (fun l => _addr_to_cid l !! addr);;
     match dest_cid with
     | Some dest_cid =>
         if truthy dest_cid then
           connection <- gets (fun l => _connections l !! dest_cid);;
           match connection with
           | Some connection => _route_to_connection r connection data addr
           | None =>
               quic_conn <- gets (fun l => _pending_connections l !! dest_cid);;
               match quic_conn with
               | Some quic_conn =>
                   _handle_pending_connection r quic_conn data addr dest_cid
               | None => pass
               end
           end
         else pass
     | None => pass
     end)
    (fun _ => pass).

(** [_process_packet]. The whole dispatch runs under
    [_connection_lock]: one datagram is one atomic step. *)
Definition _process_packet (r : Reaction) (data : bytes) (addr : Addr)
  : M unit :=
  try_except
    (update_stats (add_packets_processed 1);;
     update_stats (add_bytes_received (len data));;
     match parse_quic_packet data with
     | Some packet_info =>
         if version packet_info =? 0 then pass
         else
         supported <- gets _supported_versions;;
         if negb (bool_decide (version packet_info ∈ supported)) then
           _send_version_negotiation addr (source_cid packet_info)
         else
         let dest_cid := destination_cid packet_info in
         connection <- gets (fun l => _connections l !! dest_cid);;
         match connection with
         | Some connection => _route_to_connection r connection data addr
         | None =>
         quic_conn <- gets (fun l => _pending_connections l !! dest_cid);;
         match quic_conn with
         | Some quic_conn =>
             _handle_pending_connection r quic_conn data addr dest_cid
         | None =>
         existing_cid <- gets (fun l => _addr_to_cid l !! addr);;
         match existing_cid with
         | Some existing_cid =>
             quic_conn <- gets (fun l => _pending_connections l !! existing_cid);;
             match quic_conn with
             | Some quic_conn =>
                 _handle_pending_connection r quic_conn data addr existing_cid
             | None =>
             connection <- gets (fun l => _connections l !! existing_cid);;
             match connection with
             | Some connection => _route_to_connection r connection data addr
             | None =>
                 pop_addr_to_cid addr;;
                 if packet_type packet_info =? 0
                 then _handle_new_connection r data addr packet_info
                 else pass
             end
             end
         | None =>
             if packet_type packet_info =? 0
             then _handle_new_connection r data addr packet_info
             else pass
         end
         end
         end
     | None => _handle_short_header_packet r data addr
     end)
    (fun _ => update_stats (add_invalid_packets 1)).

End Dispatch.

(** ** Listener API *)

(** The [try] block of [close()]. [close_raises cid] tells whether
    closing the connection stored under [cid] raises. The keys are
    visited in the order of the finite map; the maps that result do not
    depend on the order. *)
Definition close_steps (close_raises : bytes → bool) : M unit :=
  dest_cids <- gets (fun l => (map_to_list (_connections l)).*1);;
  for_each dest_cids (fun dest_cid =>
    _remove_connection (close_raises dest_cid) dest_cid);;
  dest_cids <- gets (fun l => (map_to_list (_pending_connections l)).*1);;
  for_each dest_cids _remove_pending_connection;;
  sock <- gets _socket;;
  match sock with
  | Some _ => call SocketClose false;; modify (set_socket None)
  | None => pass
  end;;
  modify (set_bound_addresses []).

Definition close (close_raises : bytes → bool) : M unit :=
  closed <- gets _closed;;
  if closed then pass else
  modify (set_closed true);;
  modify (set_listening false);;
  try_except (close_steps close_raises) (fun _ => pass).

(** The collaborators' answers during one [listen]. *)
Record ListenScript := {
  (** [is_quic_multiaddr(maddr)] *)
  is_quic : bool;
  (** [quic_multiaddr_to_endpoint] or [_create_socket] raises *)
  socket_raises : bool;
  (** [getsockname()] of the new socket *)
  bound : Addr;
  (** [multiaddr_to_quic_version(maddr)] *)
  quic_version : string;
  (** deriving the bound multiaddress raises *)
  bound_maddr_raises : bool;
  (** starting the packet loop raises *)
  start_raises : bool;
  (** [connection.close()] raises, per connection, if [close] runs *)
  listen_close_raises : bytes → bool
}.

Definition listen (s : ListenScript) : M bool :=
  listening <- gets _listening;;
  if listening then raise QUICListenError else
  if negb (is_quic s) then raise QUICListenError else
  try_except
    (external (socket_raises s);;
     modify (set_socket (Some (bound s)));;
     modify (set_nursery true);;
     external (bound_maddr_raises s);;
     let bound_maddr := ((bound s).1, (bound s).2, quic_version s) in
     modify (set_bound_addresses [bound_maddr]);;
     modify (set_listening true);;
     call StartPacketLoop (start_raises s);;
     mret true)
    (fun _ => close (listen_close_raises s);; raise QUICListenError).

Definition is_listening (l : QUICListener) : bool :=
  _listening l && negb (_closed l).

(** The dictionary [get_stats] returns. *)
Record StatsView := {
  view_stats : Stats;
  view_is_listening : bool;
  view_active_connections : Z;
  view_pending_connections : Z
}.

Definition get_stats (l : QUICListener) : StatsView :=
  {| view_stats := _stats l;
     view_is_listening := is_listening l;
     view_active_connections := Z.of_nat (size (_connections l));
     view_pending_connections := Z.of_nat (size (_pending_connections l)) |}.

(** [get_addresses]: a copy of [_bound_addresses]. *)
Definition get_addresses (l : QUICListener) : list Multiaddr :=
  _bound_addresses l.

(** [get_addrs]: the same addresses, as a tuple. *)
Definition get_addrs (l : QUICListener) : list Multiaddr := get_addresses l.

(** [__init__] *)
Definition init (quic_configs : list (TProtocol * QuicConfiguration))
  (security_manager : bool) : QUICListener :=
  {| _quic_configs := quic_configs;
     _security_manager := security_manager;
     _socket := None;
     _bound_addresses := [];
     _connections := ∅;
     _pending_connections := ∅;
     _addr_to_cid := ∅;
     _cid_to_addr := ∅;
     _supported_versions := _get_supported_versions quic_configs;
     _closed := false;
     _listening := false;
     _nursery := false;
     _stats := {| connections_accepted := 0; connections_rejected := 0;
                  version_negotiations := 0; bytes_received := 0;
                  packets_processed := 0; invalid_packets := 0 |};
     calls := [] |}.

(** ** Runs of the listener *)

(** One operation on the listener, with the script of its environment. *)
Inductive Op :=
  | OpListen (s : ListenScript)
  | OpClose (close_raises : bytes → bool)
  | OpPacket (r : Reaction) (data : bytes) (addr : Addr).

Section Runs.

Variable custom_quic_version_to_wire_format : TProtocol → result Z.

Definition step (op : Op) (l : QUICListener) : QUICListener :=
  match op with
  | OpListen s => (listen s l).2
  | OpClose close_raises => (close close_raises l).2
  | OpPacket r data addr =>
      (_process_packet custom_quic_version_to_wire_format r data addr l).2
  end.

(** The operations run in order, from left to right. *)
Definition run (ops : list Op) (l : QUICListener) : QUICListener :=
  foldl (fun l op => step op l) l ops.

End Runs.

(** ** Notions used in the statements *)

(** The four bytes [struct.pack("!I", v)] yields. *)
Definition be32 (v : Z) : bytes :=
  match pack_I v with
  | Return bs => bs
  | Raise _ => []
  end.

(** The layout of a version negotiation datagram: the flags byte, version
    0, the length byte and the bytes of the echoed connection id, an empty
    source connection id, then the versions, four bytes each. *)
Definition version_negotiation_datagram (b_len : byte) (source_cid : bytes)
  (versions : list Z) : bytes :=
  [xf0; x00; x00; x00; x00] ++ [b_len] ++ source_cid ++ [x00]
  ++ mjoin (be32 <$> versions).

(** [m] returns normally from every state. *)
Definition quiet (m : M unit) : Prop := ∀ l, (m l).1 = Return ().

(** [m] keeps [P]. *)
Definition preserves (P : QUICListener → Prop) {A} (m : M A) : Prop :=
  ∀ l, P l → P (m l).2.

(** [close()] was called. *)
Definition closed_flag_set (l : QUICListener) : Prop := _closed l = true.

(** The listener after the two per-packet counters were updated. *)
Definition counted (data : bytes) (l : QUICListener) : QUICListener :=
  set_stats (add_bytes_received (len data)
               (add_packets_processed 1 (_stats l))) l.

(** The listener with the entry of [addr] deleted from [_addr_to_cid]. *)
Definition unmapped (addr : Addr) (l : QUICListener) : QUICListener :=
  set_addr_to_cid (delete addr (_addr_to_cid l)) l.

(** The listener after [_handle_new_connection] stored a new session. *)
Definition registered (cid : bytes) (q : QuicConnection) (addr : Addr)
  (l : QUICListener) : QUICListener :=
  set_cid_to_addr (<[cid := addr]> (_cid_to_addr l))
    (set_addr_to_cid (<[addr := cid]> (_addr_to_cid l))
       (set_pending_connections (<[cid := q]> (_pending_connections l)) l)).

(** The wrapper a promotion builds around the engine [q]. *)
Definition wrapper_of (q : QuicConnection) (addr : Addr) (protocol : TProtocol)
  : QUICConnection :=
  {| _quic := q; _remote_addr := addr; is_initiator := false;
     _maddr := (addr.1, addr.2, String.append "/" protocol) |}.

(** [_addr_to_cid] and [_cid_to_addr] are mutual inverses. *)
Definition routing_consistent (l : QUICListener) : Prop :=
  ∀ addr cid,
    _addr_to_cid l !! addr = Some cid ↔ _cid_to_addr l !! cid = Some addr.

(** A session is stored under [cid]. *)
Definition live (l : QUICListener) (cid : bytes) : Prop :=
  is_Some (_pending_connections l !! cid) ∨ is_Some (_connections l !! cid).

(** No address entry is dangling. *)
Definition sessions_behind (l : QUICListener) : Prop :=
  ∀ addr cid, _addr_to_cid l !! addr = Some cid → live l cid.

Definition routing_inv (l : QUICListener) : Prop :=
  routing_consistent l ∧ sessions_behind l.

(** An environment in which [connection.close()] never raises while a
    session is removed, and the random connection id of a new session is
    not in use. *)
Definition benign_event (ev : Event) : bool :=
  match ev with
  | ConnectionTerminated close_raises => negb close_raises
  | HandshakeCompleted s => negb (cleanup_close_raises s)
  | _ => true
  end.

Definition benign_reaction (r : Reaction) (l : QUICListener) : Prop :=
  forallb benign_event (events r) = true ∧
  removal_close_raises r = false ∧
  _cid_to_addr l !! new_cid r = None.

Definition benign_op (op : Op) (l : QUICListener) : Prop :=
  match op with
  | OpListen s => ∀ cid, listen_close_raises s cid = false
  | OpClose close_raises => ∀ cid, close_raises cid = false
  | OpPacket r _ _ => benign_reaction r l
  end.

Fixpoint benign_run (wire : TProtocol → result Z) (ops : list Op)
  (l : QUICListener) : Prop :=
  match ops with
  | [] => True
  | op :: ops' => benign_op op l ∧ benign_run wire ops' (step wire op l)
  end.

(** The number a byte string spells, most significant byte first. *)
Definition be_nat (bs : bytes) : Z :=
  foldl (fun (acc : Z) (b : byte) => acc * 256 + byte_val b) 0 bs.

(** A long header up to the source connection id: the flags byte, the
    version, and the two connection ids, each after its length byte. *)
Definition long_header (flags : byte) (v : Z) (b_dlen : byte) (dcid : bytes)
  (b_slen : byte) (scid : bytes) : bytes :=
  [flags] ++ be32 v ++ [b_dlen] ++ dcid ++ [b_slen] ++ scid.

(** The datagrams of a run, in order, and their total length. *)
Definition received (ops : list Op) : list bytes :=
  omap (fun op => match op with
                  | OpPacket _ data _ => Some data
                  | _ => None
                  end) ops.

Definition total_length (datagrams : list bytes) : Z :=
  foldr (fun (d : bytes) (n : Z) => len d + n) 0 datagrams.

(** The four counters the session handlers never touch. *)
Definition traffic (l : QUICListener) : Z * Z * Z * Z :=
  (packets_processed (_stats l), bytes_received (_stats l),
   invalid_packets (_stats l), version_negotiations (_stats l)).

(** The fields of the listener outside of the routing table and the
    configuration. *)
Definition fixture (l : QUICListener)
  : option Addr * list Multiaddr * bool * bool * bool * Stats :=
  (_socket l, _bound_addresses l, _closed l, _listening l, _nursery l, _stats l).

(** Nothing was added to the routing table between [l0] and [l]: the
    address maps and the pending sessions of [l] are among those of [l0],
    and every established session of [l] was a session of [l0]. *)
Definition no_new_state (l0 l : QUICListener) : Prop :=
  _addr_to_cid l ⊆ _addr_to_cid l0 ∧
  _cid_to_addr l ⊆ _cid_to_addr l0 ∧
  _pending_connections l ⊆ _pending_connections l0 ∧
  dom (_connections l) ⊆ dom (_connections l0) ∪ dom (_pending_connections l0).

(** Between [l0] and [l] only the entries of the session [cid] changed:
    the entries of every other connection id are the same, and so is the
    [_addr_to_cid] entry of every address but the one [_cid_to_addr] held
    for [cid]. *)
Definition only_session_changed (cid : bytes) (l0 l : QUICListener) : Prop :=
  (∀ cid', cid' ≠ cid →
     _connections l !! cid' = _connections l0 !! cid' ∧
     _pending_connections l !! cid' = _pending_connections l0 !! cid' ∧
     _cid_to_addr l !! cid' = _cid_to_addr l0 !! cid') ∧
  (∀ addr', _cid_to_addr l0 !! cid ≠ Some addr' →
     _addr_to_cid l !! addr' = _addr_to_cid l0 !! addr') ∧
  (_cid_to_addr l !! cid = None ∨ _cid_to_addr l !! cid = _cid_to_addr l0 !! cid).

(** The events [_process_quic_events] forwards to an established
    connection or ignores: all but [ConnectionTerminated] and
    [HandshakeCompleted]. *)
Definition forwarded_event (ev : Event) : bool :=
  match ev with
  | StreamDataReceived _ | StreamReset _ | OtherEvent => true
  | ConnectionTerminated _ | HandshakeCompleted _ => false
  end.

(** The connection ids the random source handed out during a run, and
    the addresses its datagrams came from. *)
Definition issued (ops : list Op) : list bytes :=
  omap (fun op => match op with
                  | OpPacket r _ _ => Some (new_cid r)
                  | _ => None
                  end) ops.

Definition senders (ops : list Op) : list Addr :=
  omap (fun op => match op with
                  | OpPacket _ _ addr => Some addr
                  | _ => None
                  end) ops.

(** Every connection id of the routing table is among [cids] and every
    address among [addrs]. *)
Definition keys_from (cids : list bytes) (addrs : list Addr)
  (l : QUICListener) : Prop :=
  (∀ cid c, _connections l !! cid = Some c → cid ∈ cids) ∧
  (∀ cid q, _pending_connections l !! cid = Some q → cid ∈ cids) ∧
  (∀ cid a, _cid_to_addr l !! cid = Some a → cid ∈ cids ∧ a ∈ addrs) ∧
  (∀ a cid, _addr_to_cid l !! a = Some cid → cid ∈ cids ∧ a ∈ addrs).

(** The wire version of the protocol tag of [pc] is known and is not
    [v]. *)
Definition other_version (wire : TProtocol → result Z) (v : Z)
  (pc : TProtocol * QuicConfiguration) : Prop :=
  ∃ v', wire pc.1 = Return v' ∧ v' ≠ v.

(** ** A concrete listener and its traffic

    The closed statements at the end are evaluated on these. *)

(** The wire versions of the two protocol tags of the transport, QUIC v1
    and draft-29. The table of [custom_quic_version_to_wire_format] is
    outside of the listener; the examples run with this one. *)
Definition wire_format (protocol : TProtocol) : result Z :=
  if String.eqb protocol "quic-v1" then Return 1
  else if String.eqb protocol "quic" then Return 0xff00001d
  else Raise ValueError.

Definition listen_ok : ListenScript :=
  {| is_quic := true; socket_raises := false;
     bound := ("0.0.0.0"%string, 4001); quic_version := "/quic-v1";
     bound_maddr_raises := false; start_raises := false;
     listen_close_raises := fun _ => false |}.

Definition config_v1 : QuicConfiguration := {| supported_versions := [1] |}.

(** A listener for QUIC v1 with a security manager, listening. *)
Definition server : QUICListener :=
  (listen listen_ok (init [("quic-v1"%string, config_v1)] true)).2.

(** The same, with a configuration that also supports draft-29. *)
Definition server_two_versions : QUICListener :=
  (listen listen_ok
     (init [("quic-v1"%string, {| supported_versions := [1; 0xff00001d] |})]
        true)).2.

Definition client : Addr := ("192.0.2.7"%string, 50000).

Definition client_dcid : bytes := [xc1; xc2; xc3; xc4; xc5; xc6; xc7; xc8].

Definition client_scid : bytes := [x5c; x1d].

(** Initial packets (type bits 00) with an empty token: of version 1, of
    draft-29 and of the unknown version 0xdeadbeef. *)
Definition initial_datagram : bytes :=
  [xc0; x00; x00; x00; x01; x08] ++ client_dcid ++ [x02] ++ client_scid
  ++ [x00].

Definition draft29_initial : bytes :=
  [xc0; xff; x00; x00; x1d; x08] ++ client_dcid ++ [x02] ++ client_scid
  ++ [x00].

Definition unsupported_initial : bytes :=
  [xc0; xde; xad; xbe; xef; x08] ++ client_dcid ++ [x02] ++ client_scid
  ++ [x00].

(** What the parser makes of [initial_datagram]. *)
Definition initial_info : QUICPacketInfo :=
  {| version := 1; destination_cid := client_dcid; source_cid := client_scid;
     packet_type := 0; token := [] |}.

(** The connection ids the random source hands out. *)
Definition server_cid : bytes := [x01; x02; x03; x04; x05; x06; x07; x08].

Definition second_server_cid : bytes :=
  [x11; x12; x13; x14; x15; x16; x17; x18].

(** The engine created for [initial_datagram]. *)
Definition engine : QuicConnection :=
  {| configuration := config_v1;
     original_destination_connection_id := client_dcid |}.

Definition quiet_promotion : PromoteScript :=
  {| wrapper_raises := false; tasks_raise := false; verify_raises := false;
     verify_close_raises := false; handler_start_raises := false;
     cleanup_close_raises := false |}.

(** The peer-identity verification raises; nothing else does. *)
Definition failed_verification : PromoteScript :=
  {| wrapper_raises := false; tasks_raise := false; verify_raises := true;
     verify_close_raises := false; handler_start_raises := false;
     cleanup_close_raises := false |}.

(** Nothing raises; the engine yields [evs]. *)
Definition reaction (cid : bytes) (evs : list Event) : Reaction :=
  {| new_cid := cid; engine_setup_raises := false; receive_raises := false;
     events := evs; next_event_raises := false;
     datagrams_to_send := (Return [], Return []); conn_events_raise := false;
     conn_transmit_raises := false; removal_close_raises := false |}.

(** [receive_datagram] raises. *)
Definition failing_reaction (cid : bytes) (close_raises : bool) : Reaction :=
  {| new_cid := cid; engine_setup_raises := false; receive_raises := true;
     events := []; next_event_raises := false;
     datagrams_to_send := (Return [], Return []); conn_events_raise := false;
     conn_transmit_raises := false; removal_close_raises := close_raises |}.

(** Three datagrams from one client: the handshake completes; then the
    engine fails on a datagram and closing the connection fails too;
    then the client starts over. *)
Definition dangling_trace : list Op :=
  [ OpPacket (reaction server_cid [HandshakeCompleted quiet_promotion])
      initial_datagram client;
    OpPacket (failing_reaction second_server_cid true) initial_datagram client;
    OpPacket (reaction second_server_cid []) initial_datagram client ].

(** Two clients handshake, one session ends, the listener closes. *)
Definition quiet_trace : list Op :=
  [ OpPacket (reaction server_cid [HandshakeCompleted quiet_promotion])
      initial_datagram client;
    OpPacket (reaction second_server_cid [ConnectionTerminated false])
      initial_datagram ("192.0.2.8"%string, 50001);
    OpClose (fun _ => false) ].

(** The listener after the handshake of [client] completed, and after
    its first Initial only. *)
Definition established_server : QUICListener :=
  (_process_packet wire_format
     (reaction server_cid [HandshakeCompleted quiet_promotion])
     initial_datagram client server).2.

Definition pending_server : QUICListener :=
  (_process_packet wire_format (reaction server_cid []) initial_datagram
     client server).2.

(** A short-header datagram, and a Handshake packet (type bits 10) for
    the session [server_cid]. *)
Definition short_datagram : bytes := [x40; x01; x02; x03].

Definition handshake_datagram : bytes :=
  [xe0; x00; x00; x00; x01; x08] ++ server_cid ++ [x02] ++ client_scid.

(** [_create_socket] fails. *)
Definition listen_without_socket : ListenScript :=
  {| is_quic := true; socket_raises := true;
     bound := ("0.0.0.0"%string, 4001); quic_version := "/quic-v1";
     bound_maddr_raises := false; start_raises := false;
     listen_close_raises := fun _ => false |}.

(** * Parser facts *)

Lemma byte_val_range (b : byte) : 0 ≤ byte_val b < 256.
Proof.
  unfold byte_val. pose proof (Byte.to_N_bounded b). lia.
Qed.

Lemma result_bind_Return {A B} (a : A) (f : A → result B) :
  (Return a ≫= f) = f a.
Proof. reflexivity. Qed.

Lemma len_nonneg {A} (l : list A) : 0 ≤ len l.
Proof. unfold len. lia. Qed.

Lemma index_in_range (data : bytes) (i : Z) :
  0 ≤ i < len data → ∃ b, data !! Z.to_nat i = Some b ∧ index data i = Return (byte_val b).
Proof.
  intros Hi. unfold index, len in *.
  destruct (data !! Z.to_nat i) as [b|] eqn:E.
  - eauto.
  - apply lookup_ge_None in E. lia.
Qed.

Lemma len_slice (data : bytes) (a b : Z) :
  0 ≤ a → a ≤ b → b ≤ len data → len (slice data a b) = b - a.
Proof.
  intros Ha Hab Hb. unfold slice, len in *.
  rewrite length_take, length_drop. lia.
Qed.

Lemma len_drop (data : bytes) (a : Z) :
  0 ≤ a ≤ len data → len (drop (Z.to_nat a) data) = len data - a.
Proof. intros Ha. unfold len in *. rewrite length_drop. lia. Qed.

Lemma unpack_I_slice (data : bytes) (a : Z) :
  0 ≤ a → a + 4 ≤ len data → ∃ v, unpack_I (slice data a (a + 4)) = Return v.
Proof.
  intros Ha Hb.
  pose proof (len_slice data a (a + 4) Ha ltac:(lia) Hb) as Hl.
  unfold len in Hl.
  destruct (slice data a (a + 4)) as [|b0 [|b1 [|b2 [|b3 [|b4 t]]]]];
    simpl in Hl; try lia.
  eexists. reflexivity.
Qed.

Lemma fold_varint_returns (data : bytes) (idxs : list Z) (v0 : Z) :
  Forall (fun i => 0 ≤ i < len data) idxs →
  0 ≤ v0 →
  ∃ v, foldl (fun (acc : result Z) (i : Z) =>
                value ← acc;
                di ← index data i;
                Return (Z.lor value (Z.shiftl di (8 * (7 - i)))))
             (Return v0) idxs = Return v ∧ 0 ≤ v.
Proof.
  intros His. revert v0. induction His as [|i idxs Hi His IH]; intros v0 Hv0.
  - simpl. eauto.
  - simpl. destruct (index_in_range data i Hi) as (b & _ & ->).
    rewrite !result_bind_Return.
    apply IH. pose proof (byte_val_range b).
    apply Z.lor_nonneg. split; [lia|]. apply Z.shiftl_nonneg. lia.
Qed.

Lemma _decode_varint_returns (data : bytes) :
  ∃ v w, _decode_varint data = Return (v, w) ∧ 0 ≤ v ∧ 0 ≤ w ≤ len data.
Proof.
  unfold _decode_varint.
  destruct (len data <? 1) eqn:H1.
  { exists 0, 0. pose proof (len_nonneg data). auto with lia. }
  apply Z.ltb_ge in H1.
  destruct (index_in_range data 0 ltac:(lia)) as (b0 & _ & ->).
  rewrite result_bind_Return. cbv zeta.
  pose proof (byte_val_range b0) as Hb0.
  assert (H3f : 0 ≤ Z.land (byte_val b0) 63) by (apply Z.land_nonneg; lia).
  destruct (_ =? 0).
  { eexists _, _. split; [reflexivity|]. lia. }
  destruct (_ =? 1).
  { destruct (len data <? 2) eqn:H2.
    { exists 0, 0. auto with lia. }
    apply Z.ltb_ge in H2.
    destruct (index_in_range data 1 ltac:(lia)) as (b1 & _ & ->).
    rewrite result_bind_Return. eexists _, _. split; [reflexivity|].
    pose proof (byte_val_range b1). split; [|lia].
    apply Z.lor_nonneg. split; [apply Z.shiftl_nonneg|]; lia. }
  destruct (_ =? 2).
  { destruct (len data <? 4) eqn:H4.
    { exists 0, 0. auto with lia. }
    apply Z.ltb_ge in H4.
    destruct (index_in_range data 1 ltac:(lia)) as (b1 & _ & ->).
    destruct (index_in_range data 2 ltac:(lia)) as (b2 & _ & ->).
    destruct (index_in_range data 3 ltac:(lia)) as (b3 & _ & ->).
    rewrite !result_bind_Return. eexists _, _. split; [reflexivity|].
    pose proof (byte_val_range b1). pose proof (byte_val_range b2).
    pose proof (byte_val_range b3). split; [|lia].
    repeat (apply Z.lor_nonneg; split); try apply Z.shiftl_nonneg; lia. }
  destruct (len data <? 8) eqn:H8.
  { exists 0, 0. auto with lia. }
  apply Z.ltb_ge in H8.
  destruct (fold_varint_returns data [1; 2; 3; 4; 5; 6; 7]
              (Z.shiftl (Z.land (byte_val b0) 63) 56)) as (v & -> & Hv).
  { repeat constructor; lia. }
  { apply Z.shiftl_nonneg. lia. }
  rewrite result_bind_Return. eexists _, _. split; [reflexivity|]. lia.
Qed.

Lemma parse_quic_packet_layout (data : bytes) :
  (∃ r, parse_quic_packet_body data = Return r) ∧
  match parse_quic_packet data with
  | None => True
  | Some h =>
      let ld := len (destination_cid h) in
      let ls := len (source_cid h) in
      let lt := len (token h) in
      index data 5 = Return ld ∧
      destination_cid h = slice data 6 (6 + ld) ∧
      index data (6 + ld) = Return ls ∧
      source_cid h = slice data (7 + ld) (7 + ld + ls) ∧
      (∃ w, 0 ≤ w ∧
         (if packet_type h =? 0
          then _decode_varint (drop (Z.to_nat (7 + ld + ls)) data)
               = Return (lt, w)
          else w = 0 ∧ token h = []) ∧
         token h = slice data (7 + ld + ls + w) (7 + ld + ls + w + lt) ∧
         7 + ld + ls + w + lt ≤ len data)
  end.
Proof.
  unfold parse_quic_packet, parse_quic_packet_body. cbv zeta.
  destruct (len data <? 1) eqn:H1; [split; eauto|]. apply Z.ltb_ge in H1.
  destruct (index_in_range data 0 ltac:(lia)) as (b0 & _ & ->).
  rewrite result_bind_Return.
  destruct (negb (negb _)); [split; eauto|].
  destruct (len data <? 1 + 4) eqn:H5; [split; eauto|]. apply Z.ltb_ge in H5.
  destruct (unpack_I_slice data 1 ltac:(lia) ltac:(lia)) as (ver & ->).
  rewrite result_bind_Return.
  destruct (len data <? 1 + 4 + 1) eqn:H6; [split; eauto|]. apply Z.ltb_ge in H6.
  destruct (index_in_range data (1 + 4) ltac:(lia)) as (bd & _ & Hbd).
  rewrite Hbd, result_bind_Return.
  pose proof (byte_val_range bd) as Hrd.
  destruct (len data <? 1 + 4 + 1 + byte_val bd) eqn:H7; [split; eauto|].
  apply Z.ltb_ge in H7.
  destruct (len data <? 1 + 4 + 1 + byte_val bd + 1) eqn:H8; [split; eauto|].
  apply Z.ltb_ge in H8.
  destruct (index_in_range data (1 + 4 + 1 + byte_val bd) ltac:(lia))
    as (bs & _ & Hbs).
  rewrite Hbs, result_bind_Return.
  pose proof (byte_val_range bs) as Hrs.
  destruct (len data <? 1 + 4 + 1 + byte_val bd + 1 + byte_val bs) eqn:H9;
    [split; eauto|].
  apply Z.ltb_ge in H9.
  assert (Hld : len (slice data (1 + 4 + 1) (1 + 4 + 1 + byte_val bd))
                = byte_val bd) by (rewrite len_slice; lia).
  assert (Hls : len (slice data (1 + 4 + 1 + byte_val bd + 1)
                       (1 + 4 + 1 + byte_val bd + 1 + byte_val bs))
                = byte_val bs) by (rewrite len_slice; lia).
  destruct (Z.shiftr (Z.land (byte_val b0) 48) 4 =? 0) eqn:Hty.
  - destruct (len data <? 1 + 4 + 1 + byte_val bd + 1 + byte_val bs + 1) eqn:H10;
      [split; eauto|].
    apply Z.ltb_ge in H10.
    destruct (_decode_varint_returns
                (drop (Z.to_nat (1 + 4 + 1 + byte_val bd + 1 + byte_val bs)) data))
      as (tl & w & Hdv & Htl & Hw).
    rewrite len_drop in Hw by lia.
    rewrite Hdv, result_bind_Return.
    destruct (len data <? _) eqn:H11; [split; eauto|]. apply Z.ltb_ge in H11.
    split; [eauto|]. cbn [destination_cid source_cid token packet_type].
    assert (Hlt : len (slice data (1 + 4 + 1 + byte_val bd + 1 + byte_val bs + w)
                         (1 + 4 + 1 + byte_val bd + 1 + byte_val bs + w + tl))
                  = tl) by (rewrite len_slice; lia).
    rewrite Hld, Hls, Hlt, Hty.
    replace (6 + byte_val bd) with (1 + 4 + 1 + byte_val bd) by lia.
    replace (7 + byte_val bd) with (1 + 4 + 1 + byte_val bd + 1) by lia.
    repeat split; try assumption; try reflexivity.
    exists w. rewrite Hdv. repeat split; try reflexivity; lia.
  - split; [eauto|]. cbn [destination_cid source_cid token packet_type].
    rewrite Hld, Hls, Hty.
    replace (6 + byte_val bd) with (1 + 4 + 1 + byte_val bd) by lia.
    replace (7 + byte_val bd) with (1 + 4 + 1 + byte_val bd + 1) by lia.
    repeat split; try assumption; try reflexivity.
    exists 0. change (len []) with 0. unfold slice.
    rewrite !Z.add_0_r, Z.sub_diag. simpl.
    repeat split; try reflexivity; lia.
Qed.

(** * Bytes, packing and sorting *)

Lemma byte_of_Z_in_range (z : Z) :
  0 ≤ z < 256 → ∃ b, byte_of_Z z = Some b ∧ byte_val b = z.
Proof.
  intros Hz. unfold byte_of_Z, byte_val.
  destruct (Byte.of_N (Z.to_N z)) as [b|] eqn:E.
  - exists b. split; [reflexivity|].
    apply Byte.to_of_N in E. lia.
  - apply Byte.of_N_None_iff in E. lia.
Qed.

Lemma byte_val_inj (a b : byte) : byte_val a = byte_val b → a = b.
Proof.
  unfold byte_val. intros H.
  assert (Hn : Byte.to_N a = Byte.to_N b) by lia.
  pose proof (Byte.of_to_N a) as Ha. rewrite Hn, Byte.of_to_N in Ha.
  congruence.
Qed.

Lemma land_255_range (x : Z) : 0 ≤ Z.land x 255 < 256.
Proof.
  change 255 with (Z.ones 8). rewrite Z.land_ones by lia.
  apply Z.mod_pos_bound. lia.
Qed.

Lemma testbit_above (v n : Z) : 0 ≤ v < 2 ^ 32 → 32 ≤ n → Z.testbit v n = false.
Proof.
  intros Hv Hn. destruct (decide (v = 0)) as [->|Hne].
  - apply Z.bits_0.
  - apply Z.bits_above_log2; [lia|].
    assert (Z.log2 v < 32) by (apply Z.log2_lt_pow2; lia). lia.
Qed.

Lemma testbit_lane (v k n : Z) :
  0 ≤ k → 0 ≤ n →
  Z.testbit (Z.shiftl (Z.land (Z.shiftr v k) 255) k) n
  = Z.testbit v n && (k <=? n) && (n <? k + 8).
Proof.
  intros Hk Hn. rewrite Z.shiftl_spec by lia.
  destruct (Z.leb_spec k n) as [Hkn|Hkn].
  - change 255 with (Z.ones 8).
    rewrite Z.land_spec, Z.shiftr_spec, Z.testbit_ones_nonneg by lia.
    replace (n - k + k) with n by lia.
    rewrite andb_true_r. f_equal.
    destruct (Z.ltb_spec (n - k) 8), (Z.ltb_spec n (k + 8)); auto; lia.
  - rewrite Z.testbit_neg_r by lia. rewrite andb_false_r. reflexivity.
Qed.

Lemma be32_join (v : Z) :
  0 ≤ v < 2 ^ 32 →
  Z.lor (Z.shiftl (Z.land (Z.shiftr v 24) 255) 24)
    (Z.lor (Z.shiftl (Z.land (Z.shiftr v 16) 255) 16)
       (Z.lor (Z.shiftl (Z.land (Z.shiftr v 8) 255) 8) (Z.land v 255))) = v.
Proof.
  intros Hv. apply Z.bits_inj'. intros n Hn.
  rewrite !Z.lor_spec, !testbit_lane by lia.
  change 255 with (Z.ones 8).
  rewrite Z.land_spec, Z.testbit_ones_nonneg by lia.
  destruct (Z.lt_ge_cases n 32) as [H32|H32].
  - destruct (Z.testbit v n); simpl; [|reflexivity].
    destruct (Z.leb_spec 24 n), (Z.leb_spec 16 n), (Z.leb_spec 8 n),
      (Z.ltb_spec n (24 + 8)), (Z.ltb_spec n (16 + 8)),
      (Z.ltb_spec n (8 + 8)), (Z.ltb_spec n 8); simpl; try reflexivity; lia.
  - rewrite (testbit_above v n) by lia. reflexivity.
Qed.

Lemma pack_I_in_range (v : Z) :
  0 ≤ v < 2 ^ 32 →
  pack_I v = Return (be32 v) ∧ length (be32 v) = 4%nat ∧
  unpack_I (be32 v) = Return v.
Proof.
  intros Hv. unfold be32, pack_I.
  replace ((0 <=? v) && (v <? 2 ^ 32)) with true
    by (symmetry; apply andb_true_iff; split; [apply Z.leb_le|apply Z.ltb_lt]; lia).
  destruct (byte_of_Z_in_range _ (land_255_range (Z.shiftr v 24))) as (b0 & -> & H0).
  destruct (byte_of_Z_in_range _ (land_255_range (Z.shiftr v 16))) as (b1 & -> & H1).
  destruct (byte_of_Z_in_range _ (land_255_range (Z.shiftr v 8))) as (b2 & -> & H2).
  destruct (byte_of_Z_in_range _ (land_255_range v)) as (b3 & -> & H3).
  repeat split. unfold unpack_I. rewrite H0, H1, H2, H3.
  f_equal. apply be32_join, Hv.
Qed.

Lemma fold_pack_versions (versions : list Z) (packet : bytes) :
  Forall (fun v => 0 ≤ v < 2 ^ 32) versions →
  foldl (fun (acc : result bytes) (version : Z) =>
           packet ← acc;
           v ← pack_I version;
           Return (packet ++ v))
        (Return packet) versions
  = Return (packet ++ mjoin (be32 <$> versions)).
Proof.
  intros Hvs. revert packet.
  induction Hvs as [|v vs Hv Hvs IH]; intros packet; simpl.
  - rewrite app_nil_r. reflexivity.
  - destruct (pack_I_in_range v Hv) as (-> & _ & _).
    rewrite !result_bind_Return, IH, <- app_assoc. reflexivity.
Qed.

Lemma sorted_elem_of (s : gset Z) (v : Z) : v ∈ sorted s ↔ v ∈ s.
Proof.
  unfold sorted. rewrite merge_sort_Permutation. apply elem_of_elements.
Qed.

Lemma sorted_ascending (s : gset Z) : StronglySorted Z.lt (sorted s).
Proof.
  unfold sorted.
  assert (Hs : StronglySorted Z.le (merge_sort Z.le (elements s))).
  { apply StronglySorted_merge_sort; apply _. }
  assert (Hn : NoDup (merge_sort Z.le (elements s))).
  { rewrite merge_sort_Permutation. apply NoDup_elements. }
  induction Hs as [|x xs Hxs IH Hall]; [constructor|].
  apply NoDup_cons in Hn as [Hx Hn].
  constructor; [apply IH, Hn|].
  apply Forall_forall. intros y Hy.
  rewrite Forall_forall in Hall. specialize (Hall y Hy).
  assert (x ≠ y) by (intros ->; contradiction). lia.
Qed.

(** * Version negotiation and dispatch *)

Lemma append_len (packet scid : bytes) :
  len scid < 256 →
  ∃ b, byte_val b = len scid ∧ append packet (len scid) = Return (packet ++ [b]).
Proof.
  intros Hl. pose proof (len_nonneg scid) as H0. unfold append.
  replace ((0 <=? len scid) && (len scid <? 256)) with true
    by (symmetry; apply andb_true_iff; split; [apply Z.leb_le|apply Z.ltb_lt]; lia).
  destruct (byte_of_Z_in_range (len scid) ltac:(lia)) as (b & -> & Hb).
  eauto.
Qed.

Lemma _send_version_negotiation_run (addr : Addr) (scid : bytes)
  (sock : Addr) (l : QUICListener) :
  len scid < 256 →
  _socket l = Some sock →
  (∀ v, v ∈ _supported_versions l → 0 ≤ v < 2 ^ 32) →
  ∃ b_len, byte_val b_len = len scid ∧
    _send_version_negotiation addr scid l
    = (Return (),
       log_call (SendTo (version_negotiation_datagram b_len scid
                           (sorted (_supported_versions l))) addr)
         (set_stats (add_version_negotiations 1 (_stats l)) l)).
Proof.
  intros Hlen Hsock Hvs.
  destruct (append_len ([xf0] ++ [x00; x00; x00; x00]) scid Hlen) as (b & Hb & Happ).
  exists b. split; [exact Hb|].
  unfold _send_version_negotiation, try_except, bind, mbind, M_bind,
    update_stats, modify, lift, gets.
  change (append [] (Z.lor 128 112)) with (Return (A:=bytes) [xf0]).
  change (pack_I 0) with (Return (A:=bytes) [x00; x00; x00; x00]).
  cbv beta iota. rewrite Happ. cbv beta iota.
  change (append ((([xf0] ++ [x00; x00; x00; x00]) ++ [b]) ++ scid) 0)
    with (Return (((([xf0] ++ [x00; x00; x00; x00]) ++ [b]) ++ scid) ++ [x00])).
  cbv beta iota. cbn [_supported_versions _socket set_stats].
  rewrite fold_pack_versions.
  2:{ apply Forall_forall. intros v Hv. apply Hvs, sorted_elem_of, Hv. }
  rewrite Hsock. unfold call.
  match goal with
  | |- context [SendTo ?d addr] =>
      replace d with (version_negotiation_datagram b scid
                        (sorted (_supported_versions l)))
  end; [reflexivity|].
  unfold version_negotiation_datagram. rewrite <- !app_assoc. reflexivity.
Qed.

(** * Errors stay inside the handlers *)

Lemma quiet_pass : quiet pass.
Proof. intros l. reflexivity. Qed.

Lemma quiet_update_stats f : quiet (update_stats f).
Proof. intros l. reflexivity. Qed.

Lemma quiet_seq (m k : M unit) : quiet m → quiet k → quiet (m;; k).
Proof.
  intros Hm Hk l. specialize (Hm l). unfold mbind, M_bind.
  destruct (m l) as [[[]|e] l']; simpl in *; [apply Hk|discriminate].
Qed.

Lemma quiet_try_except (body : M unit) (handler : exn → M unit) :
  (∀ e, quiet (handler e)) → quiet (try_except body handler).
Proof.
  intros Hh l. unfold try_except.
  destruct (body l) as [[[]|e] l']; simpl; [reflexivity|apply Hh].
Qed.

Lemma try_except_returns {A} (body : M A) (handler : exn → M A) l a :
  (body l).1 = Return a → try_except body handler l = body l.
Proof.
  unfold try_except. destruct (body l) as [[a'|e] l']; simpl; congruence.
Qed.

Lemma quiet__remove_connection b cid : quiet (_remove_connection b cid).
Proof. apply quiet_try_except. intros _. apply quiet_pass. Qed.

Lemma quiet__remove_pending_connection cid : quiet (_remove_pending_connection cid).
Proof. apply quiet_try_except. intros _. apply quiet_pass. Qed.

Lemma quiet__remove_connection_by_addr b a : quiet (_remove_connection_by_addr b a).
Proof.
  intros l. unfold _remove_connection_by_addr, bind, mbind, M_bind, gets.
  cbv beta iota. destruct (_addr_to_cid l !! a) as [c|]; [|reflexivity].
  destruct (truthy c); [apply quiet__remove_connection|reflexivity].
Qed.

Lemma quiet__send_version_negotiation a scid : quiet (_send_version_negotiation a scid).
Proof. apply quiet_try_except. intros _. apply quiet_pass. Qed.

Lemma quiet__promote_pending_connection s q a cid :
  quiet (_promote_pending_connection s q a cid).
Proof.
  apply quiet_try_except. intros _.
  apply quiet_seq; [apply quiet__remove_connection|apply quiet_update_stats].
Qed.

Lemma quiet__route_to_connection r c data a : quiet (_route_to_connection r c data a).
Proof. apply quiet_try_except. intros _. apply quiet__remove_connection_by_addr. Qed.

Lemma quiet__handle_pending_connection r q data a cid :
  quiet (_handle_pending_connection r q data a cid).
Proof. apply quiet_try_except. intros _. apply quiet__remove_pending_connection. Qed.

Lemma quiet__handle_new_connection wire r data a info :
  quiet (_handle_new_connection wire r data a info).
Proof. apply quiet_try_except. intros _. apply quiet_update_stats. Qed.

Lemma quiet__handle_short_header_packet r data a :
  quiet (_handle_short_header_packet r data a).
Proof. apply quiet_try_except. intros _. apply quiet_pass. Qed.

(** No error leaves [_process_packet]: whatever the collaborators raise,
    it returns normally. *)
Lemma quiet__process_packet wire r data a : quiet (_process_packet wire r data a).
Proof. apply quiet_try_except. intros _. apply quiet_update_stats. Qed.

Section DispatchFacts.
Variable wire : TProtocol → result Z.

(** What [_process_packet] does with a parsed long-header packet of a
    supported, non-zero version: the ladder of the source, with the
    outer handler out of the way since no branch lets an error out. *)
Lemma _process_packet_routed r data addr info l :
  parse_quic_packet data = Some info →
  version info ≠ 0 →
  version info ∈ _supported_versions l →
  _process_packet wire r data addr l =
  let dcid := destination_cid info in
  let l0 := counted data l in
  match _connections l !! dcid with
  | Some connection => _route_to_connection r connection data addr l0
  | None =>
  match _pending_connections l !! dcid with
  | Some quic_conn => _handle_pending_connection r quic_conn data addr dcid l0
  | None =>
  match _addr_to_cid l !! addr with
  | Some existing_cid =>
      match _pending_connections l !! existing_cid with
      | Some quic_conn =>
          _handle_pending_connection r quic_conn data addr existing_cid l0
      | None =>
      match _connections l !! existing_cid with
      | Some connection => _route_to_connection r connection data addr l0
      | None =>
          if packet_type info =? 0
          then _handle_new_connection wire r data addr info (unmapped addr l0)
          else (Return (), unmapped addr l0)
      end
      end
  | None =>
      if packet_type info =? 0
      then _handle_new_connection wire r data addr info l0
      else (Return (), l0)
  end
  end
  end.
Proof.
  intros Hparse Hv Hsup. cbv zeta.
  unfold _process_packet.
  match goal with
  | |- try_except ?body ?h l = ?rhs =>
      assert (Hb : body l = rhs);
        [|rewrite <- Hb; apply (try_except_returns _ _ _ ()); rewrite Hb]
  end.
  - unfold bind, mbind, M_bind, update_stats, modify, gets. cbv beta iota.
    rewrite Hparse. cbv beta iota.
    apply Z.eqb_neq in Hv. rewrite Hv.
    change (set_stats _ (set_stats _ l)) with (counted data l).
    change (_supported_versions (counted data l)) with (_supported_versions l).
    rewrite (bool_decide_eq_true_2 _ Hsup). cbn [negb].
    change (_connections (counted data l)) with (_connections l).
    destruct (_connections l !! destination_cid info); [reflexivity|].
    change (_pending_connections (counted data l)) with (_pending_connections l).
    destruct (_pending_connections l !! destination_cid info); [reflexivity|].
    change (_addr_to_cid (counted data l)) with (_addr_to_cid l).
    destruct (_addr_to_cid l !! addr) as [e|];
      [|destruct (packet_type info =? 0); reflexivity].
    change (_pending_connections (counted data l)) with (_pending_connections l).
    destruct (_pending_connections l !! e); [reflexivity|].
    change (_connections (counted data l)) with (_connections l).
    destruct (_connections l !! e); [reflexivity|].
    unfold pop_addr_to_cid. cbv beta iota.
    destruct (packet_type info =? 0); reflexivity.
  - destruct (_connections l !! destination_cid info);
      [apply quiet__route_to_connection|].
    destruct (_pending_connections l !! destination_cid info);
      [apply quiet__handle_pending_connection|].
    destruct (_addr_to_cid l !! addr) as [e|].
    + destruct (_pending_connections l !! e);
        [apply quiet__handle_pending_connection|].
      destruct (_connections l !! e); [apply quiet__route_to_connection|].
      destruct (packet_type info =? 0);
        [apply quiet__handle_new_connection|reflexivity].
    + destruct (packet_type info =? 0);
        [apply quiet__handle_new_connection|reflexivity].
Qed.
End DispatchFacts.

Section GateFacts.
Variable wire : TProtocol → result Z.

Lemma _process_packet_short r data addr l :
  parse_quic_packet data = None →
  _process_packet wire r data addr l
  = _handle_short_header_packet r data addr (counted data l).
Proof.
  intros Hparse. unfold _process_packet.
  match goal with
  | |- try_except ?body ?h l = ?rhs =>
      assert (Hb : body l = rhs);
        [|rewrite <- Hb; apply (try_except_returns _ _ _ ()); rewrite Hb;
          apply quiet__handle_short_header_packet]
  end.
  unfold bind, mbind, M_bind, update_stats, modify, gets. cbv beta iota.
  rewrite Hparse. reflexivity.
Qed.

Lemma _process_packet_version_zero r data addr info l :
  parse_quic_packet data = Some info →
  version info = 0 →
  _process_packet wire r data addr l = (Return (), counted data l).
Proof.
  intros Hparse Hv. unfold _process_packet, try_except, bind, mbind, M_bind,
    update_stats, modify, gets. cbv beta iota.
  rewrite Hparse. cbv beta iota. rewrite Hv. reflexivity.
Qed.

Lemma _process_packet_unsupported r data addr info l :
  parse_quic_packet data = Some info →
  version info ≠ 0 →
  version info ∉ _supported_versions l →
  _process_packet wire r data addr l
  = _send_version_negotiation addr (source_cid info) (counted data l).
Proof.
  intros Hparse Hv Hsup. unfold _process_packet.
  match goal with
  | |- try_except ?body ?h l = ?rhs =>
      assert (Hb : body l = rhs);
        [|rewrite <- Hb; apply (try_except_returns _ _ _ ()); rewrite Hb;
          apply quiet__send_version_negotiation]
  end.
  unfold bind, mbind, M_bind, update_stats, modify, gets. cbv beta iota.
  rewrite Hparse. cbv beta iota.
  apply Z.eqb_neq in Hv. rewrite Hv.
  change (set_stats _ (set_stats _ l)) with (counted data l).
  change (_supported_versions (counted data l)) with (_supported_versions l).
  rewrite (bool_decide_eq_false_2 _ Hsup). reflexivity.
Qed.

(** The three ways [_handle_new_connection] ends: no configuration for
    the version (a version negotiation is sent), an error before the
    session is stored (a rejection is counted), or the session is
    stored and the datagram is fed to its engine. *)
Lemma _handle_new_connection_cases r data addr info l :
  _handle_new_connection wire r data addr info l =
  match find_quic_config wire (_quic_configs l) (version info) with
  | Raise _ =>
      (Return (), set_stats (add_connections_rejected 1 (_stats l)) l)
  | Return None => _send_version_negotiation addr (source_cid info) l
  | Return (Some quic_config) =>
      if engine_setup_raises r
      then (Return (), set_stats (add_connections_rejected 1 (_stats l)) l)
      else
        let quic_conn :=
          {| configuration := quic_config;
             original_destination_connection_id := destination_cid info |} in
        try_except
          (call (ReceiveDatagram quic_conn data addr) (receive_raises r);;
           _process_quic_events (events r) (next_event_raises r)
             quic_conn addr (new_cid r);;
           _transmit_for_connection (datagrams_to_send r) quic_conn addr)
          (fun _ => update_stats (add_connections_rejected 1))
          (registered (new_cid r) quic_conn addr l)
  end.
Proof.
  unfold _handle_new_connection, try_except at 1, bind, lift, gets.
  unfold mbind at 1 2, M_bind. cbv beta iota.
  destruct (find_quic_config wire (_quic_configs l) (version info))
    as [[cfg|]|e]; cbv beta iota.
  - unfold external. destruct (engine_setup_raises r).
    + reflexivity.
    + unfold modify, mret, M_ret, mbind at 1 2 3 4, M_bind. cbv beta iota.
      reflexivity.
  - pose proof (quiet__send_version_negotiation addr (source_cid info) l) as Hq.
    destruct (_send_version_negotiation addr (source_cid info) l) as [[[]|e] l'];
      [reflexivity|discriminate].
  - reflexivity.
Qed.
End GateFacts.

(** * Monad facts *)

Section Preserves.
Context (P : QUICListener → Prop).

Lemma preserves_mret {A} (a : A) : preserves P (mret a : M A).
Proof. intros l Hl. exact Hl. Qed.

Lemma preserves_pass : preserves P pass.
Proof. intros l Hl. exact Hl. Qed.

Lemma preserves_raise {A} e : preserves P (raise e : M A).
Proof. intros l Hl. exact Hl. Qed.

Lemma preserves_gets {A} (f : QUICListener → A) : preserves P (gets f).
Proof. intros l Hl. exact Hl. Qed.

Lemma preserves_lift {A} (r : result A) : preserves P (lift r).
Proof. intros l Hl. exact Hl. Qed.

Lemma preserves_external b : preserves P (external b).
Proof. intros l Hl. destruct b; exact Hl. Qed.

Lemma preserves_modify f : (∀ l, P l → P (f l)) → preserves P (modify f).
Proof. intros Hf l Hl. apply Hf, Hl. Qed.

Lemma preserves_mbind {A B} (m : M A) (k : A → M B) :
  preserves P m → (∀ a, preserves P (k a)) → preserves P (m ≫= k).
Proof.
  intros Hm Hk l Hl. specialize (Hm l Hl).
  unfold mbind, M_bind. destruct (m l) as [[a|e] l']; simpl in *.
  - apply Hk, Hm.
  - exact Hm.
Qed.

Lemma preserves_bind {A B} (m : M A) (k : A → M B) :
  preserves P m → (∀ a, preserves P (k a)) → preserves P (bind m k).
Proof. apply preserves_mbind. Qed.

Lemma preserves_try_except {A} (body : M A) (handler : exn → M A) :
  preserves P body → (∀ e, preserves P (handler e)) →
  preserves P (try_except body handler).
Proof.
  intros Hm Hk l Hl. specialize (Hm l Hl).
  unfold try_except. destruct (body l) as [[a|e] l']; simpl in *.
  - exact Hm.
  - apply Hk, Hm.
Qed.

Lemma preserves_for_each {A} (xs : list A) (body : A → M unit) :
  (∀ x, preserves P (body x)) → preserves P (for_each xs body).
Proof.
  intros Hb. induction xs as [|x xs IH]; simpl.
  - apply preserves_pass.
  - apply preserves_mbind; auto.
Qed.
End Preserves.

Ltac preserves_step :=
  cbv beta;
  lazymatch goal with
  | |- ∀ _, _ => intro
  | |- preserves _ (bind _ _) => apply preserves_bind
  | |- preserves _ (mbind _ _) => apply preserves_mbind
  | |- preserves _ (try_except _ _) => apply preserves_try_except
  | |- preserves _ (for_each _ _) => apply preserves_for_each
  | |- preserves _ pass => apply preserves_pass
  | |- preserves _ (mret _) => apply preserves_mret
  | |- preserves _ (raise _) => apply preserves_raise
  | |- preserves _ (gets _) => apply preserves_gets
  | |- preserves _ (lift _) => apply preserves_lift
  | |- preserves _ (external _) => apply preserves_external
  | |- preserves _ (modify _) =>
      apply preserves_modify; intros ? ?; first [assumption | reflexivity]
  | |- preserves _ (match ?x with _ => _ end) => destruct x
  end.

Lemma closed_call c b : preserves closed_flag_set (call c b).
Proof. intros l Hl. exact Hl. Qed.

Lemma closed_update_stats f : preserves closed_flag_set (update_stats f).
Proof. intros l Hl. exact Hl. Qed.

Lemma closed_pop_connections k : preserves closed_flag_set (pop_connections k).
Proof. intros l Hl. exact Hl. Qed.

Lemma closed_pop_pending_connections k :
  preserves closed_flag_set (pop_pending_connections k).
Proof. intros l Hl. exact Hl. Qed.

Lemma closed_pop_cid_to_addr k : preserves closed_flag_set (pop_cid_to_addr k).
Proof. intros l Hl. exact Hl. Qed.

Lemma closed_pop_addr_to_cid k : preserves closed_flag_set (pop_addr_to_cid k).
Proof. intros l Hl. exact Hl. Qed.

Ltac closed_tac :=
  repeat first
    [ apply closed_call | apply closed_update_stats | apply closed_pop_connections
    | apply closed_pop_pending_connections | apply closed_pop_cid_to_addr
    | apply closed_pop_addr_to_cid | preserves_step ].

Lemma closed__remove_connection b cid :
  preserves closed_flag_set (_remove_connection b cid).
Proof. unfold _remove_connection. closed_tac. Qed.

Lemma closed__remove_pending_connection cid :
  preserves closed_flag_set (_remove_pending_connection cid).
Proof. unfold _remove_pending_connection. closed_tac. Qed.

Lemma closed__remove_connection_by_addr b a :
  preserves closed_flag_set (_remove_connection_by_addr b a).
Proof.
  unfold _remove_connection_by_addr. closed_tac; apply closed__remove_connection.
Qed.

Lemma closed__send_version_negotiation a scid :
  preserves closed_flag_set (_send_version_negotiation a scid).
Proof. unfold _send_version_negotiation. closed_tac. Qed.

Lemma closed__promote_pending_connection s q a cid :
  preserves closed_flag_set (_promote_pending_connection s q a cid).
Proof.
  unfold _promote_pending_connection, promote_steps. closed_tac;
    apply closed__remove_connection.
Qed.

Lemma closed__process_quic_events evs b q a cid :
  preserves closed_flag_set (_process_quic_events evs b q a cid).
Proof.
  induction evs as [|ev evs IH]; simpl.
  - closed_tac.
  - destruct ev; closed_tac;
      first [ apply closed__remove_connection
            | apply closed__promote_pending_connection
            | apply IH ].
Qed.

Lemma closed__transmit_for_connection out q a :
  preserves closed_flag_set (_transmit_for_connection out q a).
Proof. unfold _transmit_for_connection. closed_tac. Qed.

Lemma closed__handle_pending_connection r q data a cid :
  preserves closed_flag_set (_handle_pending_connection r q data a cid).
Proof.
  unfold _handle_pending_connection. closed_tac;
    first [ apply closed__process_quic_events
          | apply closed__transmit_for_connection
          | apply closed__remove_pending_connection ].
Qed.

Lemma closed__route_to_connection r c data a :
  preserves closed_flag_set (_route_to_connection r c data a).
Proof.
  unfold _route_to_connection. closed_tac.
  apply closed__remove_connection_by_addr.
Qed.

Section ClosedDispatch.
Variable wire : TProtocol → result Z.

Lemma closed__handle_new_connection r data a info :
  preserves closed_flag_set (_handle_new_connection wire r data a info).
Proof.
  unfold _handle_new_connection. closed_tac;
    first [ apply closed__send_version_negotiation
          | apply closed__process_quic_events
          | apply closed__transmit_for_connection ].
Qed.

Lemma closed__handle_short_header_packet r data a :
  preserves closed_flag_set (_handle_short_header_packet r data a).
Proof.
  unfold _handle_short_header_packet. closed_tac;
    first [ apply closed__route_to_connection
          | apply closed__handle_pending_connection ].
Qed.

Lemma closed__process_packet r data a :
  preserves closed_flag_set (_process_packet wire r data a).
Proof.
  unfold _process_packet. closed_tac;
    first [ apply closed__route_to_connection
          | apply closed__handle_pending_connection
          | apply closed__handle_new_connection
          | apply closed__handle_short_header_packet
          | apply closed__send_version_negotiation ].
Qed.
End ClosedDispatch.

Lemma closed_close_steps cr : preserves closed_flag_set (close_steps cr).
Proof.
  unfold close_steps. closed_tac;
    first [ apply closed__remove_connection
          | apply closed__remove_pending_connection ].
Qed.

Lemma closed_close cr : preserves closed_flag_set (close cr).
Proof. unfold close. closed_tac. apply closed_close_steps. Qed.

Lemma closed_listen s : preserves closed_flag_set (listen s).
Proof. unfold listen. closed_tac. apply closed_close. Qed.

Lemma close_sets_closed cr l : closed_flag_set (close cr l).2.
Proof.
  unfold close, bind, mbind, M_bind, gets, modify. cbv beta iota.
  destruct (_closed l) eqn:Hc; [exact Hc|].
  assert (Hp : preserves closed_flag_set
                 (try_except (close_steps cr) (fun _ => pass))).
  { closed_tac. apply closed_close_steps. }
  apply Hp. reflexivity.
Qed.

Lemma closed_step wire op : ∀ l, closed_flag_set l → closed_flag_set (step wire op l).
Proof.
  intros l Hl. destruct op; simpl.
  - apply closed_listen, Hl.
  - apply closed_close, Hl.
  - apply closed__process_packet, Hl.
Qed.

Lemma closed_run wire ops : ∀ l, closed_flag_set l → closed_flag_set (run wire ops l).
Proof.
  unfold run. induction ops as [|op ops IH]; intros l Hl; simpl.
  - exact Hl.
  - apply IH, closed_step, Hl.
Qed.

Lemma closed_not_listening l : closed_flag_set l → is_listening l = false.
Proof.
  unfold closed_flag_set, is_listening. intros ->. apply andb_false_r.
Qed.

(** * Promotion *)

Ltac map_facts :=
  repeat first
    [ rewrite lookup_delete_eq | rewrite lookup_insert_eq
    | rewrite lookup_delete_ne by congruence
    | rewrite lookup_insert_ne by congruence
    | rewrite delete_insert_eq ].

(** The effect of a promotion on the routing table. Entries of other
    connection ids and of other addresses are untouched, and the pending
    entry of [cid] is removed. When the steps of the promotion return, the
    wrapper is stored under [cid], both address mappings are as before,
    and [connections_accepted] grows by one unless the identity
    verification failed; when they raise, [cid] is in neither map and
    [connections_rejected] grows by one. *)
Lemma promotion_effect s q addr cid l :
  let l' := (_promote_pending_connection s q addr cid l).2 in
  (∀ cid', cid' ≠ cid →
     _pending_connections l' !! cid' = _pending_connections l !! cid' ∧
     _connections l' !! cid' = _connections l !! cid' ∧
     _cid_to_addr l' !! cid' = _cid_to_addr l !! cid') ∧
  (∀ addr', _cid_to_addr l !! cid ≠ Some addr' →
     _addr_to_cid l' !! addr' = _addr_to_cid l !! addr') ∧
  _pending_connections l' = delete cid (_pending_connections l) ∧
  match (promote_steps s q addr cid l).1 with
  | Return _ =>
      (∃ protocol config rest,
         _quic_configs l = (protocol, config) :: rest ∧
         _connections l'
         = <[cid := wrapper_of q addr protocol]> (_connections l)) ∧
      _addr_to_cid l' = _addr_to_cid l ∧
      _cid_to_addr l' = _cid_to_addr l ∧
      connections_rejected (_stats l') = connections_rejected (_stats l) ∧
      connections_accepted (_stats l')
      = connections_accepted (_stats l)
        + (if _security_manager l && verify_raises s then 0 else 1)
  | Raise _ =>
      _connections l' !! cid = None ∧
      connections_rejected (_stats l') = connections_rejected (_stats l) + 1 ∧
      connections_accepted (_stats l') = connections_accepted (_stats l)
  end.
Proof.
  destruct l as [configs sm sock bound conns pend a2c c2a sup cl li nur st cs].
  destruct s as [wr tr vr vcr hr ccr]. destruct addr as [host port].
  unfold _promote_pending_connection, promote_steps, _remove_connection,
    try_except, bind, mbind, M_bind, mret, M_ret, update_stats, modify, gets,
    external, raise, call, pass, pop_pending_connections, pop_connections,
    pop_cid_to_addr, pop_addr_to_cid.
  cbn.
  repeat (cbn; rewrite ?lookup_insert_eq;
          match goal with
          | |- context [match ?x with _ => _ end] =>
              lazymatch x with
              | _ !! _ => destruct x eqn:?
              | _ => is_var x; destruct x
              end
          | |- context [if ?b then _ else _] => is_var b; destruct b
          end).
  all: cbn.
  all: repeat split; intros.
  all: map_facts; try reflexivity; try lia.
  all: try (eexists _, _, _; split; reflexivity).
  all: try (unfold set_connections; cbn; map_facts; reflexivity).
Qed.

(** * Routing consistency *)

Lemma routing_inv_unmap (l l' : QUICListener) (cid : bytes) :
  routing_inv l →
  _cid_to_addr l' = delete cid (_cid_to_addr l) →
  _addr_to_cid l' = match _cid_to_addr l !! cid with
                    | Some a => delete a (_addr_to_cid l)
                    | None => _addr_to_cid l
                    end →
  (∀ c, c ≠ cid → live l c → live l' c) →
  routing_inv l'.
Proof.
  intros [Hc Hs] Hc2a Ha2c Hlive.
  assert (Hkey : ∀ a c, _addr_to_cid l' !! a = Some c ↔
                        (c ≠ cid ∧ _addr_to_cid l !! a = Some c)).
  { intros a c. rewrite Ha2c. destruct (_cid_to_addr l !! cid) as [a0|] eqn:E.
    - apply Hc in E. destruct (decide (a = a0)) as [->|Hne].
      + rewrite lookup_delete_eq. split; [discriminate|].
        intros [Hn H]. congruence.
      + rewrite lookup_delete_ne by congruence. split; [|tauto].
        intros H. split; [|exact H]. intros ->.
        apply Hc in H. apply Hc in E. congruence.
    - split; [|tauto]. intros H. split; [|exact H]. intros ->.
      apply Hc in H. congruence. }
  split.
  - intros a c. rewrite Hkey, Hc2a. destruct (decide (c = cid)) as [->|Hne].
    + rewrite lookup_delete_eq. split; [tauto|discriminate].
    + rewrite lookup_delete_ne by congruence.
      split; [intros [_ H]; apply Hc, H|intros H; split; [exact Hne|apply Hc, H]].
  - intros a c H. apply Hkey in H as [Hne H]. apply Hlive; [exact Hne|].
    eapply Hs, H.
Qed.

Lemma routing_inv_live (l l' : QUICListener) :
  routing_inv l →
  _cid_to_addr l' = _cid_to_addr l →
  _addr_to_cid l' = _addr_to_cid l →
  (∀ a c, _addr_to_cid l !! a = Some c → live l c → live l' c) →
  routing_inv l'.
Proof.
  intros [Hc Hs] Hc2a Ha2c Hlive. split.
  - intros a c. rewrite Ha2c, Hc2a. apply Hc.
  - intros a c H. rewrite Ha2c in H. eapply Hlive; [exact H|]. eapply Hs, H.
Qed.

Lemma routing_inv_register (l l' : QUICListener) (addr : Addr) (cid : bytes) :
  routing_inv l →
  _addr_to_cid l !! addr = None →
  _cid_to_addr l !! cid = None →
  _addr_to_cid l' = <[addr := cid]> (_addr_to_cid l) →
  _cid_to_addr l' = <[cid := addr]> (_cid_to_addr l) →
  (∀ c, live l c → live l' c) →
  live l' cid →
  routing_inv l'.
Proof.
  intros [Hc Hs] Hna Hnc Ha2c Hc2a Hlive Hcid. split.
  - intros a c. rewrite Ha2c, Hc2a.
    destruct (decide (a = addr)) as [->|Hna'];
      destruct (decide (c = cid)) as [->|Hnc'].
    + rewrite !lookup_insert_eq. tauto.
    + rewrite lookup_insert_eq, lookup_insert_ne by congruence.
      split; [congruence|]. intros H. apply Hc in H. congruence.
    + rewrite lookup_insert_eq, lookup_insert_ne by congruence.
      split; [|congruence]. intros H. apply Hc in H. congruence.
    + rewrite !lookup_insert_ne by congruence. apply Hc.
  - intros a c. rewrite Ha2c. destruct (decide (a = addr)) as [->|Hna'].
    + rewrite lookup_insert_eq. intros [= <-]. exact Hcid.
    + rewrite lookup_insert_ne by congruence. intros H. eapply Hlive, Hs, H.
Qed.

Ltac run_script :=
  repeat (cbn; rewrite ?lookup_insert_eq;
          match goal with
          | |- context [match ?x with _ => _ end] =>
              lazymatch x with
              | _ !! _ =>
                  lazymatch goal with
                  | H : x = _ |- _ => rewrite H
                  | _ => destruct x eqn:?
                  end
              | _ => is_var x; destruct x
              end
          | |- context [if ?b then _ else _] => is_var b; destruct b
          end).

Ltac unify_lookups :=
  repeat match goal with
    | H1 : ?a = Some ?x, H2 : ?b = Some ?y |- _ =>
        assert (Some x = Some y) as [= ->] by (rewrite <- H1; exact H2);
        clear H2
    | H1 : ?a = Some ?x, H2 : ?b = None |- _ =>
        exfalso;
        assert (Some x = None) as [=] by (rewrite <- H1; exact H2)
    end.

Lemma _remove_connection_effect cid l :
  let l' := (_remove_connection false cid l).2 in
  _connections l' = delete cid (_connections l) ∧
  _pending_connections l' = _pending_connections l ∧
  _cid_to_addr l' = delete cid (_cid_to_addr l) ∧
  _addr_to_cid l' = match _cid_to_addr l !! cid with
                    | Some a => delete a (_addr_to_cid l)
                    | None => _addr_to_cid l
                    end.
Proof.
  destruct l as [configs sm sock bound conns pend a2c c2a sup cl li nur st cs].
  unfold _remove_connection, try_except, bind, mbind, M_bind, mret, M_ret,
    call, pass, pop_connections, pop_cid_to_addr, pop_addr_to_cid.
  run_script; cbn; auto.
Qed.

Lemma _remove_pending_connection_effect cid l :
  let l' := (_remove_pending_connection cid l).2 in
  _connections l' = _connections l ∧
  _pending_connections l' = delete cid (_pending_connections l) ∧
  _cid_to_addr l' = delete cid (_cid_to_addr l) ∧
  _addr_to_cid l' = match _cid_to_addr l !! cid with
                    | Some a => delete a (_addr_to_cid l)
                    | None => _addr_to_cid l
                    end.
Proof.
  destruct l as [configs sm sock bound conns pend a2c c2a sup cl li nur st cs].
  unfold _remove_pending_connection, try_except, bind, mbind, M_bind, mret,
    M_ret, pass, pop_pending_connections, pop_cid_to_addr, pop_addr_to_cid.
  run_script; cbn; auto.
Qed.

Lemma live_other (l l' : QUICListener) (c cid : bytes) :
  c ≠ cid →
  (_connections l' = _connections l ∨ _connections l' = delete cid (_connections l)) →
  (_pending_connections l' = _pending_connections l
   ∨ _pending_connections l' = delete cid (_pending_connections l)) →
  live l c → live l' c.
Proof.
  intros Hne [Hc|Hc] [Hp|Hp]; unfold live; rewrite Hc, Hp;
    rewrite ?lookup_delete_ne by congruence; auto.
Qed.

Lemma routing_inv__remove_connection cid :
  preserves routing_inv (_remove_connection false cid).
Proof.
  intros l HI. destruct (_remove_connection_effect cid l) as (Hc & Hp & Hca & Hac).
  eapply routing_inv_unmap; eauto.
  intros c Hne. apply (live_other _ _ _ cid Hne); auto.
Qed.

Lemma routing_inv__remove_pending_connection cid :
  preserves routing_inv (_remove_pending_connection cid).
Proof.
  intros l HI.
  destruct (_remove_pending_connection_effect cid l) as (Hc & Hp & Hca & Hac).
  eapply routing_inv_unmap; eauto.
  intros c Hne. apply (live_other _ _ _ cid Hne); auto.
Qed.

Lemma promotion_maps s q addr cid l :
  cleanup_close_raises s = false →
  let l' := (_promote_pending_connection s q addr cid l).2 in
  _pending_connections l' = delete cid (_pending_connections l) ∧
  ((_addr_to_cid l' = _addr_to_cid l ∧ _cid_to_addr l' = _cid_to_addr l ∧
    ∃ w, _connections l' = <[cid := w]> (_connections l))
   ∨
   (_cid_to_addr l' = delete cid (_cid_to_addr l) ∧
    _addr_to_cid l' = match _cid_to_addr l !! cid with
                      | Some a => delete a (_addr_to_cid l)
                      | None => _addr_to_cid l
                      end ∧
    _connections l' = delete cid (_connections l))).
Proof.
  destruct l as [configs sm sock bound conns pend a2c c2a sup cl li nur st cs].
  destruct s as [wr tr vr vcr hr ccr]. destruct addr as [host port].
  cbn. intros ->.
  unfold _promote_pending_connection, promote_steps, _remove_connection,
    try_except, bind, mbind, M_bind, mret, M_ret, update_stats, modify, gets,
    external, raise, call, pass, pop_pending_connections, pop_connections,
    pop_cid_to_addr, pop_addr_to_cid.
  run_script; cbn.
  all: unify_lookups.
  all: split; [reflexivity|].
  all: first [ left; repeat split; eexists; reflexivity
             | right; repeat split; rewrite ?delete_insert_eq; reflexivity ].
Qed.

Lemma routing_inv_call c b : preserves routing_inv (call c b).
Proof. intros l Hl. exact Hl. Qed.

Lemma routing_inv_update_stats f : preserves routing_inv (update_stats f).
Proof. intros l Hl. exact Hl. Qed.

Ltac routing_tac :=
  repeat first [ apply routing_inv_call | apply routing_inv_update_stats
               | preserves_step ].

Lemma routing_inv__promote_pending_connection s q addr cid :
  cleanup_close_raises s = false →
  preserves routing_inv (_promote_pending_connection s q addr cid).
Proof.
  intros Hs l HI.
  destruct (promotion_maps s q addr cid l Hs) as (Hp & [(Ha & Hc & w & Hw)|(Hc & Ha & Hw)]).
  - eapply routing_inv_live; eauto.
    intros a c _ [Hl|Hl]; unfold live; rewrite Hp, Hw;
      destruct (decide (c = cid)) as [->|Hne];
      rewrite ?lookup_insert_eq, ?lookup_insert_ne, ?lookup_delete_ne by congruence;
      eauto.
  - eapply routing_inv_unmap; eauto.
    intros c Hne. apply (live_other _ _ _ cid Hne); auto.
Qed.

Lemma routing_inv__process_quic_events evs b q addr cid :
  forallb benign_event evs = true →
  preserves routing_inv (_process_quic_events evs b q addr cid).
Proof.
  induction evs as [|ev evs IH]; simpl; intros Hb.
  - routing_tac.
  - apply andb_true_iff in Hb as [Hev Hb]. specialize (IH Hb).
    destruct ev; simpl in Hev; routing_tac; try exact IH.
    + apply negb_true_iff in Hev. subst. apply routing_inv__remove_connection.
    + apply negb_true_iff in Hev.
      apply routing_inv__promote_pending_connection, Hev.
Qed.

Lemma routing_inv__transmit_for_connection out q a :
  preserves routing_inv (_transmit_for_connection out q a).
Proof. unfold _transmit_for_connection. routing_tac. Qed.

Lemma routing_inv__handle_pending_connection r q data a cid :
  forallb benign_event (events r) = true →
  preserves routing_inv (_handle_pending_connection r q data a cid).
Proof.
  intros Hb. unfold _handle_pending_connection. routing_tac.
  - apply routing_inv__process_quic_events, Hb.
  - apply routing_inv__transmit_for_connection.
  - apply routing_inv__remove_pending_connection.
Qed.

Lemma routing_inv__remove_connection_by_addr a :
  preserves routing_inv (_remove_connection_by_addr false a).
Proof.
  unfold _remove_connection_by_addr. routing_tac.
  apply routing_inv__remove_connection.
Qed.

Lemma routing_inv__route_to_connection r c data a :
  removal_close_raises r = false →
  preserves routing_inv (_route_to_connection r c data a).
Proof.
  intros Hr. unfold _route_to_connection. rewrite Hr. routing_tac.
  apply routing_inv__remove_connection_by_addr.
Qed.

Lemma routing_inv__send_version_negotiation a scid :
  preserves routing_inv (_send_version_negotiation a scid).
Proof. unfold _send_version_negotiation. routing_tac. Qed.

Section RoutingDispatch.
Variable wire : TProtocol → result Z.

Lemma routing_inv__handle_new_connection r data addr info l :
  forallb benign_event (events r) = true →
  _addr_to_cid l !! addr = None →
  _cid_to_addr l !! new_cid r = None →
  routing_inv l →
  routing_inv (_handle_new_connection wire r data addr info l).2.
Proof.
  intros Hb Ha Hc HI. rewrite _handle_new_connection_cases.
  destruct (find_quic_config wire (_quic_configs l) (version info))
    as [[cfg|]|e].
  - destruct (engine_setup_raises r); [exact HI|]. cbv zeta.
    match goal with
    | |- routing_inv (?m ?l').2 =>
        assert (Hp : preserves routing_inv m); [|apply Hp]
    end.
    + routing_tac.
      * apply routing_inv__process_quic_events, Hb.
      * apply routing_inv__transmit_for_connection.
    + eapply (routing_inv_register l _ addr (new_cid r)); eauto.
      * intros c [Hl|Hl]; [left|right; exact Hl]. cbn.
        destruct (decide (c = new_cid r)) as [->|Hne];
          rewrite ?lookup_insert_eq, ?lookup_insert_ne by congruence; eauto.
      * left. cbn. rewrite lookup_insert_eq. eauto.
  - apply routing_inv__send_version_negotiation, HI.
  - exact HI.
Qed.

Lemma routing_inv__handle_short_header_packet r data addr :
  forallb benign_event (events r) = true →
  removal_close_raises r = false →
  preserves routing_inv (_handle_short_header_packet r data addr).
Proof.
  intros Hb Hr. unfold _handle_short_header_packet. routing_tac.
  - apply routing_inv__route_to_connection, Hr.
  - apply routing_inv__handle_pending_connection, Hb.
Qed.

Lemma routing_inv__process_packet r data addr l :
  benign_reaction r l →
  routing_inv l →
  routing_inv (_process_packet wire r data addr l).2.
Proof.
  intros (Hb & Hr & Hfresh) HI.
  assert (HI0 : routing_inv (counted data l)) by exact HI.
  destruct (parse_quic_packet data) as [info|] eqn:Hparse.
  2:{ rewrite _process_packet_short by exact Hparse.
      apply routing_inv__handle_short_header_packet; assumption. }
  destruct (decide (version info = 0)) as [Hv|Hv].
  { rewrite (_process_packet_version_zero _ _ _ _ info) by assumption.
    exact HI0. }
  destruct (decide (version info ∈ _supported_versions l)) as [Hs|Hs].
  2:{ rewrite (_process_packet_unsupported _ _ _ _ info) by assumption.
      apply routing_inv__send_version_negotiation, HI0. }
  rewrite (_process_packet_routed _ _ _ _ info) by assumption. cbv zeta.
  destruct (_connections l !! destination_cid info) as [c|] eqn:Ec.
  { apply routing_inv__route_to_connection; assumption. }
  destruct (_pending_connections l !! destination_cid info) as [q|] eqn:Ep.
  { apply routing_inv__handle_pending_connection; assumption. }
  destruct (_addr_to_cid l !! addr) as [e|] eqn:Ea.
  - destruct (_pending_connections l !! e) as [q|] eqn:Epe.
    { apply routing_inv__handle_pending_connection; assumption. }
    destruct (_connections l !! e) as [c|] eqn:Ece.
    { apply routing_inv__route_to_connection; assumption. }
    exfalso. destruct HI as [_ Hs']. destruct (Hs' addr e Ea) as [[? H]|[? H]];
      congruence.
  - destruct (packet_type info =? 0); [|exact HI0].
    apply routing_inv__handle_new_connection; assumption.
Qed.
End RoutingDispatch.

Lemma routing_inv_close cr :
  (∀ cid, cr cid = false) → preserves routing_inv (close cr).
Proof.
  intros Hcr. unfold close, close_steps. routing_tac.
  - rewrite Hcr. apply routing_inv__remove_connection.
  - apply routing_inv__remove_pending_connection.
Qed.

Lemma routing_inv_listen s :
  (∀ cid, listen_close_raises s cid = false) → preserves routing_inv (listen s).
Proof.
  intros Hcr. unfold listen. routing_tac. apply routing_inv_close, Hcr.
Qed.

Lemma routing_inv_step wire op l :
  benign_op op l → routing_inv l → routing_inv (step wire op l).
Proof.
  destruct op; simpl; intros Hb HI.
  - apply routing_inv_listen; assumption.
  - apply routing_inv_close; assumption.
  - apply routing_inv__process_packet; assumption.
Qed.

Lemma routing_inv_run wire ops :
  ∀ l, benign_run wire ops l → routing_inv l → routing_inv (run wire ops l).
Proof.
  unfold run. induction ops as [|op ops IH]; simpl; intros l Hb HI.
  - exact HI.
  - destruct Hb as [Hop Hb]. apply IH; [exact Hb|].
    apply routing_inv_step; assumption.
Qed.

Lemma routing_inv_init configs sm : routing_inv (init configs sm).
Proof.
  split.
  - intros a c. cbn. rewrite !lookup_empty. split; discriminate.
  - intros a c. cbn. rewrite lookup_empty. discriminate.
Qed.

(** Routing consistency in a benign environment: from a new listener,
    after any operations during which [connection.close()] never raises
    while a session is removed and every new connection id is unused,
    [_addr_to_cid] and [_cid_to_addr] are mutual inverses. The branch that
    cleans up a dangling address entry is never taken on such a run. *)
Theorem routing_consistent_without_close_errors wire configs sm ops :
  benign_run wire ops (init configs sm) →
  routing_consistent (run wire ops (init configs sm)).
Proof.
  intros Hb. apply routing_inv_run; [exact Hb|apply routing_inv_init].
Qed.

(** * The claims *)

Lemma parsed_source_cid_short (data : bytes) (info : QUICPacketInfo) :
  parse_quic_packet data = Some info → len (source_cid info) < 256.
Proof.
  intros Hparse. pose proof (parse_quic_packet_layout data) as [_ H].
  rewrite Hparse in H. cbv zeta in H. destruct H as (_ & _ & Hs & _).
  unfold index in Hs.
  destruct (data !! Z.to_nat (6 + len (destination_cid info))) as [b|];
    [|discriminate].
  injection Hs as <-. apply byte_val_range.
Qed.

(** C8. [parse_quic_packet] never raises: its body returns on every
    input. When it returns a header, every length the datagram announces is
    the length of what was read, and all of it lies within the buffer: the
    byte at offset 5 is the length of the DCID, which is the slice after
    it; the next byte is the length of the SCID, which is the slice after
    it; and for an Initial the token-length field that follows, as
    [_decode_varint] reads it, takes [w] bytes and announces the length of
    the token, which is the slice after the field (a field cut short by
    the end of the buffer is read as length 0 on 0 bytes). A packet that is
    not an Initial has no such field ([w] is 0) and an empty token. The three
    announced lengths with the 7 bytes of fixed overhead, and with the [w]
    bytes of the token-length field, sum to at most the length of the
    buffer. *)
Theorem parse_quic_packet_safe (data : bytes) :
  (∃ r, parse_quic_packet_body data = Return r) ∧
  match parse_quic_packet data with
  | None => True
  | Some h =>
      let ld := len (destination_cid h) in
      let ls := len (source_cid h) in
      let lt := len (token h) in
      7 + ld + ls + lt ≤ len data ∧
      index data 5 = Return ld ∧
      index data (6 + ld) = Return ls ∧
      destination_cid h = slice data 6 (6 + ld) ∧
      source_cid h = slice data (7 + ld) (7 + ld + ls) ∧
      ∃ w, 0 ≤ w ∧
           (if packet_type h =? 0
            then _decode_varint (drop (Z.to_nat (7 + ld + ls)) data)
                 = Return (lt, w)
            else w = 0 ∧ token h = []) ∧
           7 + ld + ls + w + lt ≤ len data ∧
           token h = slice data (7 + ld + ls + w) (7 + ld + ls + w + lt)
  end.
Proof.
  destruct (parse_quic_packet_layout data) as [Hbody Hlayout].
  split; [exact Hbody|].
  destruct (parse_quic_packet data) as [h|]; [|exact I].
  cbv zeta in *.
  destruct Hlayout as (Hd & Hdcid & Hs & Hscid & w & Hw & Hfield & Htoken & Hsum).
  split; [lia|]. split; [exact Hd|]. split; [exact Hs|].
  split; [exact Hdcid|]. split; [exact Hscid|].
  exists w. split; [exact Hw|].
  split; [|split; [exact Hsum|exact Htoken]].
  exact Hfield.
Qed.

Lemma truncated_varint_decodes_to_zero (b : byte) (rest : bytes) :
  let length_bits := Z.shiftr (Z.land (byte_val b) 0xC0) 6 in
  (length_bits = 1 ∧ len (b :: rest) < 2) ∨
  (length_bits = 2 ∧ len (b :: rest) < 4) ∨
  (length_bits = 3 ∧ len (b :: rest) < 8) →
  _decode_varint (b :: rest) = Return (0, 0).
Proof.
  cbv zeta. intros H. unfold _decode_varint.
  assert (Hl : (len (b :: rest) <? 1) = false).
  { apply Z.ltb_ge. unfold len. simpl. lia. }
  rewrite Hl. change (index (b :: rest) 0) with (Return (byte_val b)).
  rewrite result_bind_Return. cbv zeta.
  destruct H as [[-> H]|[[-> H]|[-> H]]]; simpl (_ =? _);
    apply Z.ltb_lt in H; rewrite H; reflexivity.
Qed.

(** C4 (the code does otherwise). The last byte 0x40 announces a two-byte
    token length, of which only one byte is in the buffer:
    [_decode_varint] answers [(0, 0)] and [parse_quic_packet] returns a
    header with an empty token instead of [None]. *)
Theorem truncated_token_length_is_accepted :
  _decode_varint [x40] = Return (0, 0) ∧
  parse_quic_packet [xc0; x00; x00; x00; x01; x00; x00; x40]
  = Some {| version := 1; destination_cid := []; source_cid := [];
            packet_type := 0; token := [] |}.
Proof. split; vm_compute; reflexivity. Qed.

(** C5. A parsed packet whose version is neither 0 nor supported is
    answered with one datagram, sent to the packet's source address: the
    byte 0xF0 (0x80 | 0x70), four zero bytes, one byte holding the length
    of the packet's SCID, the SCID, one zero byte, and the supported
    versions in strictly ascending order, each as the four bytes that
    unpack big-endian to it. [version_negotiations] grows by one, the
    routing maps stay as they are, and the same packet processed again is
    answered with the same datagram again. *)
Theorem version_negotiation_response wire r data addr info sock l :
  parse_quic_packet data = Some info →
  version info ≠ 0 →
  version info ∉ _supported_versions l →
  set_Forall (fun v => 0 ≤ v < 2 ^ 32) (_supported_versions l) →
  _socket l = Some sock →
  ∃ b_len,
    byte_val b_len = len (source_cid info) ∧
    byte_val xf0 = Z.lor 0x80 0x70 ∧
    let versions := sorted (_supported_versions l) in
    let datagram :=
      version_negotiation_datagram b_len (source_cid info) versions in
    let l1 := (_process_packet wire r data addr l).2 in
    let l2 := (_process_packet wire r data addr l1).2 in
    (_process_packet wire r data addr l).1 = Return () ∧
    calls l1 = calls l ++ [SendTo datagram addr] ∧
    version_negotiations (_stats l1) = version_negotiations (_stats l) + 1 ∧
    _connections l1 = _connections l ∧
    _pending_connections l1 = _pending_connections l ∧
    _addr_to_cid l1 = _addr_to_cid l ∧
    _cid_to_addr l1 = _cid_to_addr l ∧
    calls l2 = calls l ++ [SendTo datagram addr; SendTo datagram addr] ∧
    version_negotiations (_stats l2) = version_negotiations (_stats l) + 2 ∧
    StronglySorted Z.lt versions ∧
    (∀ v, v ∈ versions ↔ v ∈ _supported_versions l) ∧
    Forall (fun v => length (be32 v) = 4%nat ∧ unpack_I (be32 v) = Return v)
      versions.
Proof.
  intros Hparse Hv Hsup Hu32 Hsock.
  pose proof (parsed_source_cid_short data info Hparse) as Hlen.
  destruct (_send_version_negotiation_run addr (source_cid info) sock
              (counted data l) Hlen Hsock Hu32) as (b & Hb & Hrun).
  exists b. split; [exact Hb|]. split; [reflexivity|]. cbv zeta.
  rewrite (_process_packet_unsupported wire r data addr info l Hparse Hv Hsup).
  rewrite Hrun. cbn [fst snd].
  match goal with
  | |- context [_process_packet wire r data addr ?l1] =>
      rewrite (_process_packet_unsupported wire r data addr info l1 Hparse Hv Hsup);
      destruct (_send_version_negotiation_run addr (source_cid info) sock
                  (counted data l1) Hlen Hsock Hu32) as (b' & Hb' & Hrun')
  end.
  assert (b' = b) as ->.
  { apply byte_val_inj. congruence. }
  rewrite Hrun'. cbn.
  repeat split; try reflexivity.
  - rewrite <- app_assoc. reflexivity.
  - lia.
  - apply sorted_ascending.
  - apply sorted_elem_of.
  - apply sorted_elem_of.
  - apply Forall_forall. intros v Hin. apply sorted_elem_of in Hin.
    destruct (pack_I_in_range v (Hu32 v Hin)) as (_ & H4 & Hun). auto.
Qed.

Lemma version_negotiation_response_witness :
  parse_quic_packet unsupported_initial
  = Some {| version := 0xdeadbeef; destination_cid := client_dcid;
            source_cid := client_scid; packet_type := 0; token := [] |} ∧
  ∃ b_len,
    byte_val b_len = 2 ∧
    calls (_process_packet wire_format (reaction server_cid [])
             unsupported_initial client server).2
    = calls server
      ++ [SendTo (version_negotiation_datagram b_len client_scid
                    (sorted (_supported_versions server))) client].
Proof.
  assert (Hparse : parse_quic_packet unsupported_initial
                   = Some {| version := 0xdeadbeef;
                             destination_cid := client_dcid;
                             source_cid := client_scid; packet_type := 0;
                             token := [] |})
    by (vm_compute; reflexivity).
  split; [exact Hparse|].
  destruct (version_negotiation_response wire_format (reaction server_cid [])
              unsupported_initial client _ ("0.0.0.0"%string, 4001) server
              Hparse)
    as (b & Hb & _ & _ & Hcalls & _).
  - discriminate.
  - apply (bool_decide_eq_false_1 _). vm_compute; reflexivity.
  - apply (bool_decide_eq_true_1 _). vm_compute; reflexivity.
  - vm_compute; reflexivity.
  - exists b. split; [exact Hb|exact Hcalls].
Defined.

Lemma listen_after_close (s : ListenScript) (l : QUICListener) :
  closed_flag_set l →
  match listen s l with
  | (Return b, l') =>
      b = true ∧ _listening l' = true ∧ is_listening l' = false
  | (Raise _, l') => is_listening l' = false
  end.
Proof.
  intros Hl.
  pose proof (closed_listen s l Hl) as Hc. apply closed_not_listening in Hc.
  destruct (listen s l) as [[b|e] l'] eqn:E; cbn [snd] in Hc; [|exact Hc].
  revert E. unfold listen, try_except, bind, mbind, M_bind, gets, raise,
    external, modify, call, mret, M_ret. cbv beta iota.
  destruct (_listening l); [discriminate|].
  destruct (is_quic s); cbn [negb]; [|discriminate].
  destruct (socket_raises s); unfold raise, pass, mret, M_ret; cbv beta iota;
    [destruct (close (listen_close_raises s) l) as [[|] ?]; discriminate|].
  destruct (bound_maddr_raises s); cbv beta iota;
    [destruct (close (listen_close_raises s) _) as [[|] ?]; discriminate|].
  destruct (start_raises s); cbv beta iota;
    [destruct (close (listen_close_raises s) _) as [[|] ?]; discriminate|].
  intros [= <- <-]. auto.
Qed.

(** C10. From the state [close()] leaves, whatever operations follow
    ([listen], [close], datagrams), [_closed] stays set, so
    [is_listening()] and the [is_listening] entry of [get_stats()] are
    false. A later [listen()] that passes its guard returns [True] with
    [_listening] set, and [is_listening()] is false all the same; on a
    closed new listener such a [listen()] does succeed. *)
Theorem never_listening_after_close wire close_raises ops l :
  let l' := run wire ops (close close_raises l).2 in
  _closed l' = true ∧
  is_listening l' = false ∧
  view_is_listening (get_stats l') = false ∧
  (∀ s, match listen s l' with
        | (Return b, l'') =>
            b = true ∧ _listening l'' = true ∧ is_listening l'' = false
        | (Raise _, l'') => is_listening l'' = false
        end) ∧
  (∀ configs sm,
     (listen listen_ok (close close_raises (init configs sm)).2).1
     = Return true).
Proof.
  cbv zeta.
  assert (Hc : closed_flag_set (run wire ops (close close_raises l).2))
    by apply closed_run, close_sets_closed.
  split; [exact Hc|].
  split; [apply closed_not_listening, Hc|].
  split; [apply closed_not_listening, Hc|].
  split; [intros s; apply listen_after_close, Hc|].
  intros configs sm. vm_compute. reflexivity.
Qed.

Lemma _send_version_negotiation_keeps_sessions (addr : Addr) (scid : bytes)
  (l : QUICListener) :
  let l' := (_send_version_negotiation addr scid l).2 in
  _connections l' = _connections l ∧
  _pending_connections l' = _pending_connections l ∧
  _addr_to_cid l' = _addr_to_cid l ∧
  _cid_to_addr l' = _cid_to_addr l.
Proof.
  assert (Hp : preserves
                 (fun l' => _connections l' = _connections l ∧
                            _pending_connections l' = _pending_connections l ∧
                            _addr_to_cid l' = _addr_to_cid l ∧
                            _cid_to_addr l' = _cid_to_addr l)
                 (_send_version_negotiation addr scid)).
  { unfold _send_version_negotiation.
    repeat first
      [ preserves_step
      | match goal with
        | |- preserves _ (call _ _) => intros ? H; exact H
        | |- preserves _ (update_stats _) => intros ? H; exact H
        end ]. }
  apply Hp. auto.
Qed.

(** C3, as the code has it. A parsed long-header packet with a supported,
    non-zero version is dispatched in this order: to the established
    session under its DCID, whatever else the table holds; else to the
    pending session under its DCID; else, when the peer address has an
    entry, to the session behind it, pending first, then established (an
    entry with no session behind it is deleted and the packet handled as
    from an unknown address); else [_handle_new_connection] runs if and
    only if the packet is an Initial, and any other packet is dropped with
    nothing but the two per-packet counters changed.
    [_handle_new_connection] stores a new pending session exactly when a
    configuration has the packet's version as its wire version and the
    engine is set up without error; without such a configuration it sends
    a version negotiation, and on an error it counts a rejection. *)
Theorem routing_order wire r data addr info l :
  parse_quic_packet data = Some info →
  version info ≠ 0 →
  version info ∈ _supported_versions l →
  let dcid := destination_cid info in
  let l0 := counted data l in
  let outcome := _process_packet wire r data addr l in
  (∀ c, _connections l !! dcid = Some c →
        outcome = _route_to_connection r c data addr l0) ∧
  (∀ q, _connections l !! dcid = None →
        _pending_connections l !! dcid = Some q →
        outcome = _handle_pending_connection r q data addr dcid l0) ∧
  (∀ e, _connections l !! dcid = None →
        _pending_connections l !! dcid = None →
        _addr_to_cid l !! addr = Some e →
        (∀ q, _pending_connections l !! e = Some q →
              outcome = _handle_pending_connection r q data addr e l0) ∧
        (∀ c, _pending_connections l !! e = None →
              _connections l !! e = Some c →
              outcome = _route_to_connection r c data addr l0) ∧
        (_pending_connections l !! e = None →
         _connections l !! e = None →
         outcome = if packet_type info =? 0
                   then _handle_new_connection wire r data addr info
                          (unmapped addr l0)
                   else (Return (), unmapped addr l0))) ∧
  (_connections l !! dcid = None →
   _pending_connections l !! dcid = None →
   _addr_to_cid l !! addr = None →
   outcome = if packet_type info =? 0
             then _handle_new_connection wire r data addr info l0
             else (Return (), l0)) ∧
  (∀ l1,
     _handle_new_connection wire r data addr info l1 =
     match find_quic_config wire (_quic_configs l1) (version info) with
     | Raise _ =>
         (Return (), set_stats (add_connections_rejected 1 (_stats l1)) l1)
     | Return None => _send_version_negotiation addr (source_cid info) l1
     | Return (Some quic_config) =>
         if engine_setup_raises r
         then (Return (),
               set_stats (add_connections_rejected 1 (_stats l1)) l1)
         else
           let quic_conn :=
             {| configuration := quic_config;
                original_destination_connection_id := dcid |} in
           try_except
             (call (ReceiveDatagram quic_conn data addr) (receive_raises r);;
              _process_quic_events (events r) (next_event_raises r)
                quic_conn addr (new_cid r);;
              _transmit_for_connection (datagrams_to_send r) quic_conn addr)
             (fun _ => update_stats (add_connections_rejected 1))
             (registered (new_cid r) quic_conn addr l1)
     end) ∧
  (∀ l1,
     let l2 := (_send_version_negotiation addr (source_cid info) l1).2 in
     _connections l2 = _connections l1 ∧
     _pending_connections l2 = _pending_connections l1 ∧
     _addr_to_cid l2 = _addr_to_cid l1 ∧
     _cid_to_addr l2 = _cid_to_addr l1).
Proof.
  intros Hparse Hv Hsup. cbv zeta.
  rewrite (_process_packet_routed wire r data addr info l Hparse Hv Hsup).
  cbv zeta.
  split; [intros c ->; reflexivity|].
  split; [intros q -> ->; reflexivity|].
  split.
  { intros e -> -> ->.
    split; [intros q ->; reflexivity|].
    split; [intros c -> ->; reflexivity|].
    intros -> ->. reflexivity. }
  split; [intros -> -> ->; reflexivity|].
  split; [intros l1; apply _handle_new_connection_cases|].
  intros l1. apply _send_version_negotiation_keeps_sessions.
Qed.

Lemma routing_order_witness :
  parse_quic_packet initial_datagram = Some initial_info ∧
  _connections server !! client_dcid = None ∧
  _pending_connections server !! client_dcid = None ∧
  _addr_to_cid server !! client = None ∧
  _process_packet wire_format (reaction server_cid []) initial_datagram
    client server
  = try_except
      (call (ReceiveDatagram engine initial_datagram client) false;;
       _process_quic_events [] false engine client server_cid;;
       _transmit_for_connection (Return [], Return []) engine client)
      (fun _ => update_stats (add_connections_rejected 1))
      (registered server_cid engine client (counted initial_datagram server)).
Proof.
  assert (Hparse : parse_quic_packet initial_datagram = Some initial_info)
    by (vm_compute; reflexivity).
  assert (Hc : _connections server !! client_dcid = None)
    by (vm_compute; reflexivity).
  assert (Hp : _pending_connections server !! client_dcid = None)
    by (vm_compute; reflexivity).
  assert (Ha : _addr_to_cid server !! client = None)
    by (vm_compute; reflexivity).
  split; [exact Hparse|]. split; [exact Hc|]. split; [exact Hp|].
  split; [exact Ha|].
  destruct (routing_order wire_format (reaction server_cid [])
              initial_datagram client initial_info server Hparse)
    as (_ & _ & _ & Hnew & Hcases & _).
  - discriminate.
  - apply (bool_decide_eq_true_1 _). vm_compute; reflexivity.
  - rewrite (Hnew Hc Hp Ha). change (packet_type initial_info =? 0) with true.
    cbv iota. rewrite Hcases. reflexivity.
Defined.

(** C3 as stated fails: an Initial of draft-29 reaches a listener whose
    one configuration, for QUIC v1, lists draft-29 among its supported
    versions. The version is supported and not zero, the DCID is in no
    map and the address has no entry, yet no session is created: the
    packet is answered with a version negotiation. *)
Lemma initial_without_configuration_creates_no_session :
  let l := server_two_versions in
  let out := _process_packet wire_format (reaction server_cid [])
               draft29_initial client l in
  parse_quic_packet draft29_initial
  = Some {| version := 0xff00001d; destination_cid := client_dcid;
            source_cid := client_scid; packet_type := 0; token := [] |} ∧
  bool_decide (0xff00001d ∈ _supported_versions l) = true ∧
  _connections l !! client_dcid = None ∧
  _pending_connections l !! client_dcid = None ∧
  _addr_to_cid l !! client = None ∧
  out.1 = Return () ∧
  _pending_connections out.2 = ∅ ∧
  _connections out.2 = ∅ ∧
  _addr_to_cid out.2 = ∅ ∧
  _cid_to_addr out.2 = ∅ ∧
  calls out.2
  = calls l
    ++ [SendTo [xf0; x00; x00; x00; x00; x02; x5c; x1d; x00;
                x00; x00; x00; x01; xff; x00; x00; x1d] client].
Proof. cbv zeta. repeat split; vm_compute; reflexivity. Qed.

(** The defect behind C1, from any state: an Initial from an address
    whose entry is dangling leaves the [_cid_to_addr] entry of the old
    connection id in place and maps the address to the new one. *)
Lemma dangling_cleanup_leaves_stale_entry wire data addr info l e cid cfg :
  parse_quic_packet data = Some info →
  version info ≠ 0 →
  version info ∈ _supported_versions l →
  packet_type info = 0 →
  _connections l !! destination_cid info = None →
  _pending_connections l !! destination_cid info = None →
  _addr_to_cid l !! addr = Some e →
  _cid_to_addr l !! e = Some addr →
  _pending_connections l !! e = None →
  _connections l !! e = None →
  find_quic_config wire (_quic_configs l) (version info) = Return (Some cfg) →
  cid ≠ e →
  let l' := (_process_packet wire (reaction cid []) data addr l).2 in
  _cid_to_addr l' !! e = Some addr ∧ _addr_to_cid l' !! addr = Some cid.
Proof.
  intros Hparse Hv Hsup Hty Hc Hp Ha Hca Hpe Hce Hcfg Hne. cbv zeta.
  rewrite (_process_packet_routed wire _ data addr info l Hparse Hv Hsup).
  cbv zeta. rewrite Hc, Hp, Ha, Hpe, Hce, Hty. change (0 =? 0) with true.
  cbv iota. rewrite _handle_new_connection_cases.
  change (_quic_configs (unmapped addr (counted data l)))
    with (_quic_configs l).
  rewrite Hcfg. cbn.
  unfold _transmit_for_connection, try_except, bind, lift, call, pass, mret,
    M_ret, mbind, M_bind. cbn.
  rewrite lookup_insert_ne by congruence. rewrite lookup_insert_eq. auto.
Qed.

(** The trace of [dangling_trace], step by step: after the second
    datagram the address entry of the client is dangling; after the third
    it points to the new session while [_cid_to_addr] still maps the old
    connection id to the client. *)
Lemma dangling_trace_steps :
  let l2 := run wire_format (take 2 dangling_trace) server in
  let l3 := run wire_format dangling_trace server in
  _addr_to_cid l2 !! client = Some server_cid ∧
  _cid_to_addr l2 !! server_cid = Some client ∧
  _connections l2 !! server_cid = None ∧
  _pending_connections l2 !! server_cid = None ∧
  _cid_to_addr l3 !! server_cid = Some client ∧
  _addr_to_cid l3 !! client = Some second_server_cid ∧
  _cid_to_addr l3 !! second_server_cid = Some client ∧
  _pending_connections l3 !! second_server_cid = Some engine.
Proof. cbv zeta. repeat split; vm_compute; reflexivity. Qed.

Lemma dangling_trace_not_consistent :
  ¬ routing_consistent (run wire_format dangling_trace server).
Proof.
  intros H. destruct dangling_trace_steps as (_ & _ & _ & _ & H1 & H2 & _).
  apply H in H1. rewrite H1 in H2. discriminate.
Qed.

(** C1 (the code does otherwise). On [dangling_trace] the listener ends
    with maps that are not mutual inverses: [_cid_to_addr] maps the first
    connection id to the client while [_addr_to_cid] maps the client to
    the second one. The cleanup of the dangling address entry deleted the
    [_addr_to_cid] entry and left the [_cid_to_addr] entry of the same
    session behind. *)
Theorem dangling_cleanup_breaks_routing_consistency :
  let l := run wire_format dangling_trace server in
  ¬ routing_consistent l ∧
  _cid_to_addr l !! server_cid = Some client ∧
  _addr_to_cid l !! client = Some second_server_cid.
Proof.
  cbv zeta. split; [exact dangling_trace_not_consistent|].
  destruct dangling_trace_steps as (_ & _ & _ & _ & H1 & H2 & _). auto.
Qed.

Lemma _remove_connection_keeps_pending (close_raises : bool) (cid : bytes)
  (l : QUICListener) :
  _pending_connections (_remove_connection close_raises cid l).2
  = _pending_connections l.
Proof.
  assert (Hp : preserves
                 (fun l' => _pending_connections l' = _pending_connections l)
                 (_remove_connection close_raises cid)).
  { unfold _remove_connection, pop_connections, pop_cid_to_addr,
      pop_addr_to_cid.
    repeat first
      [ preserves_step
      | match goal with
        | |- preserves _ (call _ _) => intros ? H; exact H
        | |- preserves _ (fun l => _) => intros ? H; exact H
        end ]. }
  apply Hp. reflexivity.
Qed.

(** C2 (the code does otherwise). The engine of a new pending session
    reports [ConnectionTerminated]: both address mappings are removed and
    the session stays in [_pending_connections]. *)
Theorem terminated_pending_session_stays_pending :
  let l := (_process_packet wire_format
              (reaction server_cid [ConnectionTerminated false])
              initial_datagram client server).2 in
  _pending_connections l !! server_cid = Some engine ∧
  _connections l !! server_cid = None ∧
  _addr_to_cid l !! client = None ∧
  _cid_to_addr l !! server_cid = None.
Proof. cbv zeta. repeat split; vm_compute; reflexivity. Qed.

(** For comparison, the same handshake with a verification that
    succeeds: the handler task is started and the connection is counted
    as accepted. *)
Example verified_session_is_accepted :
  let l := (_process_packet wire_format
              (reaction server_cid [HandshakeCompleted quiet_promotion])
              initial_datagram client server).2 in
  let c := wrapper_of engine client "quic-v1" in
  calls l = calls server
            ++ [ReceiveDatagram engine initial_datagram client;
                StartConnectionTasks c; VerifyPeerIdentity c;
                StartHandler c] ∧
  connections_accepted (_stats l) = 1 ∧
  connections_rejected (_stats l) = 0 ∧
  _pending_connections l !! server_cid = None ∧
  _connections l !! server_cid = Some c ∧
  _addr_to_cid l !! client = Some server_cid ∧
  _cid_to_addr l !! server_cid = Some client.
Proof. cbv zeta. repeat split; vm_compute; reflexivity. Qed.

(** C6 (the code does otherwise). The handshake of a new session
    completes and the peer-identity verification raises: the connection
    is closed and no handler task is started, but [connections_rejected]
    stays 0 and the connection stays in [_connections]. *)
Theorem failed_verification_is_not_counted :
  let l := (_process_packet wire_format
              (reaction server_cid [HandshakeCompleted failed_verification])
              initial_datagram client server).2 in
  let c := wrapper_of engine client "quic-v1" in
  calls l = calls server
            ++ [ReceiveDatagram engine initial_datagram client;
                StartConnectionTasks c; VerifyPeerIdentity c; ConnClose c] ∧
  connections_rejected (_stats l) = 0 ∧
  connections_accepted (_stats l) = 0 ∧
  _connections l !! server_cid = Some c.
Proof. cbv zeta. repeat split; vm_compute; reflexivity. Qed.

(** C7 (the code does otherwise). [receive_datagram] raises for the
    session just created from an Initial: the error stays inside
    [_process_packet] and a rejection is counted, but the session and
    both of its address mappings stay. *)
Theorem failed_new_session_is_not_removed :
  let out := _process_packet wire_format (failing_reaction server_cid false)
               initial_datagram client server in
  out.1 = Return () ∧
  connections_rejected (_stats out.2) = 1 ∧
  _pending_connections out.2 !! server_cid = Some engine ∧
  _addr_to_cid out.2 !! client = Some server_cid ∧
  _cid_to_addr out.2 !! server_cid = Some client.
Proof. cbv zeta. repeat split; vm_compute; reflexivity. Qed.

(** C9 (the code does otherwise). A pending session is promoted and the
    peer-identity verification raises: the session is neither counted as
    accepted nor removed and counted as rejected; its wrapper stays in
    [_connections] and both address mappings stay. *)
Theorem failed_verification_leaves_session_established :
  let l0 := registered server_cid engine client server in
  let l := (_promote_pending_connection failed_verification engine client
              server_cid l0).2 in
  _pending_connections l0 !! server_cid = Some engine ∧
  _pending_connections l !! server_cid = None ∧
  _connections l !! server_cid = Some (wrapper_of engine client "quic-v1") ∧
  _addr_to_cid l !! client = Some server_cid ∧
  _cid_to_addr l !! server_cid = Some client ∧
  connections_accepted (_stats l) = connections_accepted (_stats l0) ∧
  connections_rejected (_stats l) = connections_rejected (_stats l0).
Proof. cbv zeta. repeat split; vm_compute; reflexivity. Qed.

Lemma routing_consistent_without_close_errors_witness :
  benign_run wire_format quiet_trace (init [("quic-v1"%string, config_v1)] true) ∧
  routing_consistent
    (run wire_format quiet_trace (init [("quic-v1"%string, config_v1)] true)).
Proof.
  assert (Hb : benign_run wire_format quiet_trace
                 (init [("quic-v1"%string, config_v1)] true)).
  { repeat split; try (vm_compute; reflexivity). }
  split; [exact Hb|].
  apply (routing_consistent_without_close_errors wire_format _ _ _ Hb).
Defined.

(** * The builder and the parser agree *)

(** What the parser makes of a datagram of the version negotiator whose
    length byte holds the length of the echoed connection id. *)
Lemma parse_version_negotiation_datagram (b_len : byte) (scid : bytes)
  (versions : list Z) :
  byte_val b_len = len scid →
  parse_quic_packet (version_negotiation_datagram b_len scid versions)
  = Some {| version := 0; destination_cid := scid; source_cid := [];
            packet_type := 3; token := [] |}.
Proof.
  intros Hb. unfold version_negotiation_datagram.
  set (rest := mjoin (be32 <$> versions)).
  assert (Hlen : len ([xf0; x00; x00; x00; x00] ++ [b_len] ++ scid ++ [x00] ++ rest)
                 = 7 + len scid + len rest).
  { unfold len. rewrite !length_app. simpl. lia. }
  pose proof (len_nonneg scid) as Hs. pose proof (len_nonneg rest) as Hr.
  unfold parse_quic_packet, parse_quic_packet_body. cbv zeta.
  rewrite Hlen.
  replace (7 + len scid + len rest <? 1) with false by (symmetry; apply Z.ltb_ge; lia).
  change (index ([xf0; x00; x00; x00; x00] ++ [b_len] ++ scid ++ [x00] ++ rest) 0)
    with (Return (byte_val xf0)).
  rewrite result_bind_Return.
  change (negb (negb (Z.land (byte_val xf0) 128 =? 0))) with false. cbv iota.
  replace (7 + len scid + len rest <? 1 + 4) with false by (symmetry; apply Z.ltb_ge; lia).
  change (unpack_I (slice ([xf0; x00; x00; x00; x00] ++ [b_len] ++ scid ++ [x00] ++ rest) 1 (1 + 4)))
    with (Return (A:=Z) 0).
  rewrite result_bind_Return.
  replace (7 + len scid + len rest <? 1 + 4 + 1) with false by (symmetry; apply Z.ltb_ge; lia).
  change (index ([xf0; x00; x00; x00; x00] ++ [b_len] ++ scid ++ [x00] ++ rest) (1 + 4))
    with (Return (byte_val b_len)).
  rewrite result_bind_Return, Hb.
  replace (7 + len scid + len rest <? 1 + 4 + 1 + len scid) with false
    by (symmetry; apply Z.ltb_ge; lia).
  replace (7 + len scid + len rest <? 1 + 4 + 1 + len scid + 1) with false
    by (symmetry; apply Z.ltb_ge; lia).
  assert (Hi : index ([xf0; x00; x00; x00; x00] ++ [b_len] ++ scid ++ [x00] ++ rest)
                 (1 + 4 + 1 + len scid) = Return 0).
  { unfold index, len.
    replace (Z.to_nat (1 + 4 + 1 + Z.of_nat (length scid)))
      with (6 + length scid)%nat by lia.
    change ([xf0; x00; x00; x00; x00] ++ [b_len] ++ scid ++ [x00] ++ rest)
      with ([xf0; x00; x00; x00; x00; b_len] ++ scid ++ [x00] ++ rest).
    rewrite lookup_app_r by (simpl; lia).
    replace (6 + length scid - length [xf0; x00; x00; x00; x00; b_len])%nat
      with (length scid + 0)%nat by (simpl; lia).
    rewrite lookup_app_r by lia.
    replace (length scid + 0 - length scid)%nat with 0%nat by lia.
    reflexivity. }
  rewrite Hi, result_bind_Return.
  replace (7 + len scid + len rest <? 1 + 4 + 1 + len scid + 1 + 0) with false
    by (symmetry; apply Z.ltb_ge; lia).
  change (Z.shiftr (Z.land (byte_val xf0) 48) 4 =? 0) with false. cbv iota.
  f_equal. f_equal.
  - unfold slice, len.
    replace (Z.to_nat (1 + 4 + 1 + Z.of_nat (length scid) - (1 + 4 + 1)))
      with (length scid) by lia.
    change (drop (Z.to_nat (1 + 4 + 1))
              ([xf0; x00; x00; x00; x00] ++ [b_len] ++ scid ++ [x00] ++ rest))
      with (scid ++ [x00] ++ rest).
    apply take_app_length.
  - unfold slice. rewrite Z.add_0_r, Z.sub_diag. reflexivity.
Qed.

(** Every datagram the version negotiator builds parses as a long-header
    packet of version 0 whose DCID is the echoed connection id, and a
    listener that receives it ignores it: only the two per-packet counters
    change. *)
Theorem version_negotiation_datagram_is_ignored wire r addr b_len scid
  versions l :
  byte_val b_len = len scid →
  let datagram := version_negotiation_datagram b_len scid versions in
  parse_quic_packet datagram
  = Some {| version := 0; destination_cid := scid; source_cid := [];
            packet_type := 3; token := [] |} ∧
  _process_packet wire r datagram addr l = (Return (), counted datagram l).
Proof.
  intros Hb. cbv zeta.
  pose proof (parse_version_negotiation_datagram b_len scid versions Hb) as Hp.
  split; [exact Hp|].
  apply (_process_packet_version_zero wire r _ addr _ l Hp). reflexivity.
Qed.

Lemma version_negotiation_datagram_is_ignored_witness :
  byte_val x02 = len client_scid ∧
  _process_packet wire_format (reaction server_cid [])
    (version_negotiation_datagram x02 client_scid [1]) client server
  = (Return (),
     counted (version_negotiation_datagram x02 client_scid [1]) server).
Proof.
  assert (Hb : byte_val x02 = len client_scid) by reflexivity.
  split; [exact Hb|].
  exact (proj2 (version_negotiation_datagram_is_ignored wire_format
                  (reaction server_cid []) client x02 client_scid [1] server
                  Hb)).
Defined.

(** * Variable-length integers and long headers *)

Lemma length_bits_of_byte (b : byte) :
  Z.shiftr (Z.land (byte_val b) 0xC0) 6 = Z.shiftr (byte_val b) 6 ∧
  0 ≤ Z.shiftr (byte_val b) 6 ≤ 3.
Proof.
  pose proof (byte_val_range b) as Hb.
  rewrite !Z.shiftr_div_pow2 by lia.
  change 0xC0 with (Z.shiftl (Z.ones 2) 6).
  assert (Z.land (byte_val b) (Z.shiftl (Z.ones 2) 6) / 2 ^ 6 = byte_val b / 2 ^ 6).
  { rewrite <- !Z.shiftr_div_pow2 by lia. rewrite Z.shiftr_land.
    rewrite Z.shiftr_shiftl_l by lia. simpl (6 - 6). rewrite Z.shiftl_0_r.
    rewrite Z.land_ones by lia. rewrite Z.shiftr_div_pow2 by lia.
    apply Z.mod_small. split.
    - apply Z.div_pos; lia.
    - apply Z.div_lt_upper_bound; lia. }
  split; [assumption|].
  split.
  - apply Z.div_pos; lia.
  - assert (byte_val b / 2 ^ 6 < 4) by (apply Z.div_lt_upper_bound; lia). lia.
Qed.

Lemma land_63 (b : byte) : Z.land (byte_val b) 0x3F = byte_val b mod 64.
Proof. change 0x3F with (Z.ones 6). rewrite Z.land_ones by lia. reflexivity. Qed.

Lemma lor_mul_add (q y m : Z) :
  0 ≤ m → 0 ≤ y < 2 ^ m → Z.lor (q * 2 ^ m) y = q * 2 ^ m + y.
Proof.
  intros Hm Hy.
  assert (Hd : Z.land (q * 2 ^ m) y = 0).
  { apply Z.bits_inj'. intros n Hn. rewrite Z.land_spec, Z.bits_0.
    destruct (Z.lt_ge_cases n m) as [Hlt|Hge].
    - rewrite Z.mul_pow2_bits_low by lia. reflexivity.
    - replace y with (y mod 2 ^ m) by (apply Z.mod_small; lia).
      rewrite Z.mod_pow2_bits_high by lia. apply andb_false_r. }
  rewrite <- Z.lxor_lor by exact Hd.
  symmetry. apply Z.add_nocarry_lxor, Hd.
Qed.

Lemma masked_prefix (b r k : Z) :
  0 ≤ r < 2 ^ k → 0 ≤ k →
  (b * 2 ^ k + r) mod (64 * 2 ^ k) = (b mod 64) * 2 ^ k + r.
Proof.
  intros Hr Hk. symmetry.
  pose proof (Z.div_mod b 64 ltac:(lia)) as Hb.
  pose proof (Z.mod_pos_bound b 64 ltac:(lia)) as Hm.
  assert (0 < 2 ^ k) by (apply Z.pow_pos_nonneg; lia).
  apply Z.mod_unique with (q := b / 64); [left; nia|].
  rewrite Hb at 1. ring.
Qed.

(** [_decode_varint] decodes the variable-length integers of RFC 9000.
    The two top bits of the first byte give the width [w] of the field, 1,
    2, 4 or 8 bytes. When the buffer holds [w] bytes, the value is the
    number these bytes spell, most significant first, without the two
    width bits, and [w] bytes are consumed. When the buffer is empty or
    shorter than [w], the answer is [(0, 0)]: nothing is raised. *)
Theorem _decode_varint_value (data : bytes) :
  _decode_varint data =
  match data with
  | [] => Return (0, 0)
  | b :: _ =>
      let w := 2 ^ Z.shiftr (byte_val b) 6 in
      if len data <? w then Return (0, 0)
      else Return (be_nat (take (Z.to_nat w) data) mod 2 ^ (8 * w - 2), w)
  end.
Proof.
  destruct data as [|b rest]; [reflexivity|].
  unfold _decode_varint.
  assert (Hl : (len (b :: rest) <? 1) = false).
  { apply Z.ltb_ge. unfold len. simpl. lia. }
  rewrite Hl. change (index (b :: rest) 0) with (Return (byte_val b)).
  rewrite result_bind_Return. cbv zeta.
  destruct (length_bits_of_byte b) as [-> Hr].
  rewrite land_63.
  pose proof (byte_val_range b) as Hb.
  pose proof (Z.mod_pos_bound (byte_val b) 64 ltac:(lia)) as Hm.
  assert (Hlb : Z.shiftr (byte_val b) 6 = 0 ∨ Z.shiftr (byte_val b) 6 = 1 ∨
                Z.shiftr (byte_val b) 6 = 2 ∨ Z.shiftr (byte_val b) 6 = 3) by lia.
  destruct Hlb as [->|[->|[->| ->]]]; simpl (_ =? _); cbv iota.
  - change (2 ^ 0) with 1. rewrite Hl. reflexivity.
  - change (2 ^ 1) with 2.
    destruct rest as [|b1 rest]; [reflexivity|].
    replace (len (b :: b1 :: rest) <? 2) with false
      by (symmetry; apply Z.ltb_ge; unfold len; simpl; lia).
    change (index (b :: b1 :: rest) 1) with (Return (byte_val b1)).
    rewrite result_bind_Return. do 2 f_equal.
    pose proof (byte_val_range b1).
    rewrite Z.shiftl_mul_pow2 by lia.
    rewrite lor_mul_add by lia.
    change (be_nat (take (Z.to_nat 2) (b :: b1 :: rest)))
      with ((0 * 256 + byte_val b) * 256 + byte_val b1).
    change (2 ^ (8 * 2 - 2)) with (64 * 2 ^ 8).
    rewrite <- masked_prefix by lia. f_equal.
  - change (2 ^ 2) with 4.
    destruct rest as [|b1 [|b2 [|b3 rest]]]; try reflexivity.
    replace (len (b :: b1 :: b2 :: b3 :: rest) <? 4) with false
      by (symmetry; apply Z.ltb_ge; unfold len; simpl; lia).
    change (index (b :: b1 :: b2 :: b3 :: rest) 1) with (Return (byte_val b1)).
    change (index (b :: b1 :: b2 :: b3 :: rest) 2) with (Return (byte_val b2)).
    change (index (b :: b1 :: b2 :: b3 :: rest) 3) with (Return (byte_val b3)).
    rewrite !result_bind_Return. do 2 f_equal.
    pose proof (byte_val_range b1). pose proof (byte_val_range b2).
    pose proof (byte_val_range b3).
    rewrite !Z.shiftl_mul_pow2 by lia.
    set (a := byte_val b mod 64) in *.
    rewrite (lor_mul_add a _ 24) by lia.
    replace (a * 2 ^ 24 + byte_val b1 * 2 ^ 16)
      with ((a * 2 ^ 8 + byte_val b1) * 2 ^ 16) by lia.
    rewrite (lor_mul_add _ _ 16) by lia.
    replace ((a * 2 ^ 8 + byte_val b1) * 2 ^ 16 + byte_val b2 * 2 ^ 8)
      with (((a * 2 ^ 8 + byte_val b1) * 2 ^ 8 + byte_val b2) * 2 ^ 8) by lia.
    rewrite (lor_mul_add _ _ 8) by lia.
    change (be_nat (take (Z.to_nat 4) (b :: b1 :: b2 :: b3 :: rest)))
      with ((((0 * 256 + byte_val b) * 256 + byte_val b1) * 256 + byte_val b2)
            * 256 + byte_val b3).
    change (2 ^ (8 * 4 - 2)) with (64 * 2 ^ 24).
    replace ((((0 * 256 + byte_val b) * 256 + byte_val b1) * 256 + byte_val b2)
             * 256 + byte_val b3)
      with (byte_val b * 2 ^ 24
            + ((byte_val b1 * 256 + byte_val b2) * 256 + byte_val b3)) by lia.
    rewrite masked_prefix by lia. fold a. lia.
  - change (2 ^ 3) with 8.
    destruct rest as [|b1 [|b2 [|b3 [|b4 [|b5 [|b6 [|b7 rest]]]]]]];
      try reflexivity.
    replace (len (b :: b1 :: b2 :: b3 :: b4 :: b5 :: b6 :: b7 :: rest) <? 8)
      with false by (symmetry; apply Z.ltb_ge; unfold len; simpl; lia).
    cbn [foldl].
    change (index (b :: b1 :: b2 :: b3 :: b4 :: b5 :: b6 :: b7 :: rest) 1)
      with (Return (byte_val b1)).
    change (index (b :: b1 :: b2 :: b3 :: b4 :: b5 :: b6 :: b7 :: rest) 2)
      with (Return (byte_val b2)).
    change (index (b :: b1 :: b2 :: b3 :: b4 :: b5 :: b6 :: b7 :: rest) 3)
      with (Return (byte_val b3)).
    change (index (b :: b1 :: b2 :: b3 :: b4 :: b5 :: b6 :: b7 :: rest) 4)
      with (Return (byte_val b4)).
    change (index (b :: b1 :: b2 :: b3 :: b4 :: b5 :: b6 :: b7 :: rest) 5)
      with (Return (byte_val b5)).
    change (index (b :: b1 :: b2 :: b3 :: b4 :: b5 :: b6 :: b7 :: rest) 6)
      with (Return (byte_val b6)).
    change (index (b :: b1 :: b2 :: b3 :: b4 :: b5 :: b6 :: b7 :: rest) 7)
      with (Return (byte_val b7)).
    rewrite !result_bind_Return. do 2 f_equal.
    pose proof (byte_val_range b1). pose proof (byte_val_range b2).
    pose proof (byte_val_range b3). pose proof (byte_val_range b4).
    pose proof (byte_val_range b5). pose proof (byte_val_range b6).
    pose proof (byte_val_range b7).
    change (8 * (7 - 1)) with 48. change (8 * (7 - 2)) with 40.
    change (8 * (7 - 3)) with 32. change (8 * (7 - 4)) with 24.
    change (8 * (7 - 5)) with 16. change (8 * (7 - 6)) with 8.
    change (8 * (7 - 7)) with 0.
    rewrite !Z.shiftl_mul_pow2 by lia.
    set (a := byte_val b mod 64) in *.
    rewrite (lor_mul_add a _ 56) by lia.
    replace (a * 2 ^ 56 + byte_val b1 * 2 ^ 48)
      with ((a * 2 ^ 8 + byte_val b1) * 2 ^ 48) by lia.
    set (p1 := a * 2 ^ 8 + byte_val b1) in *.
    assert (0 ≤ p1 < 2 ^ 14) by (unfold p1; lia).
    rewrite (lor_mul_add _ _ 48) by lia.
    replace (p1 * 2 ^ 48 + byte_val b2 * 2 ^ 40)
      with ((p1 * 2 ^ 8 + byte_val b2) * 2 ^ 40) by lia.
    set (p2 := p1 * 2 ^ 8 + byte_val b2) in *.
    rewrite (lor_mul_add _ _ 40) by lia.
    replace (p2 * 2 ^ 40 + byte_val b3 * 2 ^ 32)
      with ((p2 * 2 ^ 8 + byte_val b3) * 2 ^ 32) by lia.
    set (p3 := p2 * 2 ^ 8 + byte_val b3) in *.
    rewrite (lor_mul_add _ _ 32) by lia.
    replace (p3 * 2 ^ 32 + byte_val b4 * 2 ^ 24)
      with ((p3 * 2 ^ 8 + byte_val b4) * 2 ^ 24) by lia.
    set (p4 := p3 * 2 ^ 8 + byte_val b4) in *.
    rewrite (lor_mul_add _ _ 24) by lia.
    replace (p4 * 2 ^ 24 + byte_val b5 * 2 ^ 16)
      with ((p4 * 2 ^ 8 + byte_val b5) * 2 ^ 16) by lia.
    set (p5 := p4 * 2 ^ 8 + byte_val b5) in *.
    rewrite (lor_mul_add _ _ 16) by lia.
    replace (p5 * 2 ^ 16 + byte_val b6 * 2 ^ 8)
      with ((p5 * 2 ^ 8 + byte_val b6) * 2 ^ 8) by lia.
    set (p6 := p5 * 2 ^ 8 + byte_val b6) in *.
    replace (byte_val b7 * 2 ^ 0) with (byte_val b7) by lia.
    rewrite (lor_mul_add _ _ 8) by lia.
    change (be_nat (take (Z.to_nat 8)
                      (b :: b1 :: b2 :: b3 :: b4 :: b5 :: b6 :: b7 :: rest)))
      with ((((((((0 * 256 + byte_val b) * 256 + byte_val b1) * 256
                 + byte_val b2) * 256 + byte_val b3) * 256 + byte_val b4)
              * 256 + byte_val b5) * 256 + byte_val b6) * 256 + byte_val b7).
    change (2 ^ (8 * 8 - 2)) with (64 * 2 ^ 56).
    replace ((((((((0 * 256 + byte_val b) * 256 + byte_val b1) * 256
                  + byte_val b2) * 256 + byte_val b3) * 256 + byte_val b4)
               * 256 + byte_val b5) * 256 + byte_val b6) * 256 + byte_val b7)
      with (byte_val b * 2 ^ 56
            + (((((((byte_val b1 * 256 + byte_val b2) * 256 + byte_val b3) * 256
                   + byte_val b4) * 256 + byte_val b5) * 256 + byte_val b6)
                * 256 + byte_val b7))) by lia.
    rewrite masked_prefix by lia. fold a.
    unfold p6, p5, p4, p3, p2, p1. lia.
Qed.

Lemma high_bit (b : byte) :
  (Z.land (byte_val b) 0x80 =? 0) = (byte_val b <? 128).
Proof. destruct b; reflexivity. Qed.

Lemma packet_type_bits (b : byte) :
  Z.shiftr (Z.land (byte_val b) 0x30) 4 = byte_val b / 16 mod 4.
Proof. destruct b; reflexivity. Qed.

Lemma unpack_I_be_nat (b0 b1 b2 b3 : byte) :
  unpack_I [b0; b1; b2; b3] = Return (be_nat [b0; b1; b2; b3]) ∧
  0 ≤ be_nat [b0; b1; b2; b3] < 2 ^ 32.
Proof.
  pose proof (byte_val_range b0). pose proof (byte_val_range b1).
  pose proof (byte_val_range b2). pose proof (byte_val_range b3).
  unfold unpack_I, be_nat. cbn [foldl].
  rewrite !Z.shiftl_mul_pow2 by lia.
  rewrite (lor_mul_add _ _ 8) by lia.
  rewrite (lor_mul_add _ _ 16) by lia.
  rewrite (lor_mul_add _ _ 24) by lia.
  split; [f_equal|]; lia.
Qed.

(** When [parse_quic_packet] returns a header, the datagram has at
    least 7 bytes and its first byte has the top bit set. The version is the
    number spelled by bytes 1 to 4, most significant first, and is below
    2^32; the packet type is the two bits 4 and 5 of the first byte; and
    the token of a packet that is not an Initial is empty. So an empty
    datagram, one with a short header and one with fewer than 7 bytes are
    never parsed. *)
Theorem parsed_header_fields (data : bytes) (h : QUICPacketInfo) :
  parse_quic_packet data = Some h →
  ∃ flags,
    data !! 0%nat = Some flags ∧
    128 ≤ byte_val flags ∧
    7 ≤ len data ∧
    version h = be_nat (slice data 1 5) ∧
    0 ≤ version h < 2 ^ 32 ∧
    packet_type h = byte_val flags / 16 mod 4 ∧
    (packet_type h ≠ 0 → token h = []).
Proof.
  unfold parse_quic_packet, parse_quic_packet_body. cbv zeta.
  destruct (len data <? 1) eqn:H1; [discriminate|]. apply Z.ltb_ge in H1.
  destruct (index_in_range data 0 ltac:(lia)) as (b0 & Hb0 & ->).
  rewrite result_bind_Return, high_bit.
  destruct (byte_val b0 <? 128) eqn:Hhi; [discriminate|]. apply Z.ltb_ge in Hhi.
  cbn [negb].
  destruct (len data <? 1 + 4) eqn:H5; [discriminate|]. apply Z.ltb_ge in H5.
  assert (Hv : ∃ c0 c1 c2 c3, slice data 1 (1 + 4) = [c0; c1; c2; c3]).
  { pose proof (len_slice data 1 (1 + 4) ltac:(lia) ltac:(lia) ltac:(lia)) as Hl.
    unfold len in Hl.
    destruct (slice data 1 (1 + 4)) as [|c0 [|c1 [|c2 [|c3 [|c4 t]]]]];
      simpl in Hl; try lia. eauto. }
  destruct Hv as (c0 & c1 & c2 & c3 & Hv). rewrite Hv.
  destruct (unpack_I_be_nat c0 c1 c2 c3) as [-> Hrange].
  rewrite result_bind_Return.
  destruct (len data <? 1 + 4 + 1) eqn:H6; [discriminate|]. apply Z.ltb_ge in H6.
  destruct (index_in_range data (1 + 4) ltac:(lia)) as (bd & _ & ->).
  rewrite result_bind_Return. pose proof (byte_val_range bd) as Hrd.
  destruct (len data <? 1 + 4 + 1 + byte_val bd) eqn:H7; [discriminate|].
  apply Z.ltb_ge in H7.
  destruct (len data <? 1 + 4 + 1 + byte_val bd + 1) eqn:H8; [discriminate|].
  apply Z.ltb_ge in H8.
  destruct (index_in_range data (1 + 4 + 1 + byte_val bd) ltac:(lia))
    as (bs & _ & ->).
  rewrite result_bind_Return. pose proof (byte_val_range bs) as Hrs.
  destruct (len data <? 1 + 4 + 1 + byte_val bd + 1 + byte_val bs) eqn:H9;
    [discriminate|].
  apply Z.ltb_ge in H9.
  rewrite packet_type_bits.
  change (Z.to_nat 0) with 0%nat in Hb0.
  change (1 + 4) with 5 in Hv.
  destruct (byte_val b0 / 16 mod 4 =? 0) eqn:Hty.
  - destruct (len data <? _); [discriminate|].
    destruct (_decode_varint _) as [[tl w]|e]; [|discriminate].
    rewrite result_bind_Return.
    destruct (len data <? _); [discriminate|].
    intros [= <-]. cbn [version packet_type token].
    apply Z.eqb_eq in Hty. exists b0. rewrite Hv.
    repeat split; try assumption; try lia.
  - intros [= <-]. cbn [version packet_type token]. exists b0. rewrite Hv.
    repeat split; try assumption; try lia.
Qed.

Lemma len_app {A} (xs ys : list A) : len (xs ++ ys) = len xs + len ys.
Proof. unfold len. rewrite length_app. lia. Qed.

Lemma index_app_r (xs ys : bytes) (i : Z) :
  0 ≤ i → index (xs ++ ys) (len xs + i) = index ys i.
Proof.
  intros Hi. unfold index, len.
  replace (Z.to_nat (Z.of_nat (length xs) + i))
    with (length xs + Z.to_nat i)%nat by lia.
  rewrite lookup_app_r by lia.
  replace (length xs + Z.to_nat i - length xs)%nat with (Z.to_nat i) by lia.
  reflexivity.
Qed.

Lemma drop_app_len (xs ys : bytes) : drop (Z.to_nat (len xs)) (xs ++ ys) = ys.
Proof. unfold len. rewrite Nat2Z.id. apply drop_app_length. Qed.

Lemma slice_app_mid (xs ys zs : bytes) :
  slice (xs ++ ys ++ zs) (len xs) (len xs + len ys) = ys.
Proof.
  unfold slice. rewrite drop_app_len.
  replace (Z.to_nat (len xs + len ys - len xs)) with (length ys)
    by (unfold len; lia).
  apply take_app_length.
Qed.

Lemma _decode_varint_one_byte (b : byte) (rest : bytes) :
  byte_val b < 64 → _decode_varint (b :: rest) = Return (byte_val b, 1).
Proof.
  intros Hb. pose proof (byte_val_range b) as Hr. unfold _decode_varint.
  replace (len (b :: rest) <? 1) with false
    by (symmetry; apply Z.ltb_ge; unfold len; simpl; lia).
  change (index (b :: rest) 0) with (Return (byte_val b)).
  rewrite result_bind_Return. cbv zeta.
  destruct (length_bits_of_byte b) as [-> _]. rewrite land_63.
  rewrite Z.shiftr_div_pow2 by lia. change (2 ^ 6) with 64.
  rewrite Z.div_small by lia. rewrite Z.mod_small by lia. reflexivity.
Qed.

(** The parser reads back what a well-formed long header holds. For a
    flags byte with the top bit set, a version below 2^32 and two
    connection ids of at most 255 bytes, each after its length byte: when
    the type bits are not 00, the datagram parses to this version, these
    connection ids and this type with an empty token, whatever bytes
    follow; when they are 00, and the header is followed by a one-byte
    token length below 64 and that many token bytes, it parses to an
    Initial with this token, whatever follows the token. *)
Theorem parse_long_header (flags : byte) (v : Z) (b_dlen : byte) (dcid : bytes)
  (b_slen : byte) (scid : bytes) :
  128 ≤ byte_val flags →
  0 ≤ v < 2 ^ 32 →
  byte_val b_dlen = len dcid →
  byte_val b_slen = len scid →
  let header := long_header flags v b_dlen dcid b_slen scid in
  let type := byte_val flags / 16 mod 4 in
  (type ≠ 0 →
   ∀ payload,
     parse_quic_packet (header ++ payload)
     = Some {| version := v; destination_cid := dcid; source_cid := scid;
               packet_type := type; token := [] |}) ∧
  (type = 0 →
   ∀ b_tlen token payload,
     byte_val b_tlen = len token → len token < 64 →
     parse_quic_packet (header ++ [b_tlen] ++ token ++ payload)
     = Some {| version := v; destination_cid := dcid; source_cid := scid;
               packet_type := 0; token := token |}).
Proof.
  intros Hflags Hv Hd Hs. cbv zeta.
  destruct (pack_I_in_range v Hv) as (_ & Hlen4 & Hun).
  assert (Hgen : ∀ payload,
    parse_quic_packet_body (long_header flags v b_dlen dcid b_slen scid ++ payload)
    = if byte_val flags / 16 mod 4 =? 0 then
        if len payload <? 1 then Return None else
        '(token_len, token_len_bytes) ← _decode_varint payload;
        if len payload <? token_len_bytes + token_len then Return None else
        Return (Some {| version := v; destination_cid := dcid;
                        source_cid := scid; packet_type := 0;
                        token := slice payload token_len_bytes
                                   (token_len_bytes + token_len) |})
      else Return (Some {| version := v; destination_cid := dcid;
                           source_cid := scid;
                           packet_type := byte_val flags / 16 mod 4;
                           token := [] |})).
  { intros payload. unfold long_header.
    destruct (be32 v) as [|a0 [|a1 [|a2 [|a3 [|a4 t]]]]]; try discriminate Hlen4.
    clear Hlen4.
    pose proof (len_nonneg dcid) as Hd0. pose proof (len_nonneg scid) as Hs0.
    pose proof (len_nonneg payload) as Hp0.
    set (D := ([flags] ++ [a0; a1; a2; a3] ++ [b_dlen] ++ dcid ++ [b_slen] ++ scid)
              ++ payload).
    assert (HD1 : D = [flags; a0; a1; a2; a3; b_dlen] ++ dcid
                      ++ ([b_slen] ++ scid ++ payload)).
    { unfold D. simpl. rewrite <- !app_assoc. reflexivity. }
    assert (HD2 : D = ([flags; a0; a1; a2; a3; b_dlen] ++ dcid)
                      ++ ([b_slen] ++ scid ++ payload)).
    { rewrite HD1, <- !app_assoc. reflexivity. }
    assert (HD3 : D = ([flags; a0; a1; a2; a3; b_dlen] ++ dcid ++ [b_slen])
                      ++ scid ++ payload).
    { rewrite HD1, <- !app_assoc. reflexivity. }
    assert (HD4 : D = ([flags; a0; a1; a2; a3; b_dlen] ++ dcid ++ [b_slen] ++ scid)
                      ++ payload).
    { rewrite HD1, <- !app_assoc. reflexivity. }
    assert (Hlen : len D = 7 + len dcid + len scid + len payload).
    { rewrite HD1, !len_app. change (len [flags; a0; a1; a2; a3; b_dlen]) with 6.
      change (len [b_slen]) with 1. lia. }
    assert (Hl6 : len ([flags; a0; a1; a2; a3; b_dlen] ++ dcid) = 6 + len dcid).
    { rewrite len_app. reflexivity. }
    assert (Hl7 : len ([flags; a0; a1; a2; a3; b_dlen] ++ dcid ++ [b_slen])
                  = 7 + len dcid).
    { rewrite !len_app. change (len [flags; a0; a1; a2; a3; b_dlen]) with 6.
      change (len [b_slen]) with 1. lia. }
    assert (Hl8 : len ([flags; a0; a1; a2; a3; b_dlen] ++ dcid ++ [b_slen] ++ scid)
                  = 7 + len dcid + len scid).
    { rewrite !len_app. change (len [flags; a0; a1; a2; a3; b_dlen]) with 6.
      change (len [b_slen]) with 1. lia. }
    unfold parse_quic_packet_body. cbv zeta.
    replace (len D <? 1) with false by (symmetry; apply Z.ltb_ge; lia).
    assert (Hi0 : index D 0 = Return (byte_val flags)) by (rewrite HD1; reflexivity).
    rewrite Hi0, result_bind_Return, high_bit.
    replace (byte_val flags <? 128) with false by (symmetry; apply Z.ltb_ge; lia).
    cbn [negb].
    replace (len D <? 1 + 4) with false by (symmetry; apply Z.ltb_ge; lia).
    assert (Hsl : slice D 1 (1 + 4) = [a0; a1; a2; a3]) by (rewrite HD1; reflexivity).
    rewrite Hsl, Hun, result_bind_Return.
    replace (len D <? 1 + 4 + 1) with false by (symmetry; apply Z.ltb_ge; lia).
    assert (Hi5 : index D (1 + 4) = Return (byte_val b_dlen))
      by (rewrite HD1; reflexivity).
    rewrite Hi5, result_bind_Return, Hd.
    replace (len D <? 1 + 4 + 1 + len dcid) with false
      by (symmetry; apply Z.ltb_ge; lia).
    replace (len D <? 1 + 4 + 1 + len dcid + 1) with false
      by (symmetry; apply Z.ltb_ge; lia).
    assert (Hi6 : index D (1 + 4 + 1 + len dcid) = Return (byte_val b_slen)).
    { rewrite HD2. replace (1 + 4 + 1 + len dcid)
        with (len ([flags; a0; a1; a2; a3; b_dlen] ++ dcid) + 0) by lia.
      rewrite index_app_r by lia. reflexivity. }
    rewrite Hi6, result_bind_Return, Hs.
    replace (len D <? 1 + 4 + 1 + len dcid + 1 + len scid) with false
      by (symmetry; apply Z.ltb_ge; lia).
    assert (Hdc : slice D (1 + 4 + 1) (1 + 4 + 1 + len dcid) = dcid).
    { rewrite HD1. apply (slice_app_mid [flags; a0; a1; a2; a3; b_dlen]). }
    assert (Hsc : slice D (1 + 4 + 1 + len dcid + 1)
                    (1 + 4 + 1 + len dcid + 1 + len scid) = scid).
    { rewrite HD3.
      replace (1 + 4 + 1 + len dcid + 1)
        with (len ([flags; a0; a1; a2; a3; b_dlen] ++ dcid ++ [b_slen])) by lia.
      apply slice_app_mid. }
    rewrite Hdc, Hsc, packet_type_bits.
    destruct (byte_val flags / 16 mod 4 =? 0) eqn:Hty; [|reflexivity].
    apply Z.eqb_eq in Hty. rewrite Hty.
    replace (len D <? 1 + 4 + 1 + len dcid + 1 + len scid + 1)
      with (len payload <? 1)
      by (destruct (Z.ltb_spec (len payload) 1),
            (Z.ltb_spec (len D) (1 + 4 + 1 + len dcid + 1 + len scid + 1));
          auto; lia).
    destruct (len payload <? 1); [reflexivity|].
    assert (Hdrop : drop (Z.to_nat (1 + 4 + 1 + len dcid + 1 + len scid)) D
                    = payload).
    { rewrite HD4.
      replace (1 + 4 + 1 + len dcid + 1 + len scid)
        with (len ([flags; a0; a1; a2; a3; b_dlen] ++ dcid ++ [b_slen] ++ scid))
        by lia.
      apply drop_app_len. }
    rewrite Hdrop.
    destruct (_decode_varint_returns payload) as (tl & w & Hdv & Htl & Hw).
    rewrite Hdv, !result_bind_Return.
    replace (len D <? 1 + 4 + 1 + len dcid + 1 + len scid + w + tl)
      with (len payload <? w + tl)
      by (destruct (Z.ltb_spec (len payload) (w + tl)),
            (Z.ltb_spec (len D) (1 + 4 + 1 + len dcid + 1 + len scid + w + tl));
          auto; lia).
    destruct (len payload <? w + tl); [reflexivity|].
    do 3 f_equal.
    unfold slice. rewrite <- Hdrop at 1. rewrite drop_drop.
    f_equal; [lia|]. f_equal. lia. }
  split.
  - intros Hty payload. unfold parse_quic_packet. rewrite Hgen.
    apply Z.eqb_neq in Hty. rewrite Hty. reflexivity.
  - intros Hty b_tlen token payload Hb Ht.
    unfold parse_quic_packet. rewrite Hgen, Hty. change (0 =? 0) with true.
    cbv iota.
    replace (len ([b_tlen] ++ token ++ payload) <? 1) with false
      by (symmetry; apply Z.ltb_ge; rewrite len_app;
          pose proof (len_nonneg (token ++ payload)); change (len [b_tlen]) with 1; lia).
    change ([b_tlen] ++ token ++ payload) with (b_tlen :: token ++ payload).
    rewrite _decode_varint_one_byte by lia.
    rewrite result_bind_Return. rewrite Hb.
    replace (len (b_tlen :: token ++ payload) <? 1 + len token) with false
      by (symmetry; apply Z.ltb_ge;
          change (b_tlen :: token ++ payload) with ([b_tlen] ++ token ++ payload);
          rewrite !len_app; pose proof (len_nonneg payload);
          change (len [b_tlen]) with 1; lia).
    do 3 f_equal.
    change (b_tlen :: token ++ payload) with ([b_tlen] ++ token ++ payload).
    apply (slice_app_mid [b_tlen]).
Qed.

(** * Frames: what the handlers leave alone *)

Section Frame.
Context (P : QUICListener → Prop) (popped stored : bytes → Prop).

Hypothesis P_call : ∀ c b, preserves P (call c b).
Hypothesis P_accepted : preserves P (update_stats (add_connections_accepted 1)).
Hypothesis P_rejected : preserves P (update_stats (add_connections_rejected 1)).
Hypothesis P_pop_connections : ∀ k, popped k → preserves P (pop_connections k).
Hypothesis P_pop_pending :
  ∀ k, popped k → preserves P (pop_pending_connections k).
Hypothesis P_unmap : ∀ k, popped k → preserves P (pop_address_mappings k).
Hypothesis P_store :
  ∀ k v, stored k →
    preserves P (modify (fun l => set_connections (<[k := v]> (_connections l)) l)).

Local Ltac frame_tac :=
  repeat first
    [ apply P_call | apply P_accepted | apply P_rejected
    | apply P_pop_connections; assumption
    | apply P_pop_pending; assumption
    | apply P_unmap; assumption
    | apply P_store; assumption
    | preserves_step ].

Lemma frame__remove_connection b cid :
  popped cid → preserves P (_remove_connection b cid).
Proof.
  intros Hc. unfold _remove_connection.
  apply preserves_try_except; [|intros _; apply preserves_pass].
  apply preserves_bind; [apply P_pop_connections, Hc|]. intros connection.
  apply preserves_mbind; [destruct connection; frame_tac|]. intros _.
  apply P_unmap, Hc.
Qed.

Lemma frame__remove_pending_connection cid :
  popped cid → preserves P (_remove_pending_connection cid).
Proof.
  intros Hc. unfold _remove_pending_connection.
  apply preserves_try_except; [|intros _; apply preserves_pass].
  apply preserves_mbind; [apply P_pop_pending, Hc|]. intros _.
  apply P_unmap, Hc.
Qed.

Lemma frame__promote_pending_connection s q addr cid :
  popped cid → stored cid →
  preserves P (_promote_pending_connection s q addr cid).
Proof.
  intros Hp Hs. unfold _promote_pending_connection, promote_steps.
  destruct addr as [host port].
  frame_tac; apply frame__remove_connection, Hp.
Qed.

Lemma frame__process_quic_events evs b q addr cid :
  popped cid → stored cid →
  preserves P (_process_quic_events evs b q addr cid).
Proof.
  intros Hp Hs. induction evs as [|ev evs IH]; simpl.
  - frame_tac.
  - destruct ev; frame_tac;
      first [ apply frame__remove_connection, Hp
            | apply frame__promote_pending_connection; assumption
            | apply IH ].
Qed.

Lemma frame__transmit_for_connection out q addr :
  preserves P (_transmit_for_connection out q addr).
Proof. unfold _transmit_for_connection. frame_tac. Qed.

Lemma frame__handle_pending_connection r q data addr cid :
  popped cid → stored cid →
  preserves P (_handle_pending_connection r q data addr cid).
Proof.
  intros Hp Hs. unfold _handle_pending_connection. frame_tac;
    first [ apply frame__process_quic_events; assumption
          | apply frame__transmit_for_connection
          | apply frame__remove_pending_connection, Hp ].
Qed.

Lemma frame__remove_connection_by_addr b addr :
  (∀ k, popped k) → preserves P (_remove_connection_by_addr b addr).
Proof.
  intros Hp. unfold _remove_connection_by_addr. frame_tac.
  apply frame__remove_connection, Hp.
Qed.

Lemma frame__route_to_connection r c data addr :
  (∀ k, popped k) → preserves P (_route_to_connection r c data addr).
Proof.
  intros Hp. unfold _route_to_connection. frame_tac.
  apply frame__remove_connection_by_addr, Hp.
Qed.

Lemma frame__handle_short_header_packet r data addr :
  (∀ k, popped k) → (∀ k, stored k) →
  preserves P (_handle_short_header_packet r data addr).
Proof.
  intros Hp Hs. unfold _handle_short_header_packet. frame_tac;
    first [ apply frame__route_to_connection, Hp
          | apply frame__handle_pending_connection; auto ].
Qed.

End Frame.

Section ListenerFrame.
Context (P : QUICListener → Prop).

Hypothesis P_call : ∀ c b, preserves P (call c b).
Hypothesis P_accepted : preserves P (update_stats (add_connections_accepted 1)).
Hypothesis P_rejected : preserves P (update_stats (add_connections_rejected 1)).
Hypothesis P_negotiated :
  preserves P (update_stats (add_version_negotiations 1)).
Hypothesis P_pop_connections : ∀ k, preserves P (pop_connections k).
Hypothesis P_pop_pending : ∀ k, preserves P (pop_pending_connections k).
Hypothesis P_pop_addr : ∀ a, preserves P (pop_addr_to_cid a).
Hypothesis P_unmap : ∀ k, preserves P (pop_address_mappings k).
Hypothesis P_store :
  ∀ k v,
    preserves P (modify (fun l => set_connections (<[k := v]> (_connections l)) l)).
Hypothesis P_store_pending :
  ∀ k v,
    preserves P (modify (fun l => set_pending_connections
                                   (<[k := v]> (_pending_connections l)) l)).
Hypothesis P_map_addr :
  ∀ a k,
    preserves P (modify (fun l => set_addr_to_cid (<[a := k]> (_addr_to_cid l)) l)).
Hypothesis P_map_cid :
  ∀ k a,
    preserves P (modify (fun l => set_cid_to_addr (<[k := a]> (_cid_to_addr l)) l)).

Let everywhere : bytes → Prop := fun _ => True.

Local Ltac given :=
  intros;
  first [ exact I | apply P_call | apply P_accepted | apply P_rejected
        | apply P_pop_connections | apply P_pop_pending | apply P_unmap
        | apply P_store ].

Local Ltac session_tac :=
  first
    [ apply (frame__process_quic_events P everywhere everywhere); given
    | apply (frame__transmit_for_connection P); given
    | apply (frame__route_to_connection P everywhere); given
    | apply (frame__handle_pending_connection P everywhere everywhere); given
    | apply (frame__handle_short_header_packet P everywhere everywhere); given
    | apply (frame__remove_connection P everywhere); given
    | apply (frame__remove_pending_connection P everywhere); given ].

Local Ltac listener_tac :=
  repeat first
    [ apply P_call | apply P_accepted | apply P_rejected | apply P_negotiated
    | apply P_pop_connections | apply P_pop_pending | apply P_pop_addr
    | apply P_store | apply P_store_pending | apply P_map_addr | apply P_map_cid
    | session_tac
    | preserves_step ].

Lemma frame__send_version_negotiation addr scid :
  preserves P (_send_version_negotiation addr scid).
Proof. unfold _send_version_negotiation. listener_tac. Qed.

Lemma frame__handle_new_connection wire r data addr info :
  preserves P (_handle_new_connection wire r data addr info).
Proof.
  unfold _handle_new_connection. listener_tac.
  apply frame__send_version_negotiation.
Qed.

Hypothesis P_packets : preserves P (update_stats (add_packets_processed 1)).
Hypothesis P_bytes : ∀ n, preserves P (update_stats (add_bytes_received n)).
Hypothesis P_invalid : preserves P (update_stats (add_invalid_packets 1)).

Lemma frame__process_packet wire r data addr :
  preserves P (_process_packet wire r data addr).
Proof.
  unfold _process_packet.
  repeat first
    [ apply P_packets | apply P_bytes | apply P_invalid
    | apply frame__send_version_negotiation
    | apply frame__handle_new_connection
    | listener_tac ].
Qed.

Hypothesis P_closed : ∀ v, preserves P (modify (set_closed v)).
Hypothesis P_listening : ∀ v, preserves P (modify (set_listening v)).
Hypothesis P_socket : ∀ v, preserves P (modify (set_socket v)).
Hypothesis P_nursery : ∀ v, preserves P (modify (set_nursery v)).
Hypothesis P_bound : ∀ v, preserves P (modify (set_bound_addresses v)).

Lemma frame_close cr : preserves P (close cr).
Proof.
  unfold close, close_steps.
  repeat first
    [ apply P_closed | apply P_listening | apply P_socket | apply P_bound
    | listener_tac ].
Qed.

Lemma frame_listen s : preserves P (listen s).
Proof.
  unfold listen.
  repeat first
    [ apply P_closed | apply P_listening | apply P_socket | apply P_bound
    | apply P_nursery | apply frame_close
    | listener_tac ].
Qed.

Lemma frame_run wire ops : ∀ l, P l → P (run wire ops l).
Proof.
  unfold run. induction ops as [|op ops IH]; intros l Hl; simpl.
  - exact Hl.
  - apply IH. destruct op; simpl.
    + apply frame_listen, Hl.
    + apply frame_close, Hl.
    + apply frame__process_packet, Hl.
Qed.

End ListenerFrame.

(** A property that reads none of the fields an operation writes is kept
    by it: the proof is the unfolding of the operation. *)
Ltac untouched :=
  intros; intros ? Hkept;
  first
    [ exact Hkept
    | unfold pop_address_mappings, bind, mbind, M_bind, pop_cid_to_addr,
        pop_addr_to_cid, pass, mret, M_ret;
      cbv beta iota;
      repeat match goal with
        | |- context [match ?x with _ => _ end] => destruct x
        end;
      exact Hkept ].

Lemma fold_add_versions (vs : list Z) (acc : gset Z) (v : Z) :
  v ∈ foldl (fun (vs : gset Z) (version : Z) => vs ∪ {[version]}) acc vs
  ↔ v ∈ acc ∨ v ∈ vs.
Proof.
  revert acc. induction vs as [|x vs IH]; intros acc; simpl.
  - split; [auto|]. intros [H|H]; [exact H|]. apply elem_of_nil in H as [].
  - rewrite IH, elem_of_union, elem_of_singleton, elem_of_cons. tauto.
Qed.

Lemma _get_supported_versions_elem_of
  (configs : list (TProtocol * QuicConfiguration)) (v : Z) :
  v ∈ _get_supported_versions configs ↔
  ∃ protocol config,
    (protocol, config) ∈ configs ∧ v ∈ supported_versions config.
Proof.
  unfold _get_supported_versions.
  assert (H : ∀ acc : gset Z,
    v ∈ foldl (fun (versions : gset Z) (pc : TProtocol * QuicConfiguration) =>
                 foldl (fun (vs : gset Z) (version : Z) => vs ∪ {[version]})
                       versions (supported_versions pc.2))
              acc configs
    ↔ v ∈ acc ∨ ∃ protocol config,
        (protocol, config) ∈ configs ∧ v ∈ supported_versions config).
  { induction configs as [|[p c] configs IH]; intros acc; simpl.
    - split; [auto|]. intros [H|(p & c & H & _)]; [exact H|].
      apply elem_of_nil in H as [].
    - rewrite IH, fold_add_versions. simpl. split.
      + intros [[H|H]|(p' & c' & Hin & Hv)]; [auto| |].
        * right. exists p, c. split; [left|exact H].
        * right. exists p', c'. split; [right; exact Hin|exact Hv].
      + intros [H|(p' & c' & Hin & Hv)]; [auto|].
        apply elem_of_cons in Hin as [[= -> ->]|Hin]; [auto|].
        right. eauto. }
  rewrite H. split; [|auto]. intros [H0|H0]; [|exact H0].
  apply elem_of_empty in H0 as [].
Qed.

(** The configuration of a listener is fixed when it is built: whatever
    operations run, [_quic_configs] and [_security_manager] are the
    arguments of the constructor, and a version is in [_supported_versions]
    exactly when one of the configurations lists it. *)
Theorem supported_versions_are_fixed wire configs sm ops v :
  let l := run wire ops (init configs sm) in
  _quic_configs l = configs ∧
  _security_manager l = sm ∧
  (v ∈ _supported_versions l ↔
   ∃ protocol config,
     (protocol, config) ∈ configs ∧ v ∈ supported_versions config).
Proof.
  cbv zeta.
  assert (H : (fun l => _quic_configs l = configs ∧ _security_manager l = sm ∧
                        _supported_versions l = _get_supported_versions configs)
                (run wire ops (init configs sm))).
  { apply frame_run; try untouched. repeat split. }
  destruct H as (Hc & Hs & Hv). rewrite Hv.
  split; [exact Hc|]. split; [exact Hs|]. apply _get_supported_versions_elem_of.
Qed.

(** * Counters *)

Lemma traffic__route_to_connection r c data addr t :
  preserves (fun l => traffic l = t) (_route_to_connection r c data addr).
Proof.
  apply (frame__route_to_connection _ (fun _ => True)); try untouched.
  intros; exact I.
Qed.

Lemma traffic__handle_pending_connection r q data addr cid t :
  preserves (fun l => traffic l = t)
    (_handle_pending_connection r q data addr cid).
Proof.
  apply (frame__handle_pending_connection _ (fun _ => True) (fun _ => True));
    try untouched; exact I.
Qed.

Lemma traffic__handle_short_header_packet r data addr t :
  preserves (fun l => traffic l = t) (_handle_short_header_packet r data addr).
Proof.
  apply (frame__handle_short_header_packet _ (fun _ => True) (fun _ => True));
    try untouched; intros; exact I.
Qed.

Lemma traffic__send_version_negotiation addr scid l :
  let l' := (_send_version_negotiation addr scid l).2 in
  packets_processed (_stats l') = packets_processed (_stats l) ∧
  bytes_received (_stats l') = bytes_received (_stats l) ∧
  invalid_packets (_stats l') = invalid_packets (_stats l) ∧
  version_negotiations (_stats l') = version_negotiations (_stats l) + 1.
Proof.
  cbv zeta. unfold _send_version_negotiation.
  match goal with
  | |- context [try_except (update_stats ?f ≫= ?k) ?h l] =>
      change (try_except (update_stats f ≫= k) h l)
        with (try_except (k ()) h (set_stats (f (_stats l)) l));
      assert (Hp : preserves
                     (fun l' => traffic l' = traffic (set_stats (f (_stats l)) l))
                     (try_except (k ()) h))
  end.
  { cbv beta.
    repeat first
      [ preserves_step
      | match goal with
        | |- preserves _ (call _ _) => intros ? H; exact H
        end ]. }
  specialize (Hp _ eq_refl). unfold traffic in Hp.
  injection Hp as H1 H2 H3 H4.
  split; [exact H1|]. split; [exact H2|]. split; [exact H3|exact H4].
Qed.

Lemma traffic__handle_new_connection wire r data addr info l :
  let l' := (_handle_new_connection wire r data addr info l).2 in
  packets_processed (_stats l') = packets_processed (_stats l) ∧
  bytes_received (_stats l') = bytes_received (_stats l) ∧
  invalid_packets (_stats l') = invalid_packets (_stats l) ∧
  version_negotiations (_stats l) ≤ version_negotiations (_stats l')
  ≤ version_negotiations (_stats l) + 1.
Proof.
  cbv zeta. rewrite _handle_new_connection_cases.
  destruct (find_quic_config wire (_quic_configs l) (version info))
    as [[cfg|]|e].
  - destruct (engine_setup_raises r); [cbn; lia|]. cbv zeta.
    match goal with
    | |- context [try_except ?body ?h ?l1] =>
        assert (Hp : preserves (fun l' => traffic l' = traffic l)
                       (try_except body h))
    end.
    { repeat first
        [ apply (frame__process_quic_events _ (fun _ => True) (fun _ => True));
          try untouched; exact I
        | apply frame__transmit_for_connection; untouched
        | match goal with
          | |- preserves _ (call _ _) => intros ? H; exact H
          | |- preserves _ (update_stats _) => intros ? H; exact H
          end
        | preserves_step ]. }
    match goal with
    | |- context [try_except ?body ?h ?l1] => specialize (Hp l1 eq_refl)
    end.
    unfold traffic in Hp. injection Hp as H1 H2 H3 H4.
    rewrite H1, H2, H3, H4. lia.
  - destruct (traffic__send_version_negotiation addr (source_cid info) l)
      as (H1 & H2 & H3 & H4).
    rewrite H1, H2, H3, H4. lia.
  - cbn. lia.
Qed.

Lemma counted_traffic data l :
  traffic (counted data l)
  = (packets_processed (_stats l) + 1, bytes_received (_stats l) + len data,
     invalid_packets (_stats l), version_negotiations (_stats l)).
Proof. reflexivity. Qed.

Lemma traffic__process_packet wire r data addr l :
  let l' := (_process_packet wire r data addr l).2 in
  packets_processed (_stats l') = packets_processed (_stats l) + 1 ∧
  bytes_received (_stats l') = bytes_received (_stats l) + len data ∧
  invalid_packets (_stats l') = invalid_packets (_stats l) ∧
  version_negotiations (_stats l) ≤ version_negotiations (_stats l')
  ≤ version_negotiations (_stats l) + 1.
Proof.
  cbv zeta.
  pose proof (counted_traffic data l) as Hc.
  assert (Hkeep : ∀ l', traffic l' = traffic (counted data l) →
            packets_processed (_stats l') = packets_processed (_stats l) + 1 ∧
            bytes_received (_stats l') = bytes_received (_stats l) + len data ∧
            invalid_packets (_stats l') = invalid_packets (_stats l) ∧
            version_negotiations (_stats l) ≤ version_negotiations (_stats l')
            ≤ version_negotiations (_stats l) + 1).
  { intros l' H. rewrite Hc in H. unfold traffic in H.
    injection H as -> -> -> ->. lia. }
  destruct (parse_quic_packet data) as [info|] eqn:Hparse.
  2:{ rewrite _process_packet_short by exact Hparse.
      apply Hkeep, traffic__handle_short_header_packet. reflexivity. }
  destruct (decide (version info = 0)) as [Hv|Hv].
  { rewrite (_process_packet_version_zero _ _ _ _ info) by assumption.
    apply Hkeep. reflexivity. }
  destruct (decide (version info ∈ _supported_versions l)) as [Hs|Hs].
  2:{ rewrite (_process_packet_unsupported _ _ _ _ info) by assumption.
      destruct (traffic__send_version_negotiation addr (source_cid info)
                  (counted data l)) as (H1 & H2 & H3 & H4).
      rewrite H1, H2, H3, H4. cbn. lia. }
  rewrite (_process_packet_routed _ _ _ _ info) by assumption. cbv zeta.
  assert (Hnew : ∀ l0, traffic l0 = traffic (counted data l) →
            ∀ l', l' = (_handle_new_connection wire r data addr
                          info l0).2 →
            packets_processed (_stats l') = packets_processed (_stats l) + 1 ∧
            bytes_received (_stats l') = bytes_received (_stats l) + len data ∧
            invalid_packets (_stats l') = invalid_packets (_stats l) ∧
            version_negotiations (_stats l) ≤ version_negotiations (_stats l')
            ≤ version_negotiations (_stats l) + 1).
  { intros l0 H l' ->. rewrite Hc in H. unfold traffic in H.
    injection H as E1 E2 E3 E4.
    destruct (traffic__handle_new_connection wire r data addr info l0)
      as (H1 & H2 & H3 & H4).
    rewrite H1, H2, H3. lia. }
  destruct (_connections l !! destination_cid info) as [c|].
  { apply Hkeep, traffic__route_to_connection. reflexivity. }
  destruct (_pending_connections l !! destination_cid info) as [q|].
  { apply Hkeep, traffic__handle_pending_connection. reflexivity. }
  destruct (_addr_to_cid l !! addr) as [e|].
  - destruct (_pending_connections l !! e) as [q|].
    { apply Hkeep, traffic__handle_pending_connection. reflexivity. }
    destruct (_connections l !! e) as [c|].
    { apply Hkeep, traffic__route_to_connection. reflexivity. }
    destruct (packet_type info =? 0).
    + eapply Hnew; [|reflexivity]. reflexivity.
    + apply Hkeep. reflexivity.
  - destruct (packet_type info =? 0).
    + eapply Hnew; [|reflexivity]. reflexivity.
    + apply Hkeep. reflexivity.
Qed.

Lemma stats_listen s l : _stats (listen s l).2 = _stats l.
Proof.
  apply (frame_listen (fun l' => _stats l' = _stats l)); try untouched.
  reflexivity.
Qed.

Lemma stats_close cr l : _stats (close cr l).2 = _stats l.
Proof.
  apply (frame_close (fun l' => _stats l' = _stats l)); try untouched.
  reflexivity.
Qed.

Lemma traffic_run wire ops :
  ∀ l,
    let l' := run wire ops l in
    packets_processed (_stats l')
    = packets_processed (_stats l) + len (received ops) ∧
    bytes_received (_stats l')
    = bytes_received (_stats l) + total_length (received ops) ∧
    invalid_packets (_stats l') = invalid_packets (_stats l) ∧
    version_negotiations (_stats l) ≤ version_negotiations (_stats l')
    ≤ version_negotiations (_stats l) + len (received ops).
Proof.
  unfold run. induction ops as [|op ops IH]; intros l; cbv zeta.
  - change (len (received [])) with 0. change (total_length (received [])) with 0.
    simpl. lia.
  - simpl foldl. specialize (IH (step wire op l)). cbv zeta in IH.
    destruct IH as (H1 & H2 & H3 & H4). rewrite H1, H2, H3.
    destruct op as [s|cr|r data addr]; simpl step in *.
    + change (received (OpListen s :: ops)) with (received ops).
      rewrite stats_listen in *. lia.
    + change (received (OpClose cr :: ops)) with (received ops).
      rewrite stats_close in *. lia.
    + change (received (OpPacket r data addr :: ops))
        with (data :: received ops).
      change (total_length (data :: received ops))
        with (len data + total_length (received ops)).
      replace (len (data :: received ops)) with (1 + len (received ops))
        by (unfold len; simpl; lia).
      destruct (traffic__process_packet wire r data addr l)
        as (E1 & E2 & E3 & E4).
      rewrite E1, E2, E3 in *. lia.
Qed.

(** The traffic counters are exact. After any operations on a new
    listener, [packets_processed] is the number of datagrams processed and
    [bytes_received] their total length; [invalid_packets] is still 0,
    since every error of a collaborator is caught before it reaches the
    handler of [_process_packet] that counts it (the diagnostic prints are
    taken not to raise); and at most one version negotiation was counted
    per datagram. *)
Theorem traffic_counters_are_exact wire configs sm ops :
  let l := run wire ops (init configs sm) in
  packets_processed (_stats l) = len (received ops) ∧
  bytes_received (_stats l) = total_length (received ops) ∧
  invalid_packets (_stats l) = 0 ∧
  0 ≤ version_negotiations (_stats l) ≤ packets_processed (_stats l).
Proof.
  cbv zeta.
  destruct (traffic_run wire ops (init configs sm)) as (H1 & H2 & H3 & H4).
  cbn in H1, H2, H3, H4. rewrite H1, H2, H3. lia.
Qed.

Lemma fold_pack_versions_raises (versions : list Z) (acc : result bytes) (v : Z) :
  v ∈ versions → ¬ 0 ≤ v < 2 ^ 32 →
  ∃ e, foldl (fun (acc : result bytes) (version : Z) =>
                packet ← acc;
                v ← pack_I version;
                Return (packet ++ v))
             acc versions = Raise e.
Proof.
  intros Hin Hv.
  assert (Hraise : ∀ vs e,
            foldl (fun (acc : result bytes) (version : Z) =>
                     packet ← acc;
                     v ← pack_I version;
                     Return (packet ++ v))
                  (Raise e) vs = Raise e).
  { induction vs as [|x vs IH]; intros e; simpl; [reflexivity|apply IH]. }
  assert (Hp : pack_I v = Raise StructError).
  { unfold pack_I. destruct ((0 <=? v) && (v <? 2 ^ 32)) eqn:E; [|reflexivity].
    apply andb_true_iff in E as [E1 E2].
    apply Z.leb_le in E1. apply Z.ltb_lt in E2. lia. }
  revert acc. induction versions as [|x versions IH]; intros acc.
  - apply elem_of_nil in Hin as [].
  - apply elem_of_cons in Hin as [<-|Hin]; cbn [foldl].
    + destruct acc as [packet|e].
      * rewrite result_bind_Return, Hp. exists StructError. apply Hraise.
      * exists e. apply Hraise.
    + apply IH, Hin.
Qed.

Lemma _send_version_negotiation_outcome addr scid l :
  ∃ built : result bytes,
    _send_version_negotiation addr scid l
    = (Return (),
       let l1 := set_stats (add_version_negotiations 1 (_stats l)) l in
       match built, _socket l with
       | Return d, Some _ => log_call (SendTo d addr) l1
       | _, _ => l1
       end) ∧
    (256 ≤ len scid → ∃ e, built = Raise e) ∧
    (∀ v, v ∈ _supported_versions l → ¬ 0 ≤ v < 2 ^ 32 → ∃ e, built = Raise e).
Proof.
  unfold _send_version_negotiation, try_except, bind, mbind, M_bind,
    update_stats, modify, lift, gets, call, pass, mret, M_ret.
  change (append [] (Z.lor 128 112)) with (Return (A:=bytes) [xf0]).
  change (pack_I 0) with (Return (A:=bytes) [x00; x00; x00; x00]).
  cbv beta iota zeta.
  destruct (append ([xf0] ++ [x00; x00; x00; x00]) (len scid)) as [p1|e1] eqn:E1.
  - assert (Hshort : len scid < 256).
    { unfold append in E1.
      destruct ((0 <=? len scid) && (len scid <? 256)) eqn:Hr; [|discriminate].
      apply andb_true_iff in Hr as [_ Hr]. apply Z.ltb_lt in Hr. exact Hr. }
    destruct (append (p1 ++ scid) 0) as [p2|e2] eqn:E2.
    + cbn [_supported_versions set_stats _socket].
      match goal with
      | |- context [foldl ?f (Return p2) ?vs] =>
          exists (foldl f (Return p2) vs);
          destruct (foldl f (Return p2) vs) as [d|e3] eqn:E3
      end.
      * split; [destruct (_socket l); reflexivity|].
        split; [lia|].
        intros v Hv Hout.
        destruct (fold_pack_versions_raises
                    (sorted (_supported_versions l)) (Return p2) v) as [e He];
          [apply sorted_elem_of, Hv|exact Hout|].
        assert (Hx : @Return bytes d = Raise e) by (rewrite <- E3; exact He).
        discriminate Hx.
      * split; [reflexivity|]. eauto.
    + exfalso. unfold append in E2. simpl in E2. discriminate.
  - exists (Raise e1). split; [reflexivity|]. eauto.
Qed.

(** [_send_version_negotiation] never raises and counts one version
    negotiation whatever happens next. It sends at most one datagram, to
    the address it was given, and none at all when the listener has no
    socket, when the connection id to echo is longer than 255 bytes, or
    when a supported version does not fit in 32 bits: the exception of the
    packet builder is caught and the count stays. *)
Theorem version_negotiation_is_counted_even_when_not_sent addr scid l :
  let out := _send_version_negotiation addr scid l in
  out.1 = Return () ∧
  version_negotiations (_stats out.2) = version_negotiations (_stats l) + 1 ∧
  (calls out.2 = calls l ∨ ∃ d, calls out.2 = calls l ++ [SendTo d addr]) ∧
  (_socket l = None → calls out.2 = calls l) ∧
  (256 ≤ len scid → calls out.2 = calls l) ∧
  (∀ v, v ∈ _supported_versions l → ¬ 0 ≤ v < 2 ^ 32 → calls out.2 = calls l).
Proof.
  cbv zeta.
  destruct (_send_version_negotiation_outcome addr scid l)
    as (built & -> & Hlong & Hwide).
  cbn [fst snd]. split; [reflexivity|].
  split; [destruct built as [d|e]; [destruct (_socket l)|]; reflexivity|].
  split; [destruct built as [d|e]; [destruct (_socket l)|]; cbn; eauto|].
  split; [intros ->; destruct built; reflexivity|].
  split.
  - intros Hl. destruct (Hlong Hl) as [e ->]. reflexivity.
  - intros v Hv Hout. destruct (Hwide v Hv Hout) as [e ->]. reflexivity.
Qed.

(** * Transmission *)

Lemma for_each_send (datagrams : list (bytes * Addr)) (addr : Addr)
  (l : QUICListener) :
  for_each datagrams (fun d : bytes * Addr =>
    sock <- gets _socket;;
    match sock with
    | Some _ => call (SendTo d.1 addr) false
    | None => pass
    end) l
  = (Return (),
     match _socket l with
     | Some _ => foldl (fun l' (d : bytes * Addr) =>
                          log_call (SendTo d.1 addr) l') l datagrams
     | None => l
     end).
Proof.
  revert l. induction datagrams as [|d ds IH]; intros l; simpl.
  - destruct (_socket l); reflexivity.
  - unfold mbind, M_bind, bind, gets. unfold mbind at 1, M_bind. cbv beta iota.
    destruct (_socket l) as [sock|] eqn:Hs.
    + unfold call at 1. cbv beta iota. rewrite IH.
      change (_socket (log_call (SendTo d.1 addr) l)) with (_socket l).
      rewrite Hs. reflexivity.
    + unfold pass at 1, mret, M_ret. cbv beta iota. rewrite IH, Hs. reflexivity.
Qed.

Lemma calls_foldl_log (cs : list Call) (l : QUICListener) :
  calls (foldl (fun l' c => log_call c l') l cs) = calls l ++ cs.
Proof.
  revert l. induction cs as [|c cs IH]; intros l; simpl.
  - rewrite app_nil_r. reflexivity.
  - rewrite IH. simpl. rewrite <- app_assoc. reflexivity.
Qed.

(** [_transmit_for_connection] never raises. With a socket, every
    datagram of the answer [datagrams_to_send] gives when it is first asked
    is sent once, in the engine's order, to the address of the packet being
    answered, whatever destination the engine gave for it. The engine is
    asked a second time after the sends and that answer is dropped:
    whatever it holds, and whether or not the call raises, nothing more is
    sent. Without a socket, or when the first call raises, nothing is sent.
    Nothing but the log of calls changes. *)
Theorem _transmit_for_connection_sends first again q addr l :
  let res := _transmit_for_connection (first, again) q addr l in
  let sent := match first, _socket l with
              | Return datagrams, Some _ =>
                  (fun d : bytes * Addr => SendTo d.1 addr) <$> datagrams
              | _, _ => []
              end in
  res.1 = Return () ∧
  res.2 = foldl (fun l' c => log_call c l') l sent ∧
  calls res.2 = calls l ++ sent.
Proof.
  cbv zeta.
  assert (H : _transmit_for_connection (first, again) q addr l
              = (Return (),
                 foldl (fun l' c => log_call c l') l
                   match first, _socket l with
                   | Return datagrams, Some _ =>
                       (fun d : bytes * Addr => SendTo d.1 addr) <$> datagrams
                   | _, _ => []
                   end)).
  { unfold _transmit_for_connection, try_except. unfold bind at 1. unfold lift.
    unfold mbind at 1, M_bind. cbn [fst snd]. cbv beta iota.
    destruct first as [ds|e]; [|reflexivity].
    destruct ds as [|d0 ds]; [destruct (_socket l); reflexivity|].
    unfold bind at 1. unfold mbind at 1, M_bind. rewrite for_each_send.
    assert (Hs : ∀ ds' l0,
      foldl (fun l' (d : bytes * Addr) => log_call (SendTo d.1 addr) l') l0 ds'
      = foldl (fun l' c => log_call c l') l0
          ((fun d : bytes * Addr => SendTo d.1 addr) <$> ds')).
    { clear. induction ds' as [|d ds' IH]; intros l0; simpl;
        [reflexivity|apply IH]. }
    unfold mbind, M_bind, pass, mret, M_ret.
    destruct (_socket l); destruct again as [rest|e]; cbv beta iota;
      rewrite ?Hs; reflexivity. }
  rewrite H. cbn [fst snd]. split; [reflexivity|]. split; [reflexivity|].
  apply calls_foldl_log.
Qed.

(** * Datagrams that are not Initial packets *)

Lemma _handle_short_header_packet_dispatch r data addr l :
  _handle_short_header_packet r data addr l =
  match _addr_to_cid l !! addr with
  | Some cid =>
      if truthy cid then
        match _connections l !! cid with
        | Some connection => _route_to_connection r connection data addr l
        | None =>
            match _pending_connections l !! cid with
            | Some quic_conn =>
                _handle_pending_connection r quic_conn data addr cid l
            | None => (Return (), l)
            end
        end
      else (Return (), l)
  | None => (Return (), l)
  end.
Proof.
  unfold _handle_short_header_packet.
  match goal with
  | |- try_except ?body ?h l = ?rhs =>
      assert (Hb : body l = rhs);
        [|rewrite <- Hb; apply (try_except_returns _ _ _ ()); rewrite Hb]
  end.
  - unfold bind, mbind, M_bind, gets. cbv beta iota.
    destruct (_addr_to_cid l !! addr) as [cid|]; [|reflexivity].
    destruct (truthy cid); [|reflexivity].
    destruct (_connections l !! cid); [reflexivity|].
    destruct (_pending_connections l !! cid); reflexivity.
  - destruct (_addr_to_cid l !! addr) as [cid|]; [|reflexivity].
    destruct (truthy cid); [|reflexivity].
    destruct (_connections l !! cid); [apply quiet__route_to_connection|].
    destruct (_pending_connections l !! cid);
      [apply quiet__handle_pending_connection|reflexivity].
Qed.

(** A datagram the parser returns nothing for (a short header, a
    truncated long header) is dispatched by the address it came from and
    by nothing else: to the established session behind the address entry,
    else to the pending one. From an address without an entry, or with an
    entry that has no session behind it or holds an empty connection id,
    the datagram is dropped: only the two per-packet counters change, and
    a dangling entry stays. *)
Theorem short_header_dispatch wire r data addr l :
  parse_quic_packet data = None →
  _process_packet wire r data addr l =
  let l0 := counted data l in
  match _addr_to_cid l !! addr with
  | Some cid =>
      if truthy cid then
        match _connections l !! cid with
        | Some connection => _route_to_connection r connection data addr l0
        | None =>
            match _pending_connections l !! cid with
            | Some quic_conn =>
                _handle_pending_connection r quic_conn data addr cid l0
            | None => (Return (), l0)
            end
        end
      else (Return (), l0)
  | None => (Return (), l0)
  end.
Proof.
  intros Hparse. rewrite _process_packet_short by exact Hparse.
  rewrite _handle_short_header_packet_dispatch. reflexivity.
Qed.

(** ** No state without an Initial *)

Lemma no_new_state_refl l : no_new_state l l.
Proof.
  repeat split; try reflexivity. apply union_subseteq_l.
Qed.

Lemma dom_delete_subseteq {V} (m : gmap bytes V) (k : bytes) (X : gset bytes) :
  dom m ⊆ X → dom (delete k m) ⊆ X.
Proof.
  intros H x Hx. apply H. apply elem_of_dom in Hx as [v Hv].
  apply elem_of_dom. exists v.
  destruct (decide (x = k)) as [->|Hne].
  - rewrite lookup_delete_eq in Hv. discriminate.
  - rewrite lookup_delete_ne in Hv by congruence. exact Hv.
Qed.

Lemma delete_subseteq_trans {K V} `{Countable K} (m m0 : gmap K V) (k : K) :
  m ⊆ m0 → delete k m ⊆ m0.
Proof. intros Hm. etrans; [apply delete_subseteq|exact Hm]. Qed.

Section NoNewState.
Context (l0 : QUICListener).

Let was_session (k : bytes) : Prop :=
  k ∈ dom (_connections l0) ∪ dom (_pending_connections l0).

Lemma no_new_state_call c b : preserves (no_new_state l0) (call c b).
Proof. intros l H. exact H. Qed.

Lemma no_new_state_update_stats f :
  preserves (no_new_state l0) (update_stats f).
Proof. intros l H. exact H. Qed.

Lemma no_new_state_pop_connections k :
  preserves (no_new_state l0) (pop_connections k).
Proof.
  intros l (Ha & Hc & Hp & Hd). repeat split; try assumption.
  cbn. apply dom_delete_subseteq, Hd.
Qed.

Lemma no_new_state_pop_pending k :
  preserves (no_new_state l0) (pop_pending_connections k).
Proof.
  intros l (Ha & Hc & Hp & Hd). repeat split; try assumption.
  cbn. apply delete_subseteq_trans, Hp.
Qed.

Lemma no_new_state_pop_addr a :
  preserves (no_new_state l0) (pop_addr_to_cid a).
Proof.
  intros l (Ha & Hc & Hp & Hd). repeat split; try assumption.
  cbn. apply delete_subseteq_trans, Ha.
Qed.

Lemma no_new_state_unmap k :
  preserves (no_new_state l0) (pop_address_mappings k).
Proof.
  intros l (Ha & Hc & Hp & Hd).
  unfold pop_address_mappings, bind, mbind, M_bind, pop_cid_to_addr,
    pop_addr_to_cid, pass, mret, M_ret. cbv beta iota.
  destruct (_cid_to_addr l !! k) as [a|]; cbn;
    repeat split; cbn; try assumption;
    apply delete_subseteq_trans; assumption.
Qed.

Lemma no_new_state_store k v :
  was_session k →
  preserves (no_new_state l0)
    (modify (fun l => set_connections (<[k := v]> (_connections l)) l)).
Proof.
  intros Hk l (Ha & Hc & Hp & Hd). repeat split; try assumption.
  cbn. rewrite dom_insert. apply union_subseteq. split; [|exact Hd].
  apply singleton_subseteq_l. exact Hk.
Qed.

Lemma no_new_state__route_to_connection r c data addr :
  preserves (no_new_state l0) (_route_to_connection r c data addr).
Proof.
  apply (frame__route_to_connection _ (fun _ => True));
    intros;
    first [ exact I | apply no_new_state_call | apply no_new_state_pop_connections
          | apply no_new_state_unmap ].
Qed.

Lemma no_new_state__handle_pending_connection r q data addr cid :
  was_session cid →
  preserves (no_new_state l0) (_handle_pending_connection r q data addr cid).
Proof.
  intros Hk.
  apply (frame__handle_pending_connection _ (fun _ => True) was_session);
    intros;
    first [ exact I | assumption
          | apply no_new_state_call | apply no_new_state_update_stats
          | apply no_new_state_pop_connections | apply no_new_state_pop_pending
          | apply no_new_state_unmap
          | apply no_new_state_store; assumption ].
Qed.

End NoNewState.

Lemma was_established (l : QUICListener) (cid : bytes) (c : QUICConnection) :
  _connections l !! cid = Some c →
  cid ∈ dom (_connections l) ∪ dom (_pending_connections l).
Proof. intros H. apply elem_of_union_l, elem_of_dom. eauto. Qed.

Lemma was_pending (l : QUICListener) (cid : bytes) (q : QuicConnection) :
  _pending_connections l !! cid = Some q →
  cid ∈ dom (_connections l) ∪ dom (_pending_connections l).
Proof. intros H. apply elem_of_union_r, elem_of_dom. eauto. Qed.

(** Only an Initial packet can add to the routing table. A datagram that
    does not parse, or parses as a long-header packet of another type,
    adds no address mapping and no pending session, and the only session
    it can establish is one that was pending. *)
Theorem only_initial_packets_create_state wire r data addr l :
  (∀ info, parse_quic_packet data = Some info → packet_type info ≠ 0) →
  no_new_state l (_process_packet wire r data addr l).2.
Proof.
  intros Hty.
  assert (H0 : no_new_state l (counted data l)) by exact (no_new_state_refl l).
  assert (Hroute : ∀ c, no_new_state l
                          (_route_to_connection r c data addr (counted data l)).2).
  { intros c. apply no_new_state__route_to_connection, H0. }
  assert (Hpend : ∀ cid q, _pending_connections l !! cid = Some q →
            no_new_state l
              (_handle_pending_connection r q data addr cid (counted data l)).2).
  { intros cid q Hq. apply no_new_state__handle_pending_connection; [|exact H0].
    eapply was_pending, Hq. }
  destruct (parse_quic_packet data) as [info|] eqn:Hparse.
  2:{ rewrite _process_packet_short by exact Hparse.
      rewrite _handle_short_header_packet_dispatch.
      change (_addr_to_cid (counted data l)) with (_addr_to_cid l).
      change (_connections (counted data l)) with (_connections l).
      change (_pending_connections (counted data l))
        with (_pending_connections l).
      destruct (_addr_to_cid l !! addr) as [cid|]; [|exact H0].
      destruct (truthy cid); [|exact H0].
      destruct (_connections l !! cid); [apply Hroute|].
      destruct (_pending_connections l !! cid) eqn:Hq; [|exact H0].
      apply (Hpend _ _ Hq). }
  specialize (Hty info eq_refl).
  destruct (decide (version info = 0)) as [Hv|Hv].
  { rewrite (_process_packet_version_zero _ _ _ _ info) by assumption.
    exact H0. }
  destruct (decide (version info ∈ _supported_versions l)) as [Hs|Hs].
  2:{ rewrite (_process_packet_unsupported _ _ _ _ info) by assumption.
      destruct (_send_version_negotiation_keeps_sessions addr (source_cid info)
                  (counted data l)) as (E1 & E2 & E3 & E4).
      unfold no_new_state. rewrite E1, E2, E3, E4. exact H0. }
  rewrite (_process_packet_routed _ _ _ _ info) by assumption. cbv zeta.
  apply Z.eqb_neq in Hty. rewrite Hty.
  destruct (_connections l !! destination_cid info); [apply Hroute|].
  destruct (_pending_connections l !! destination_cid info) eqn:Hq;
    [apply (Hpend _ _ Hq)|].
  destruct (_addr_to_cid l !! addr) as [e|]; [|exact H0].
  destruct (_pending_connections l !! e) eqn:Hqe; [apply (Hpend _ _ Hqe)|].
  destruct (_connections l !! e); [apply Hroute|].
  apply (no_new_state_pop_addr l addr (counted data l) H0).
Qed.

(** * One session at a time *)

Section OneSession.
Context (cid : bytes) (l0 : QUICListener).

Lemma only_session_changed_refl : only_session_changed cid l0 l0.
Proof. repeat split; auto. Qed.

Lemma one_session_call c b :
  preserves (only_session_changed cid l0) (call c b).
Proof. intros l H. exact H. Qed.

Lemma one_session_update_stats f :
  preserves (only_session_changed cid l0) (update_stats f).
Proof. intros l H. exact H. Qed.

Lemma one_session_pop_connections :
  preserves (only_session_changed cid l0) (pop_connections cid).
Proof.
  intros l (Hs & Ha & Hc). split; [|split; assumption].
  intros cid' Hne. destruct (Hs cid' Hne) as (H1 & H2 & H3).
  cbn. rewrite lookup_delete_ne by congruence. auto.
Qed.

Lemma one_session_pop_pending :
  preserves (only_session_changed cid l0) (pop_pending_connections cid).
Proof.
  intros l (Hs & Ha & Hc). split; [|split; assumption].
  intros cid' Hne. destruct (Hs cid' Hne) as (H1 & H2 & H3).
  cbn. rewrite lookup_delete_ne by congruence. auto.
Qed.

Lemma one_session_unmap :
  preserves (only_session_changed cid l0) (pop_address_mappings cid).
Proof.
  intros l (Hs & Ha & Hc).
  unfold pop_address_mappings, bind, mbind, M_bind, pop_cid_to_addr,
    pop_addr_to_cid, pass, mret, M_ret. cbv beta iota.
  destruct (_cid_to_addr l !! cid) as [a|] eqn:E; cbn.
  - destruct Hc as [Hc|Hc]; [discriminate|].
    split; [|split].
    + intros cid' Hne. destruct (Hs cid' Hne) as (H1 & H2 & H3).
      cbn. rewrite lookup_delete_ne by congruence. auto.
    + intros addr' Hne. cbn.
      rewrite lookup_delete_ne by (intros ->; apply Hne; congruence).
      apply Ha, Hne.
    + left. cbn. apply lookup_delete_eq.
  - split; [|split].
    + intros cid' Hne. destruct (Hs cid' Hne) as (H1 & H2 & H3).
      cbn. rewrite lookup_delete_ne by congruence. auto.
    + exact Ha.
    + left. cbn. apply lookup_delete_eq.
Qed.

Lemma one_session_store v :
  preserves (only_session_changed cid l0)
    (modify (fun l => set_connections (<[cid := v]> (_connections l)) l)).
Proof.
  intros l (Hs & Ha & Hc). split; [|split; assumption].
  intros cid' Hne. destruct (Hs cid' Hne) as (H1 & H2 & H3).
  cbn. rewrite lookup_insert_ne by congruence. auto.
Qed.

Local Ltac one_session :=
  intros;
  repeat match goal with H : cid = _ |- _ => destruct H end;
  first [ reflexivity | apply one_session_call | apply one_session_update_stats
        | apply one_session_pop_connections | apply one_session_pop_pending
        | apply one_session_unmap | apply one_session_store ].

Lemma one_session__process_quic_events evs b q addr :
  preserves (only_session_changed cid l0) (_process_quic_events evs b q addr cid).
Proof.
  apply (frame__process_quic_events _ (eq cid) (eq cid)); one_session.
Qed.

Lemma one_session__handle_pending_connection r q data addr :
  preserves (only_session_changed cid l0)
    (_handle_pending_connection r q data addr cid).
Proof.
  apply (frame__handle_pending_connection _ (eq cid) (eq cid)); one_session.
Qed.

Lemma one_session__promote_pending_connection s q addr :
  preserves (only_session_changed cid l0)
    (_promote_pending_connection s q addr cid).
Proof.
  apply (frame__promote_pending_connection _ (eq cid) (eq cid)); one_session.
Qed.

Lemma one_session__remove_connection b :
  preserves (only_session_changed cid l0) (_remove_connection b cid).
Proof. apply (frame__remove_connection _ (eq cid)); one_session. Qed.

Lemma one_session__remove_pending_connection :
  preserves (only_session_changed cid l0) (_remove_pending_connection cid).
Proof. apply (frame__remove_pending_connection _ (eq cid)); one_session. Qed.

End OneSession.

(** Handling a datagram for the pending session [cid] touches no other
    session, whatever the engine reports and whatever raises: the entries
    of every other connection id in [_connections], [_pending_connections]
    and [_cid_to_addr] are as before, and so is the [_addr_to_cid] entry of
    every address except the one [_cid_to_addr] held for [cid]. The same
    holds of the event loop, of a promotion and of the two removals on
    their own. *)
Theorem pending_session_is_handled_in_isolation r q data addr cid evs b s
  close_raises l :
  only_session_changed cid l (_handle_pending_connection r q data addr cid l).2 ∧
  only_session_changed cid l (_process_quic_events evs b q addr cid l).2 ∧
  only_session_changed cid l (_promote_pending_connection s q addr cid l).2 ∧
  only_session_changed cid l (_remove_connection close_raises cid l).2 ∧
  only_session_changed cid l (_remove_pending_connection cid l).2.
Proof.
  pose proof (only_session_changed_refl cid l) as H0.
  split; [apply one_session__handle_pending_connection, H0|].
  split; [apply one_session__process_quic_events, H0|].
  split; [apply one_session__promote_pending_connection, H0|].
  split; [apply one_session__remove_connection, H0|].
  apply one_session__remove_pending_connection, H0.
Qed.

(** * Errors of a session *)

(** A datagram routed to an established session. When nothing raises,
    the datagram is fed to the engine of the session, its events are
    processed and its output transmitted, in this order, and the listener
    changes in nothing else. When one of the three raises, the session that
    is removed is the one behind the [_addr_to_cid] entry of the sender,
    which need not be the session the datagram was routed to: a sender
    without an entry leaves the failing session in place. No counter
    changes and nothing is raised either way. *)
Theorem route_error_removes_session_of_sender r c data addr l :
  let out := _route_to_connection r c data addr l in
  let failed :=
    receive_raises r || conn_events_raise r || conn_transmit_raises r in
  out.1 = Return () ∧
  _pending_connections out.2 = _pending_connections l ∧
  _stats out.2 = _stats l ∧
  (failed = false →
   _connections out.2 = _connections l ∧
   _addr_to_cid out.2 = _addr_to_cid l ∧
   _cid_to_addr out.2 = _cid_to_addr l ∧
   calls out.2 = calls l ++ [ReceiveDatagram (_quic c) data addr;
                             ConnProcessEvents c; ConnTransmit c]) ∧
  (failed = true →
   match _addr_to_cid l !! addr with
   | None =>
       _connections out.2 = _connections l ∧
       _addr_to_cid out.2 = _addr_to_cid l ∧
       _cid_to_addr out.2 = _cid_to_addr l
   | Some cid =>
       cid ≠ [] →
       _connections out.2 = delete cid (_connections l) ∧
       (removal_close_raises r = false ∨ _connections l !! cid = None →
        _cid_to_addr out.2 = delete cid (_cid_to_addr l) ∧
        _addr_to_cid out.2 = match _cid_to_addr l !! cid with
                             | Some a => delete a (_addr_to_cid l)
                             | None => _addr_to_cid l
                             end)
   end).
Proof.
  cbv zeta. split; [apply quiet__route_to_connection|].
  destruct l as [configs sm sock bound conns pend a2c c2a sup cl li nur st cs].
  destruct r as [ncid esr rr evs ner dts cer ctr rcr].
  unfold _route_to_connection, _remove_connection_by_addr, _remove_connection,
    try_except, bind, pass, mbind, M_bind, mret, M_ret, gets, call,
    pop_connections, pop_cid_to_addr, pop_addr_to_cid.
  cbn.
  destruct (a2c !! addr) as [[|b0 cid]|] eqn:Ea;
    [| destruct (conns !! (b0 :: cid)) as [c'|] eqn:Ec;
       destruct (c2a !! (b0 :: cid)) as [a|] eqn:Eca |];
    destruct rr, cer, ctr, rcr;
    repeat (progress (cbn; rewrite ?Ea, ?Ec, ?Eca)).
  all: repeat match goal with
         | |- _ ∧ _ => split
         | |- _ → _ => intro
         | H : _ ∨ _ |- _ => destruct H
         end.
  all: try reflexivity; try discriminate; try congruence.
  all: rewrite <- !app_assoc; reflexivity.
Qed.

(** [receive_datagram] raises for a pending session: the session leaves
    [_pending_connections] together with both of its address mappings,
    nothing is raised, and nothing else changes. No counter moves: a
    pending session lost this way is not counted as rejected. *)
Theorem failed_pending_session_is_removed r q data addr cid l :
  receive_raises r = true →
  let out := _handle_pending_connection r q data addr cid l in
  out.1 = Return () ∧
  _pending_connections out.2 = delete cid (_pending_connections l) ∧
  _cid_to_addr out.2 = delete cid (_cid_to_addr l) ∧
  _addr_to_cid out.2 = match _cid_to_addr l !! cid with
                       | Some a => delete a (_addr_to_cid l)
                       | None => _addr_to_cid l
                       end ∧
  _connections out.2 = _connections l ∧
  _stats out.2 = _stats l ∧
  calls out.2 = calls l ++ [ReceiveDatagram q data addr].
Proof.
  intros Hr. cbv zeta.
  split; [apply quiet__handle_pending_connection|].
  destruct l as [configs sm sock bound conns pend a2c c2a sup cl li nur st cs].
  unfold _handle_pending_connection, _remove_pending_connection, try_except,
    bind, pass, mbind, M_bind, mret, M_ret, call, pop_pending_connections,
    pop_cid_to_addr, pop_addr_to_cid.
  rewrite Hr. cbn.
  destruct (c2a !! cid) as [a|]; cbn; repeat split; reflexivity.
Qed.

(** * Removal on a consistent table *)

Lemma unmapped_cid_routes (l l' : QUICListener) (cid : bytes) :
  routing_consistent l →
  _cid_to_addr l' = delete cid (_cid_to_addr l) →
  _addr_to_cid l' = match _cid_to_addr l !! cid with
                    | Some a => delete a (_addr_to_cid l)
                    | None => _addr_to_cid l
                    end →
  (∀ a c, _addr_to_cid l' !! a = Some c ↔
          c ≠ cid ∧ _addr_to_cid l !! a = Some c) ∧
  routing_consistent l'.
Proof.
  intros Hc Hc2a Ha2c.
  assert (Hkey : ∀ a c, _addr_to_cid l' !! a = Some c ↔
                        (c ≠ cid ∧ _addr_to_cid l !! a = Some c)).
  { intros a c. rewrite Ha2c. destruct (_cid_to_addr l !! cid) as [a0|] eqn:E.
    - apply Hc in E. destruct (decide (a = a0)) as [->|Hne].
      + rewrite lookup_delete_eq. split; [discriminate|].
        intros [Hn H]. congruence.
      + rewrite lookup_delete_ne by congruence. split; [|tauto].
        intros H. split; [|exact H]. intros ->.
        apply Hc in H. apply Hc in E. congruence.
    - split; [|tauto]. intros H. split; [|exact H]. intros ->.
      apply Hc in H. congruence. }
  split; [exact Hkey|].
  intros a c. rewrite Hkey, Hc2a. destruct (decide (c = cid)) as [->|Hne].
  - rewrite lookup_delete_eq. split; [tauto|discriminate].
  - rewrite lookup_delete_ne by congruence.
    split; [intros [_ H]; apply Hc, H|intros H; split; [exact Hne|apply Hc, H]].
Qed.

(** On a table whose address maps are mutual inverses, a removal during
    which [connection.close()] does not raise takes away the routes of
    exactly one connection id. After [_remove_connection], [_connections]
    and [_cid_to_addr] have lost the entry of the id and nothing else,
    [_addr_to_cid] has lost exactly the entries that led to the id, and the
    address maps are still mutual inverses; [_pending_connections] is not
    touched, so a session pending under the id stays in it.
    [_remove_pending_connection] does the same with the two session maps
    exchanged: an established session under the id stays. *)
Theorem removal_takes_the_routes_of_one_session cid l :
  routing_consistent l →
  let l1 := (_remove_connection false cid l).2 in
  let l2 := (_remove_pending_connection cid l).2 in
  (_connections l1 = delete cid (_connections l) ∧
   _pending_connections l1 = _pending_connections l ∧
   _cid_to_addr l1 = delete cid (_cid_to_addr l) ∧
   (∀ a c, _addr_to_cid l1 !! a = Some c ↔
           c ≠ cid ∧ _addr_to_cid l !! a = Some c) ∧
   routing_consistent l1) ∧
  (_pending_connections l2 = delete cid (_pending_connections l) ∧
   _connections l2 = _connections l ∧
   _cid_to_addr l2 = delete cid (_cid_to_addr l) ∧
   (∀ a c, _addr_to_cid l2 !! a = Some c ↔
           c ≠ cid ∧ _addr_to_cid l !! a = Some c) ∧
   routing_consistent l2).
Proof.
  intros Hc. cbv zeta.
  destruct (_remove_connection_effect cid l) as (Ec & Ep & Eca & Eac).
  destruct (_remove_pending_connection_effect cid l) as (Ec' & Ep' & Eca' & Eac').
  split.
  - split; [exact Ec|]. split; [exact Ep|]. split; [exact Eca|].
    eapply unmapped_cid_routes; eassumption.
  - split; [exact Ep'|]. split; [exact Ec'|]. split; [exact Eca'|].
    eapply unmapped_cid_routes; eassumption.
Qed.

(** * Closing the listener *)

Lemma for_each_quiet {A} (xs : list A) (body : A → M unit) (l : QUICListener) :
  (∀ x, quiet (body x)) →
  for_each xs body l = (Return (), foldl (fun l' x => (body x l').2) l xs).
Proof.
  intros Hq. revert l. induction xs as [|x xs IH]; intros l; simpl.
  - reflexivity.
  - unfold mbind, M_bind. specialize (Hq x l).
    destruct (body x l) as [[[]|e] l1]; simpl in *; [apply IH|discriminate].
Qed.

Lemma _remove_connection_step b k l :
  let l' := (_remove_connection b k l).2 in
  _connections l' = delete k (_connections l) ∧
  _pending_connections l' = _pending_connections l ∧
  calls l' = calls l ++ match _connections l !! k with
                        | Some c => [ConnClose c]
                        | None => []
                        end ∧
  fixture l' = fixture l.
Proof.
  destruct l as [configs sm sock bound conns pend a2c c2a sup cl li nur st cs].
  unfold _remove_connection, try_except, bind, pass, mbind, M_bind, mret, M_ret,
    call, pop_connections, pop_cid_to_addr, pop_addr_to_cid.
  cbn. destruct (conns !! k) as [c|]; [destruct b|]; cbn;
    try (destruct (c2a !! k) as [a|]; cbn);
    rewrite ?app_nil_r; repeat split; reflexivity.
Qed.

Lemma _remove_pending_connection_step k l :
  let l' := (_remove_pending_connection k l).2 in
  _connections l' = _connections l ∧
  _pending_connections l' = delete k (_pending_connections l) ∧
  calls l' = calls l ∧
  fixture l' = fixture l.
Proof.
  destruct l as [configs sm sock bound conns pend a2c c2a sup cl li nur st cs].
  unfold _remove_pending_connection, try_except, bind, pass, mbind, M_bind,
    mret, M_ret, pop_pending_connections, pop_cid_to_addr, pop_addr_to_cid.
  cbn. destruct (c2a !! k) as [a|]; cbn; repeat split; reflexivity.
Qed.

Lemma remove_connections_loop (cr : bytes → bool)
  (kvs : list (bytes * QUICConnection)) :
  ∀ l,
    NoDup kvs.*1 →
    (∀ k v, (k, v) ∈ kvs → _connections l !! k = Some v) →
    let l' := foldl (fun l' k => (_remove_connection (cr k) k l').2) l kvs.*1 in
    (∀ i, i ∈ kvs.*1 → _connections l' !! i = None) ∧
    (∀ i v, _connections l' !! i = Some v → _connections l !! i = Some v) ∧
    _pending_connections l' = _pending_connections l ∧
    calls l' = calls l ++ (ConnClose <$> kvs.*2) ∧
    fixture l' = fixture l.
Proof.
  induction kvs as [|[k v] kvs IH]; intros l Hnd Hin; cbv zeta.
  - simpl. rewrite app_nil_r. repeat split; auto.
    intros i Hi. apply elem_of_nil in Hi as [].
  - simpl in Hnd. apply NoDup_cons in Hnd as [Hk Hnd]. simpl.
    destruct (_remove_connection_step (cr k) k l) as (Ec & Ep & Ecalls & Ef).
    rewrite (Hin k v) in Ecalls by left.
    set (l1 := (_remove_connection (cr k) k l).2) in *.
    destruct (IH l1 Hnd) as (Hgone & Hmono & Hp & Hcalls & Hf).
    { intros k' v' Hin'. rewrite Ec.
      rewrite lookup_delete_ne.
      - apply Hin. right. exact Hin'.
      - intros ->. apply Hk. apply list_elem_of_fmap.
        exists (k', v'). split; [reflexivity|exact Hin']. }
    cbv zeta in Hgone, Hmono, Hp, Hcalls, Hf.
    assert (Hmono' : ∀ i w,
              _connections
                (foldl (fun l' k0 => (_remove_connection (cr k0) k0 l').2) l1 kvs.*1)
              !! i = Some w → _connections l !! i = Some w).
    { intros i w H. apply Hmono in H. rewrite Ec in H.
      destruct (decide (i = k)) as [->|Hne].
      - rewrite lookup_delete_eq in H. discriminate.
      - rewrite lookup_delete_ne in H by congruence. exact H. }
    split; [|split; [exact Hmono'|]].
    + intros i Hi. apply elem_of_cons in Hi as [->|Hi]; [|apply Hgone, Hi].
      destruct (_connections _ !! k) as [w|] eqn:E; [|reflexivity].
      apply Hmono in E. rewrite Ec, lookup_delete_eq in E. discriminate.
    + split; [exact (eq_trans Hp Ep)|].
      split; [|exact (eq_trans Hf Ef)].
      etrans; [exact Hcalls|]. rewrite Ecalls, <- app_assoc. reflexivity.
Qed.

Lemma remove_pending_connections_loop (ks : list bytes) :
  ∀ l,
    let l' := foldl (fun l' k => (_remove_pending_connection k l').2) l ks in
    (∀ i, i ∈ ks → _pending_connections l' !! i = None) ∧
    (∀ i v, _pending_connections l' !! i = Some v →
            _pending_connections l !! i = Some v) ∧
    _connections l' = _connections l ∧
    calls l' = calls l ∧
    fixture l' = fixture l.
Proof.
  induction ks as [|k ks IH]; intros l; cbv zeta.
  - simpl. repeat split; auto. intros i Hi. apply elem_of_nil in Hi as [].
  - simpl.
    destruct (_remove_pending_connection_step k l) as (Ec & Ep & Ecalls & Ef).
    set (l1 := (_remove_pending_connection k l).2) in *.
    destruct (IH l1) as (Hgone & Hmono & Hc & Hcalls & Hf).
    cbv zeta in Hgone, Hmono, Hc, Hcalls, Hf.
    assert (Hmono' : ∀ i w,
              _pending_connections
                (foldl (fun l' k0 => (_remove_pending_connection k0 l').2) l1 ks)
              !! i = Some w → _pending_connections l !! i = Some w).
    { intros i w H. apply Hmono in H. rewrite Ep in H.
      destruct (decide (i = k)) as [->|Hne].
      - rewrite lookup_delete_eq in H. discriminate.
      - rewrite lookup_delete_ne in H by congruence. exact H. }
    split; [|split; [exact Hmono'|]].
    + intros i Hi. apply elem_of_cons in Hi as [->|Hi]; [|apply Hgone, Hi].
      destruct (_pending_connections _ !! k) as [w|] eqn:E; [|reflexivity].
      apply Hmono in E. rewrite Ep, lookup_delete_eq in E. discriminate.
    + split; [exact (eq_trans Hc Ec)|].
      split; [exact (eq_trans Hcalls Ecalls)|].
      exact (eq_trans Hf Ef).
Qed.

Lemma all_keys_gone {V} (m m' : gmap bytes V) :
  (∀ i, i ∈ (map_to_list m).*1 → m' !! i = None) →
  (∀ i v, m' !! i = Some v → m !! i = Some v) →
  m' = ∅.
Proof.
  intros Hgone Hmono. apply map_empty. intros i.
  destruct (m' !! i) as [v|] eqn:E; [|reflexivity].
  pose proof (Hmono i v E) as Hm. rewrite <- E. apply Hgone.
  apply list_elem_of_fmap. exists (i, v). split; [reflexivity|].
  apply elem_of_map_to_list, Hm.
Qed.

Lemma quiet_close_steps cr l :
  close_steps cr l =
  (Return (),
   let l3 := foldl (fun l' k => (_remove_connection (cr k) k l').2) l
               (map_to_list (_connections l)).*1 in
   let l4 := foldl (fun l' k => (_remove_pending_connection k l').2) l3
               (map_to_list (_pending_connections l3)).*1 in
   let l5 := match _socket l4 with
             | Some _ => set_socket None (log_call SocketClose l4)
             | None => l4
             end in
   set_bound_addresses [] l5).
Proof.
  unfold close_steps, bind, gets. unfold mbind at 1 2, M_bind. cbv beta iota.
  rewrite for_each_quiet by (intros k; apply quiet__remove_connection).
  unfold mbind at 1, M_bind. cbv beta iota.
  unfold mbind at 1, M_bind. cbv beta iota.
  rewrite for_each_quiet by (intros k; apply quiet__remove_pending_connection).
  cbv zeta.
  set (l4 := foldl _ (foldl _ l _) _).
  unfold mbind, M_bind, modify, call, mret, M_ret.
  destruct (_socket l4); reflexivity.
Qed.

Lemma close_of_open_listener cr l :
  _closed l = false →
  close cr l = close_steps cr (set_listening false (set_closed true l)).
Proof.
  intros Hcl. unfold close, bind, gets, modify, try_except, mbind, M_bind.
  cbv beta iota. rewrite Hcl. cbv beta iota.
  rewrite quiet_close_steps. reflexivity.
Qed.

Lemma close_outcome cr l :
  _closed l = false →
  let out := close cr l in
  out.1 = Return () ∧
  _closed out.2 = true ∧
  _listening out.2 = false ∧
  _socket out.2 = None ∧
  _bound_addresses out.2 = [] ∧
  _connections out.2 = ∅ ∧
  _pending_connections out.2 = ∅ ∧
  _stats out.2 = _stats l ∧
  calls out.2
  = calls l ++ (ConnClose <$> (map_to_list (_connections l)).*2)
    ++ match _socket l with Some _ => [SocketClose] | None => [] end.
Proof.
  intros Hcl. cbv zeta.
  rewrite close_of_open_listener by exact Hcl.
  rewrite quiet_close_steps. cbv zeta. cbn [fst snd].
  set (l2 := set_listening false (set_closed true l)).
  destruct (remove_connections_loop cr (map_to_list (_connections l2)) l2)
    as (Hgone & Hmono & Hp & Hcalls & Hf).
  { apply NoDup_fst_map_to_list. }
  { intros k v H. apply elem_of_map_to_list, H. }
  cbv zeta in Hgone, Hmono, Hp, Hcalls, Hf.
  set (l3 := foldl _ l2 _) in *.
  destruct (remove_pending_connections_loop
              (map_to_list (_pending_connections l3)).*1 l3)
    as (Hgone' & Hmono' & Hc' & Hcalls' & Hf').
  cbv zeta in Hgone', Hmono', Hc', Hcalls', Hf'.
  set (l4 := foldl _ l3 _) in *.
  assert (Hconns : _connections l4 = ∅).
  { rewrite Hc'. exact (all_keys_gone _ _ Hgone Hmono). }
  assert (Hpend : _pending_connections l4 = ∅).
  { exact (all_keys_gone _ _ Hgone' Hmono'). }
  rewrite Hf in Hf'. unfold fixture in Hf'. cbn in Hf'.
  injection Hf' as Hs Hb Hc Hl Hn Hst.
  rewrite Hcalls in Hcalls'. clearbody l4.
  destruct (_socket l4) as [sock|] eqn:Es; cbn;
    rewrite ?Es, ?Hc, ?Hl, ?Hconns, ?Hpend, ?Hst, ?Hcalls', <- ?Hs;
    rewrite ?app_nil_r, <- ?app_assoc; repeat split; reflexivity.
Qed.

Lemma close_of_closed_listener cr l :
  _closed l = true → close cr l = (Return (), l).
Proof.
  intros Hcl. unfold close, bind, gets, mbind, M_bind. cbv beta iota.
  rewrite Hcl. reflexivity.
Qed.

Lemma quiet_close cr : quiet (close cr).
Proof.
  intros l. destruct (_closed l) eqn:Hcl.
  - rewrite close_of_closed_listener by exact Hcl. reflexivity.
  - rewrite close_of_open_listener by exact Hcl.
    rewrite quiet_close_steps. reflexivity.
Qed.

(** [close()] on a listener that is not closed yet never raises,
    whatever [connection.close()] does. Afterwards the listener is closed
    and not listening, it has no socket and no bound address, and both
    session maps are empty, so [get_stats()] reports no session. Every
    established connection was closed once, then the socket if there was
    one, and nothing else was called; the counters are as before. The
    order in which the connections are closed is the order of the
    dictionary, which the statement leaves open. *)
Theorem close_releases_every_session cr l :
  _closed l = false →
  let out := close cr l in
  out.1 = Return () ∧
  _closed out.2 = true ∧
  _listening out.2 = false ∧
  is_listening out.2 = false ∧
  _socket out.2 = None ∧
  get_addresses out.2 = [] ∧
  _connections out.2 = ∅ ∧
  _pending_connections out.2 = ∅ ∧
  view_active_connections (get_stats out.2) = 0 ∧
  view_pending_connections (get_stats out.2) = 0 ∧
  view_stats (get_stats out.2) = _stats l ∧
  ∃ closed,
    closed ≡ₚ (map_to_list (_connections l)).*2 ∧
    calls out.2
    = calls l ++ (ConnClose <$> closed)
      ++ match _socket l with Some _ => [SocketClose] | None => [] end.
Proof.
  intros Hcl. cbv zeta.
  destruct (close_outcome cr l Hcl)
    as (Hr & Hc & Hl & Hs & Hb & Hconns & Hpend & Hst & Hcalls).
  unfold is_listening, get_addresses, get_stats.
  cbn [view_active_connections view_pending_connections view_stats].
  rewrite Hc, Hl, Hconns, Hpend, !map_size_empty.
  repeat (split; [assumption || reflexivity|]).
  exists (map_to_list (_connections l)).*2. split; [reflexivity|exact Hcalls].
Qed.

(** [close()] is idempotent: a second call returns at once and changes
    nothing, and after the first the listener is closed whatever state it
    was in. *)
Theorem close_is_idempotent cr cr' l :
  _closed (close cr l).2 = true ∧
  close cr' (close cr l).2 = (Return (), (close cr l).2).
Proof.
  pose proof (close_sets_closed cr l) as Hc. unfold closed_flag_set in Hc.
  split; [exact Hc|]. apply close_of_closed_listener, Hc.
Qed.

(** When every address entry has a session behind it and the address
    maps are mutual inverses, as on every run in a benign environment,
    [close()] with no failing [connection.close()] leaves all four maps of
    the routing table empty. *)
Theorem close_clears_the_routing_table cr l :
  routing_inv l →
  _closed l = false →
  (∀ cid, cr cid = false) →
  let l' := (close cr l).2 in
  _connections l' = ∅ ∧
  _pending_connections l' = ∅ ∧
  _addr_to_cid l' = ∅ ∧
  _cid_to_addr l' = ∅.
Proof.
  intros HI Hcl Hcr. cbv zeta.
  destruct (close_outcome cr l Hcl)
    as (_ & _ & _ & _ & _ & Hconns & Hpend & _).
  destruct (routing_inv_close cr Hcr l HI) as [Hcons Hbehind].
  assert (Ha : _addr_to_cid (close cr l).2 = ∅).
  { apply map_empty. intros a.
    destruct (_addr_to_cid (close cr l).2 !! a) as [c|] eqn:E; [|reflexivity].
    destruct (Hbehind a c E) as [[q Hq]|[w Hw]].
    - rewrite Hpend, lookup_empty in Hq. discriminate.
    - rewrite Hconns, lookup_empty in Hw. discriminate. }
  split; [exact Hconns|]. split; [exact Hpend|]. split; [exact Ha|].
  apply map_empty. intros c.
  destruct (_cid_to_addr (close cr l).2 !! c) as [a|] eqn:E; [|reflexivity].
  apply Hcons in E. rewrite Ha, lookup_empty in E. discriminate.
Qed.

(** * Listening *)

Lemma listen_cases s l :
  listen s l =
  if _listening l then (Raise QUICListenError, l) else
  if negb (is_quic s) then (Raise QUICListenError, l) else
  let failed l1 := (Raise QUICListenError, (close (listen_close_raises s) l1).2) in
  if socket_raises s then failed l else
  let l1 := set_nursery true (set_socket (Some (bound s)) l) in
  if bound_maddr_raises s then failed l1 else
  let l2 := log_call StartPacketLoop
              (set_listening true
                 (set_bound_addresses
                    [((bound s).1, (bound s).2, quic_version s)] l1)) in
  if start_raises s then failed l2 else (Return true, l2).
Proof.
  assert (Hfail : ∀ l1,
            (close (listen_close_raises s);; raise QUICListenError) l1
            = (Raise (A:=bool) QUICListenError,
               (close (listen_close_raises s) l1).2)).
  { intros l1. unfold mbind, M_bind.
    pose proof (quiet_close (listen_close_raises s) l1) as Hq.
    destruct (close (listen_close_raises s) l1) as [[[]|e] l']; simpl in *;
      [reflexivity|discriminate]. }
  unfold listen, bind, gets. unfold mbind at 1, M_bind. cbv beta iota.
  destruct (_listening l); [reflexivity|].
  destruct (is_quic s); cbn [negb]; [|reflexivity]. cbv zeta.
  unfold try_except, external, raise, pass, modify, call.
  destruct (socket_raises s).
  { unfold mbind at 1, M_bind. cbv beta iota. apply Hfail. }
  destruct (bound_maddr_raises s).
  { unfold mbind at 1 2 3 4, M_bind, mret, M_ret. cbv beta iota. apply Hfail. }
  destruct (start_raises s).
  { unfold mbind at 1 2 3 4 5 6 7, M_bind, mret, M_ret. cbv beta iota.
    apply Hfail. }
  reflexivity.
Qed.

(** [listen()] returns [True] or raises [QUICListenError], nothing
    else. It returns [True] exactly when the listener is not listening
    yet, the address is a QUIC address and no step of the set-up raises.
    When the listener is already listening or the address is not a QUIC
    address, it raises and the listener is unchanged. After a [True] the
    socket is the new one, the bound address is the only entry of
    [get_addrs()], the packet loop was started, the routing table and the
    counters are as before, [is_listening()] holds unless the listener was
    closed before, and every further [listen()] raises and changes
    nothing. *)
Theorem listen_succeeds_at_most_once s l :
  let out := listen s l in
  (out.1 = Return true ∨ out.1 = Raise QUICListenError) ∧
  (out.1 = Return true ↔
   _listening l = false ∧ is_quic s = true ∧ socket_raises s = false ∧
   bound_maddr_raises s = false ∧ start_raises s = false) ∧
  (_listening l = true ∨ is_quic s = false →
   out = (Raise QUICListenError, l)) ∧
  (out.1 = Return true →
   _listening out.2 = true ∧
   _socket out.2 = Some (bound s) ∧
   _nursery out.2 = true ∧
   get_addrs out.2 = [((bound s).1, (bound s).2, quic_version s)] ∧
   is_listening out.2 = negb (_closed l) ∧
   calls out.2 = calls l ++ [StartPacketLoop] ∧
   _connections out.2 = _connections l ∧
   _pending_connections out.2 = _pending_connections l ∧
   _addr_to_cid out.2 = _addr_to_cid l ∧
   _cid_to_addr out.2 = _cid_to_addr l ∧
   _stats out.2 = _stats l ∧
   ∀ s', listen s' out.2 = (Raise QUICListenError, out.2)).
Proof.
  cbv zeta. rewrite listen_cases. cbv zeta.
  destruct (_listening l) eqn:Hl.
  { cbn. repeat split; try (intros; discriminate); auto.
    intros (H & _). discriminate. }
  destruct (is_quic s) eqn:Hq; cbn [negb].
  2:{ cbn. repeat split; try (intros; discriminate); auto.
      intros (_ & H & _). discriminate. }
  destruct (socket_raises s) eqn:Hs.
  { cbn. repeat split; try (intros; discriminate); auto.
    - intros (_ & _ & H & _). discriminate.
    - intros [H|H]; discriminate. }
  destruct (bound_maddr_raises s) eqn:Hb.
  { cbn. repeat split; try (intros; discriminate); auto.
    - intros (_ & _ & _ & H & _). discriminate.
    - intros [H|H]; discriminate. }
  destruct (start_raises s) eqn:Hst.
  { cbn. repeat split; try (intros; discriminate); auto.
    - intros (_ & _ & _ & _ & H). discriminate.
    - intros [H|H]; discriminate. }
  cbn [fst snd]. split; [auto|]. split; [tauto|].
  split; [intros [H|H]; discriminate|]. intros _.
  unfold is_listening, get_addrs, get_addresses. cbn.
  repeat split.
Qed.

(** A [listen()] that fails after its two guards raises
    [QUICListenError] and leaves the listener closed, so that
    [is_listening()] is false from then on. If the listener was not closed
    before, it is torn down as by [close()]: no socket, no bound address,
    no session. If it was closed before, [close()] returns at once, and a
    socket that was already created stays in [_socket]. *)
Theorem failed_listen_closes_the_listener s l :
  _listening l = false →
  is_quic s = true →
  socket_raises s || bound_maddr_raises s || start_raises s = true →
  let out := listen s l in
  out.1 = Raise QUICListenError ∧
  _closed out.2 = true ∧
  is_listening out.2 = false ∧
  (_closed l = false →
   _listening out.2 = false ∧
   _socket out.2 = None ∧
   get_addresses out.2 = [] ∧
   _connections out.2 = ∅ ∧
   _pending_connections out.2 = ∅) ∧
  (_closed l = true → socket_raises s = false →
   _socket out.2 = Some (bound s) ∧
   _connections out.2 = _connections l ∧
   _pending_connections out.2 = _pending_connections l).
Proof.
  intros Hl Hq Hfail. cbv zeta. rewrite listen_cases, Hl, Hq. cbn [negb].
  cbv zeta.
  assert (Hgen : ∀ l1,
            _closed l1 = _closed l →
            let l' := (close (listen_close_raises s) l1).2 in
            _closed l' = true ∧ is_listening l' = false ∧
            (_closed l = false →
             _listening l' = false ∧ _socket l' = None ∧
             get_addresses l' = [] ∧ _connections l' = ∅ ∧
             _pending_connections l' = ∅) ∧
            (_closed l = true → l' = l1)).
  { intros l1 Hc1. cbv zeta.
    pose proof (close_sets_closed (listen_close_raises s) l1) as Hc.
    split; [exact Hc|]. split; [apply closed_not_listening, Hc|]. split.
    - intros Hcl. rewrite Hcl in Hc1.
      destruct (close_outcome (listen_close_raises s) l1 Hc1)
        as (_ & _ & H1 & H2 & H3 & H4 & H5 & _).
      unfold get_addresses. auto.
    - intros Hcl. rewrite Hcl in Hc1.
      rewrite close_of_closed_listener by exact Hc1. reflexivity. }
  destruct (socket_raises s) eqn:Hs.
  { cbn [fst snd]. destruct (Hgen l eq_refl) as (H1 & H2 & H3 & H4).
    split; [reflexivity|]. split; [exact H1|]. split; [exact H2|].
    split; [exact H3|]. intros _ H. discriminate. }
  destruct (bound_maddr_raises s) eqn:Hb.
  { cbn [fst snd].
    destruct (Hgen (set_nursery true (set_socket (Some (bound s)) l)) eq_refl)
      as (H1 & H2 & H3 & H4).
    split; [reflexivity|]. split; [exact H1|]. split; [exact H2|].
    split; [exact H3|]. intros Hcl _. rewrite (H4 Hcl). repeat split. }
  destruct (start_raises s) eqn:Hst; [|discriminate].
  cbn [fst snd].
  match goal with
  | |- context [close _ ?l2] => destruct (Hgen l2 eq_refl) as (H1 & H2 & H3 & H4)
  end.
  split; [reflexivity|]. split; [exact H1|]. split; [exact H2|].
  split; [exact H3|]. intros Hcl _. rewrite (H4 Hcl). repeat split.
Qed.

(** * Events of a session that is not established *)

Lemma forwarded_events_are_dropped evs q addr cid l :
  _connections l !! cid = None →
  forallb forwarded_event evs = true →
  (∀ rest b, _process_quic_events (evs ++ rest) b q addr cid l
             = _process_quic_events rest b q addr cid l).
Proof.
  intros Hc Hev rest b. induction evs as [|ev evs IH]; [reflexivity|].
  simpl in Hev. apply andb_true_iff in Hev as [Hf Hev]. specialize (IH Hev).
  destruct ev; try discriminate Hf; simpl.
  - unfold bind, gets. unfold mbind at 1 2, M_bind. cbv beta iota.
    rewrite Hc. exact IH.
  - unfold bind, gets. unfold mbind at 1 2, M_bind. cbv beta iota.
    rewrite Hc. exact IH.
  - exact IH.
Qed.

(** While a session is not in [_connections], the stream events of its
    engine are dropped: the listener does not change and no handler is
    called. The loop ends at the first [ConnectionTerminated], which
    removes the session; the events after it are never read. *)
Theorem stream_events_before_promotion_are_dropped evs q addr cid l :
  _connections l !! cid = None →
  forallb forwarded_event evs = true →
  (∀ b, _process_quic_events evs b q addr cid l
        = (if b then Raise ExternalError else Return (), l)) ∧
  (∀ close_raises rest b,
     _process_quic_events (evs ++ ConnectionTerminated close_raises :: rest)
       b q addr cid l
     = _remove_connection close_raises cid l).
Proof.
  intros Hc Hev. split.
  - intros b.
    rewrite <- (app_nil_r evs).
    rewrite (forwarded_events_are_dropped evs q addr cid l Hc Hev).
    simpl. destruct b; reflexivity.
  - intros cr rest b.
    rewrite (forwarded_events_are_dropped evs q addr cid l Hc Hev).
    reflexivity.
Qed.

(** * Where the keys of the routing table come from *)

Lemma keys_from_mono cids cids' addrs addrs' l :
  (∀ c, c ∈ cids → c ∈ cids') → (∀ a, a ∈ addrs → a ∈ addrs') →
  keys_from cids addrs l → keys_from cids' addrs' l.
Proof.
  intros Hc Ha (H1 & H2 & H3 & H4). repeat split.
  - intros cid c H. eapply Hc, H1, H.
  - intros cid q H. eapply Hc, H2, H.
  - eapply Hc, H3, H.
  - eapply Ha, H3, H.
  - eapply Hc, H4, H.
  - eapply Ha, H4, H.
Qed.

Section Provenance.
Context (cids : list bytes) (addrs : list Addr).

Lemma keys_from_call c b : preserves (keys_from cids addrs) (call c b).
Proof. intros l H. exact H. Qed.

Lemma keys_from_update_stats f :
  preserves (keys_from cids addrs) (update_stats f).
Proof. intros l H. exact H. Qed.

Lemma keys_from_flags (f : QUICListener → QUICListener) :
  (∀ l, _connections (f l) = _connections l) →
  (∀ l, _pending_connections (f l) = _pending_connections l) →
  (∀ l, _cid_to_addr (f l) = _cid_to_addr l) →
  (∀ l, _addr_to_cid (f l) = _addr_to_cid l) →
  preserves (keys_from cids addrs) (modify f).
Proof.
  intros E1 E2 E3 E4 l H. unfold keys_from, modify. cbn [snd].
  rewrite E1, E2, E3, E4. exact H.
Qed.

Lemma keys_from_pop_connections k :
  preserves (keys_from cids addrs) (pop_connections k).
Proof.
  intros l (H1 & H2 & H3 & H4). split; [|split; [exact H2|split; assumption]].
  intros cid c H. cbn in H. apply lookup_delete_Some in H as [_ H]. eauto.
Qed.

Lemma keys_from_pop_pending k :
  preserves (keys_from cids addrs) (pop_pending_connections k).
Proof.
  intros l (H1 & H2 & H3 & H4). split; [exact H1|]. split; [|split; assumption].
  intros cid q H. cbn in H. apply lookup_delete_Some in H as [_ H]. eauto.
Qed.

Lemma keys_from_pop_addr a :
  preserves (keys_from cids addrs) (pop_addr_to_cid a).
Proof.
  intros l (H1 & H2 & H3 & H4). split; [exact H1|]. split; [exact H2|].
  split; [exact H3|].
  intros a' cid H. cbn in H. apply lookup_delete_Some in H as [_ H]. eauto.
Qed.

Lemma keys_from_unmap k :
  preserves (keys_from cids addrs) (pop_address_mappings k).
Proof.
  intros l (H1 & H2 & H3 & H4).
  unfold pop_address_mappings, bind, mbind, M_bind, pop_cid_to_addr,
    pop_addr_to_cid, pass, mret, M_ret. cbv beta iota.
  destruct (_cid_to_addr l !! k) as [a|]; cbn.
  - split; [exact H1|]. split; [exact H2|]. split.
    + intros cid a' H. cbn in H. apply lookup_delete_Some in H as [_ H]. eauto.
    + intros a' cid H. cbn in H. apply lookup_delete_Some in H as [_ H]. eauto.
  - split; [exact H1|]. split; [exact H2|]. split; [|exact H4].
    intros cid a' H. cbn in H. apply lookup_delete_Some in H as [_ H]. eauto.
Qed.

Lemma keys_from_store k v :
  k ∈ cids →
  preserves (keys_from cids addrs)
    (modify (fun l => set_connections (<[k := v]> (_connections l)) l)).
Proof.
  intros Hk l (H1 & H2 & H3 & H4). split; [|split; [exact H2|split; assumption]].
  intros cid c H. cbn in H.
  destruct (decide (cid = k)) as [->|Hne]; [exact Hk|].
  rewrite lookup_insert_ne in H by congruence. eauto.
Qed.

Local Ltac provenance :=
  intros;
  first [ exact I | assumption
        | apply keys_from_call | apply keys_from_update_stats
        | apply keys_from_pop_connections | apply keys_from_pop_pending
        | apply keys_from_unmap
        | apply keys_from_store; assumption ].

Lemma keys_from__route_to_connection r c data addr :
  preserves (keys_from cids addrs) (_route_to_connection r c data addr).
Proof. apply (frame__route_to_connection _ (fun _ => True)); provenance. Qed.

Lemma keys_from__handle_pending_connection r q data addr cid :
  cid ∈ cids →
  preserves (keys_from cids addrs) (_handle_pending_connection r q data addr cid).
Proof.
  intros Hk.
  apply (frame__handle_pending_connection _ (fun _ => True) (fun k => k ∈ cids));
    provenance.
Qed.

Lemma keys_from__process_quic_events evs b q addr cid :
  cid ∈ cids →
  preserves (keys_from cids addrs) (_process_quic_events evs b q addr cid).
Proof.
  intros Hk.
  apply (frame__process_quic_events _ (fun _ => True) (fun k => k ∈ cids));
    provenance.
Qed.

Lemma keys_from__transmit_for_connection out q addr :
  preserves (keys_from cids addrs) (_transmit_for_connection out q addr).
Proof. apply frame__transmit_for_connection; provenance. Qed.

Lemma keys_from_close cr : preserves (keys_from cids addrs) (close cr).
Proof.
  apply frame_close; try provenance;
    intros; apply keys_from_flags; reflexivity.
Qed.

Lemma keys_from_listen s : preserves (keys_from cids addrs) (listen s).
Proof.
  apply frame_listen; try provenance;
    intros; apply keys_from_flags; reflexivity.
Qed.

End Provenance.

Lemma keys_from__handle_new_connection wire r data addr info cids addrs l :
  new_cid r ∈ cids → addr ∈ addrs →
  keys_from cids addrs l →
  keys_from cids addrs (_handle_new_connection wire r data addr info l).2.
Proof.
  intros Hk Ha HI. rewrite _handle_new_connection_cases.
  destruct (find_quic_config wire (_quic_configs l) (version info))
    as [[cfg|]|e].
  - destruct (engine_setup_raises r); [exact HI|]. cbv zeta.
    match goal with
    | |- keys_from _ _ (?m ?l').2 =>
        assert (Hp : preserves (keys_from cids addrs) m); [|apply Hp]
    end.
    + repeat first
        [ apply keys_from__process_quic_events; assumption
        | apply keys_from__transmit_for_connection
        | apply keys_from_call | apply keys_from_update_stats
        | preserves_step ].
    + destruct HI as (H1 & H2 & H3 & H4). split; [exact H1|]. split; [|split].
      * intros cid q H. cbn in H.
        destruct (decide (cid = new_cid r)) as [->|Hne]; [exact Hk|].
        rewrite lookup_insert_ne in H by congruence. eauto.
      * intros cid a H. cbn in H.
        destruct (decide (cid = new_cid r)) as [->|Hne].
        -- rewrite lookup_insert_eq in H. injection H as <-. auto.
        -- rewrite lookup_insert_ne in H by congruence. eauto.
      * intros a cid H. cbn in H.
        destruct (decide (a = addr)) as [->|Hne].
        -- rewrite lookup_insert_eq in H. injection H as <-. auto.
        -- rewrite lookup_insert_ne in H by congruence. eauto.
  - destruct (_send_version_negotiation_keeps_sessions addr (source_cid info) l)
      as (E1 & E2 & E3 & E4).
    unfold keys_from. rewrite E1, E2, E3, E4. exact HI.
  - exact HI.
Qed.

Lemma keys_from__process_packet wire r data addr cids addrs l :
  new_cid r ∈ cids → addr ∈ addrs →
  keys_from cids addrs l →
  keys_from cids addrs (_process_packet wire r data addr l).2.
Proof.
  intros Hk Ha HI.
  assert (H0 : keys_from cids addrs (counted data l)) by exact HI.
  pose proof HI as (H1 & H2 & H3 & H4).
  assert (Hroute : ∀ c, keys_from cids addrs
                          (_route_to_connection r c data addr (counted data l)).2).
  { intros c. apply keys_from__route_to_connection, H0. }
  assert (Hpend : ∀ cid q, cid ∈ cids →
            keys_from cids addrs
              (_handle_pending_connection r q data addr cid (counted data l)).2).
  { intros cid q Hq. apply keys_from__handle_pending_connection; assumption. }
  destruct (parse_quic_packet data) as [info|] eqn:Hparse.
  2:{ rewrite _process_packet_short by exact Hparse.
      rewrite _handle_short_header_packet_dispatch.
      change (_addr_to_cid (counted data l)) with (_addr_to_cid l).
      change (_connections (counted data l)) with (_connections l).
      change (_pending_connections (counted data l))
        with (_pending_connections l).
      destruct (_addr_to_cid l !! addr) as [cid|] eqn:Ea; [|exact H0].
      destruct (truthy cid); [|exact H0].
      destruct (_connections l !! cid); [apply Hroute|].
      destruct (_pending_connections l !! cid) eqn:Hq; [|exact H0].
      apply Hpend. eapply H2, Hq. }
  destruct (decide (version info = 0)) as [Hv|Hv].
  { rewrite (_process_packet_version_zero _ _ _ _ info) by assumption.
    exact H0. }
  destruct (decide (version info ∈ _supported_versions l)) as [Hs|Hs].
  2:{ rewrite (_process_packet_unsupported _ _ _ _ info) by assumption.
      destruct (_send_version_negotiation_keeps_sessions addr (source_cid info)
                  (counted data l)) as (E1 & E2 & E3 & E4).
      unfold keys_from. rewrite E1, E2, E3, E4. exact H0. }
  rewrite (_process_packet_routed _ _ _ _ info) by assumption. cbv zeta.
  destruct (_connections l !! destination_cid info); [apply Hroute|].
  destruct (_pending_connections l !! destination_cid info) eqn:Hq;
    [apply Hpend; eapply H2, Hq|].
  destruct (_addr_to_cid l !! addr) as [e|] eqn:Ea.
  - destruct (_pending_connections l !! e) eqn:Hqe;
      [apply Hpend; eapply H2, Hqe|].
    destruct (_connections l !! e); [apply Hroute|].
    assert (H0' : keys_from cids addrs (unmapped addr (counted data l)))
      by apply (keys_from_pop_addr cids addrs addr (counted data l) H0).
    destruct (packet_type info =? 0); [|exact H0'].
    apply keys_from__handle_new_connection; assumption.
  - destruct (packet_type info =? 0); [|exact H0].
    apply keys_from__handle_new_connection; assumption.
Qed.

Lemma keys_from_run wire ops :
  ∀ cids addrs l,
    keys_from cids addrs l →
    keys_from (cids ++ issued ops) (addrs ++ senders ops) (run wire ops l).
Proof.
  unfold run. induction ops as [|op ops IH]; intros cids addrs l HI.
  - simpl. rewrite !app_nil_r. exact HI.
  - simpl foldl. destruct op as [s|cr|r data addr]; simpl step.
    + apply IH, keys_from_listen, HI.
    + apply IH, keys_from_close, HI.
    + change (issued (OpPacket r data addr :: ops)) with (new_cid r :: issued ops).
      change (senders (OpPacket r data addr :: ops)) with (addr :: senders ops).
      rewrite (cons_middle (new_cid r)), (cons_middle addr), !app_assoc.
      apply IH, keys_from__process_packet.
      * apply elem_of_app. right. apply list_elem_of_singleton. reflexivity.
      * apply elem_of_app. right. apply list_elem_of_singleton. reflexivity.
      * eapply keys_from_mono; [| |exact HI]; intros x Hx;
          apply elem_of_app; left; exact Hx.
Qed.

(** The keys of the routing table never come from a packet. After any
    operations on a new listener, every connection id under which a
    session is stored, and every connection id in the two address maps, is
    one the random source handed out for a datagram of the run; the DCID
    a client chose is never one of them unless the random source produced
    it. Every address in the address maps is the source address of a
    datagram of the run. *)
Theorem routing_keys_come_from_the_random_source wire configs sm ops :
  let l := run wire ops (init configs sm) in
  (∀ cid c, _connections l !! cid = Some c → cid ∈ issued ops) ∧
  (∀ cid q, _pending_connections l !! cid = Some q → cid ∈ issued ops) ∧
  (∀ cid a, _cid_to_addr l !! cid = Some a → cid ∈ issued ops ∧ a ∈ senders ops) ∧
  (∀ a cid, _addr_to_cid l !! a = Some cid → cid ∈ issued ops ∧ a ∈ senders ops).
Proof.
  cbv zeta.
  apply (keys_from_run wire ops [] [] (init configs sm)).
  split; [|split; [|split]]; intros x y H; cbn in H;
    rewrite lookup_empty in H; discriminate.
Qed.

(** * The configuration of a new session *)

(** The loop of [_handle_new_connection] over [_quic_configs] picks the
    first configuration whose protocol tag has the packet's version as its
    wire version. It finds none exactly when every tag converts to another
    version. It raises exactly when a tag that does not convert comes
    before any match: the configurations after it are not looked at, even
    if one of them matches. *)
Theorem find_quic_config_picks_first_match wire items v :
  match find_quic_config wire items v with
  | Return (Some config) =>
      ∃ before protocol after,
        items = before ++ (protocol, config) :: after ∧
        wire protocol = Return v ∧
        Forall (other_version wire v) before
  | Return None => Forall (other_version wire v) items
  | Raise e =>
      ∃ before protocol config after,
        items = before ++ (protocol, config) :: after ∧
        wire protocol = Raise e ∧
        Forall (other_version wire v) before
  end.
Proof.
  induction items as [|[p c] items IH]; simpl.
  - constructor.
  - destruct (wire p) as [v'|e] eqn:Ew; simpl.
    + destruct (v' =? v) eqn:Ev.
      * apply Z.eqb_eq in Ev. subst v'.
        exists [], p, items. repeat split; [exact Ew|constructor].
      * apply Z.eqb_neq in Ev.
        assert (Hp : other_version wire v (p, c)) by (exists v'; auto).
        destruct (find_quic_config wire items v) as [[c'|]|e].
        -- destruct IH as (before & p' & after & -> & Hw & Hb).
           exists ((p, c) :: before), p', after.
           repeat split; [exact Hw|constructor; assumption].
        -- constructor; assumption.
        -- destruct IH as (before & p' & c' & after & -> & Hw & Hb).
           exists ((p, c) :: before), p', c', after.
           repeat split; [exact Hw|constructor; assumption].
    + exists [], p, c, items. repeat split; [exact Ew|constructor].
Qed.

(** * The statements at work on the concrete listener *)

Lemma parsed_header_fields_witness :
  parse_quic_packet initial_datagram = Some initial_info ∧
  ∃ flags,
    initial_datagram !! 0%nat = Some flags ∧
    128 ≤ byte_val flags ∧
    7 ≤ len initial_datagram ∧
    version initial_info = be_nat (slice initial_datagram 1 5) ∧
    0 ≤ version initial_info < 2 ^ 32 ∧
    packet_type initial_info = byte_val flags / 16 mod 4 ∧
    (packet_type initial_info ≠ 0 → token initial_info = []).
Proof.
  assert (H : parse_quic_packet initial_datagram = Some initial_info)
    by (vm_compute; reflexivity).
  split; [exact H|]. exact (parsed_header_fields _ _ H).
Defined.

Lemma parse_long_header_witness :
  128 ≤ byte_val xc0 ∧ 0 ≤ 1 < 2 ^ 32 ∧
  byte_val x08 = len client_dcid ∧ byte_val x02 = len client_scid ∧
  byte_val x03 = len [xaa; xbb; xcc] ∧
  parse_quic_packet
    (long_header xc0 1 x08 client_dcid x02 client_scid
     ++ [x03] ++ [xaa; xbb; xcc] ++ [x00; x00])
  = Some {| version := 1; destination_cid := client_dcid;
            source_cid := client_scid; packet_type := 0;
            token := [xaa; xbb; xcc] |}.
Proof.
  assert (H1 : 128 ≤ byte_val xc0) by (change (byte_val xc0) with 192; lia).
  assert (H2 : 0 ≤ 1 < 2 ^ 32) by lia.
  assert (H3 : byte_val x08 = len client_dcid) by reflexivity.
  assert (H4 : byte_val x02 = len client_scid) by reflexivity.
  assert (H5 : byte_val x03 = len [xaa; xbb; xcc]) by reflexivity.
  split; [exact H1|]. split; [exact H2|]. split; [exact H3|].
  split; [exact H4|]. split; [exact H5|].
  destruct (parse_long_header xc0 1 x08 client_dcid x02 client_scid H1 H2 H3 H4)
    as [_ Hinitial].
  apply Hinitial; [reflexivity|exact H5|].
  change (len [xaa; xbb; xcc]) with 3. lia.
Defined.

Lemma short_header_dispatch_witness :
  parse_quic_packet short_datagram = None ∧
  _process_packet wire_format (reaction second_server_cid []) short_datagram
    client established_server
  = _route_to_connection (reaction second_server_cid [])
      (wrapper_of engine client "quic-v1") short_datagram client
      (counted short_datagram established_server).
Proof.
  assert (H : parse_quic_packet short_datagram = None)
    by (vm_compute; reflexivity).
  split; [exact H|].
  rewrite (short_header_dispatch wire_format (reaction second_server_cid [])
             short_datagram client established_server H).
  cbv zeta.
  replace (_addr_to_cid established_server !! client) with (Some server_cid)
    by (vm_compute; reflexivity).
  change (truthy server_cid) with true. cbv iota.
  replace (_connections established_server !! server_cid)
    with (Some (wrapper_of engine client "quic-v1"))
    by (vm_compute; reflexivity).
  reflexivity.
Defined.

Lemma only_initial_packets_create_state_witness :
  parse_quic_packet handshake_datagram
  = Some {| version := 1; destination_cid := server_cid;
            source_cid := client_scid; packet_type := 2; token := [] |} ∧
  no_new_state pending_server
    (_process_packet wire_format
       (reaction second_server_cid [HandshakeCompleted quiet_promotion])
       handshake_datagram client pending_server).2.
Proof.
  assert (H : parse_quic_packet handshake_datagram
              = Some {| version := 1; destination_cid := server_cid;
                        source_cid := client_scid; packet_type := 2;
                        token := [] |})
    by (vm_compute; reflexivity).
  split; [exact H|].
  apply only_initial_packets_create_state.
  intros info Hinfo. rewrite H in Hinfo. injection Hinfo as <-.
  cbn. discriminate.
Defined.

Lemma failed_pending_session_is_removed_witness :
  receive_raises (failing_reaction second_server_cid false) = true ∧
  _pending_connections pending_server !! server_cid = Some engine ∧
  let out := _handle_pending_connection
               (failing_reaction second_server_cid false) engine
               handshake_datagram client server_cid pending_server in
  out.1 = Return () ∧
  _pending_connections out.2 = delete server_cid (_pending_connections pending_server) ∧
  _stats out.2 = _stats pending_server.
Proof.
  split; [reflexivity|]. split; [vm_compute; reflexivity|].
  destruct (failed_pending_session_is_removed
              (failing_reaction second_server_cid false) engine
              handshake_datagram client server_cid pending_server eq_refl)
    as (H1 & H2 & _ & _ & _ & H6 & _).
  split; [exact H1|]. split; [exact H2|exact H6].
Defined.

Lemma routing_inv_server : routing_inv server.
Proof.
  apply routing_inv_listen; [intros cid; reflexivity|apply routing_inv_init].
Qed.

Lemma routing_inv_established_server : routing_inv established_server.
Proof.
  apply routing_inv__process_packet; [|apply routing_inv_server].
  repeat split; vm_compute; reflexivity.
Qed.

Lemma removal_takes_the_routes_of_one_session_witness :
  routing_consistent established_server ∧
  _cid_to_addr established_server !! server_cid = Some client ∧
  let l1 := (_remove_connection false server_cid established_server).2 in
  _connections l1 = delete server_cid (_connections established_server) ∧
  _pending_connections l1 = _pending_connections established_server ∧
  _cid_to_addr l1 = delete server_cid (_cid_to_addr established_server) ∧
  (∀ a c, _addr_to_cid l1 !! a = Some c ↔
          c ≠ server_cid ∧ _addr_to_cid established_server !! a = Some c) ∧
  routing_consistent l1.
Proof.
  assert (H : routing_consistent established_server)
    by apply routing_inv_established_server.
  split; [exact H|]. split; [vm_compute; reflexivity|].
  exact (proj1 (removal_takes_the_routes_of_one_session server_cid
                  established_server H)).
Defined.

Lemma close_releases_every_session_witness :
  _closed established_server = false ∧
  _connections established_server !! server_cid
  = Some (wrapper_of engine client "quic-v1") ∧
  let out := close (fun _ => true) established_server in
  out.1 = Return () ∧
  is_listening out.2 = false ∧
  _connections out.2 = ∅ ∧
  _pending_connections out.2 = ∅ ∧
  view_active_connections (get_stats out.2) = 0.
Proof.
  assert (H : _closed established_server = false) by reflexivity.
  split; [exact H|]. split; [vm_compute; reflexivity|].
  destruct (close_releases_every_session (fun _ => true) established_server H)
    as (H1 & _ & _ & H4 & _ & _ & H7 & H8 & H9 & _).
  split; [exact H1|]. split; [exact H4|]. split; [exact H7|].
  split; [exact H8|exact H9].
Defined.

Lemma close_clears_the_routing_table_witness :
  routing_inv established_server ∧
  _closed established_server = false ∧
  _addr_to_cid established_server !! client = Some server_cid ∧
  let l' := (close (fun _ => false) established_server).2 in
  _connections l' = ∅ ∧
  _pending_connections l' = ∅ ∧
  _addr_to_cid l' = ∅ ∧
  _cid_to_addr l' = ∅.
Proof.
  assert (H : routing_inv established_server)
    by apply routing_inv_established_server.
  assert (Hc : _closed established_server = false) by reflexivity.
  split; [exact H|]. split; [exact Hc|]. split; [vm_compute; reflexivity|].
  apply (close_clears_the_routing_table (fun _ => false) established_server H Hc).
  intros cid. reflexivity.
Defined.

Lemma failed_listen_closes_the_listener_witness :
  let l := init [("quic-v1"%string, config_v1)] true in
  _listening l = false ∧
  is_quic listen_without_socket = true ∧
  socket_raises listen_without_socket
  || bound_maddr_raises listen_without_socket
  || start_raises listen_without_socket = true ∧
  let out := listen listen_without_socket l in
  out.1 = Raise QUICListenError ∧
  _closed out.2 = true ∧
  is_listening out.2 = false ∧
  (listen listen_ok out.2).1 = Return true ∧
  is_listening (listen listen_ok out.2).2 = false.
Proof.
  cbv zeta.
  split; [reflexivity|]. split; [reflexivity|]. split; [reflexivity|].
  destruct (failed_listen_closes_the_listener listen_without_socket
              (init [("quic-v1"%string, config_v1)] true)
              eq_refl eq_refl eq_refl)
    as (H1 & H2 & H3 & _).
  split; [exact H1|]. split; [exact H2|]. split; [exact H3|].
  split; vm_compute; reflexivity.
Defined.

Lemma stream_events_before_promotion_are_dropped_witness :
  _connections pending_server !! server_cid = None ∧
  forallb forwarded_event
    [StreamDataReceived true; OtherEvent; StreamReset false] = true ∧
  _process_quic_events
    [StreamDataReceived true; OtherEvent; StreamReset false] false engine
    client server_cid pending_server
  = (Return (), pending_server).
Proof.
  assert (H : _connections pending_server !! server_cid = None)
    by (vm_compute; reflexivity).
  split; [exact H|]. split; [reflexivity|].
  exact (proj1 (stream_events_before_promotion_are_dropped
                  [StreamDataReceived true; OtherEvent; StreamReset false]
                  engine client server_cid pending_server H eq_refl) false).
Defined.
